(** * senza: the traffic-shifting engine ([senza/traffic.py])

    A shallow embedding of the weight computation behind [senza traffic]:
    [get_weights], [calculate_new_weights], [compensate], [set_new_weights]
    and the part of [change_version_traffic] that connects them, followed by
    the properties the specification states about them.

    Modelling conventions.
    - A Python [int] is a [Z].
    - A Python [str] is a [string]; [==] is [String.eqb] and [<] on strings is
      [String.ltb] (lexicographic on code units, which agrees with Python's
      code-point order on UTF-8 encoded text).
    - A Python [dict] is an insertion-ordered association list ([dict V]):
      assignment to an existing key keeps the key's position, assignment to a
      new key appends it.  Subscripting an absent key raises [KeyError].
    - The caller's percentage is a Python [float] in [[0, 100]] (click's
      [FloatRange(0, 100, clamp=True)]).  Floats are dyadic rationals, and the
      only operations performed on non-integral values are a multiplication by
      [PERCENT_RESOLUTION = 2] (exact in binary floating point) and quotients
      of integers far below [2^53] followed by a comparison with an integer
      and a truncation, none of which the rounding of the quotient can
      change.  They are therefore modelled as exact rationals ([Q]).
    - Exceptions ([KeyError], [AssertionError]) are the left summand of
      [result]; console output ([ok], [warning]) is a list of [message]s.
    - Calls to AWS are outside the model: the record list [rr], the version
      registry [identifier_versions] and the selected version are inputs, the
      change batch handed to Route 53 is an output. *)

From Stdlib Require Import ZArith QArith Qminmax List String Bool Lia.
Import ListNotations.

#[local] Open Scope Z_scope.

(* ------------------------------------------------------------------------- *)
(** ** Exceptions *)

Inductive exn : Type :=
| KeyError (key : string)
| AssertionError.

Definition result (A : Type) : Type := (exn + A)%type.

Definition ret {A : Type} (a : A) : result A := inr a.

Definition raise {A : Type} (e : exn) : result A := inl e.

Definition bind {A B : Type} (m : result A) (k : A -> result B) : result B :=
  match m with
  | inl e => inl e
  | inr a => k a
  end.

Notation "x <- m ;; k" := (bind m (fun x => k))
  (at level 61, m at next level, right associativity).
Notation "' p <- m ;; k" := (bind m (fun x => let p := x in k))
  (at level 61, p pattern, m at next level, right associativity).

(** [assert c] *)
Definition assert (c : bool) : result unit :=
  if c then ret tt else raise AssertionError.

(* ------------------------------------------------------------------------- *)
(** ** Python dictionaries with string keys *)

Module Dict.

Definition dict (V : Type) : Type := list (string * V).

Definition empty {V : Type} : dict V := [].

Definition keys {V : Type} (d : dict V) : list string := map fst d.

Definition values {V : Type} (d : dict V) : list V := map snd d.

(** [d.get(k)] *)
Fixpoint get {V : Type} (k : string) (d : dict V) : option V :=
  match d with
  | [] => None
  | (k', v) :: d' => if String.eqb k k' then Some v else get k d'
  end.

(** [k in d] *)
Definition mem {V : Type} (k : string) (d : dict V) : bool :=
  match get k d with
  | Some _ => true
  | None => false
  end.

(** [d[k]] *)
Definition lookup {V : Type} (k : string) (d : dict V) : result V :=
  match get k d with
  | Some v => ret v
  | None => raise (KeyError k)
  end.

(** [d[k] = v] *)
Fixpoint set {V : Type} (k : string) (v : V) (d : dict V) : dict V :=
  match d with
  | [] => [(k, v)]
  | (k', v') :: d' =>
      if String.eqb k k' then (k', v) :: d' else (k', v') :: set k v d'
  end.

End Dict.

Import Dict.

(** [sum(d.values())] *)
Definition sum_values (d : dict Z) : Z := fold_right Z.add 0 (values d).

(* ------------------------------------------------------------------------- *)
(** ** Constants *)

Definition PERCENT_RESOLUTION : Z := 2.

Definition FULL_PERCENTAGE : Z := PERCENT_RESOLUTION * 100.

(** [int(x)] on a float: truncation toward zero. *)
Definition int_of_Q (x : Q) : Z := Z.quot (Qnum x) (Zpos (Qden x)).

(* ------------------------------------------------------------------------- *)
(** ** Route 53 resource record sets

    The keys the engine reads or writes.  Weighted records returned by
    Route 53 carry an integer [Weight]. *)

Record Record_ : Type := mkRecord {
  Type_ : string;
  Name : string;
  SetIdentifier : string;
  Weight : Z;
  TTL : Z;
  ResourceRecords : list string
}.

(** [r['Type'] == 'CNAME' and r['Name'] == dns_name] *)
Definition matches (dns_name : string) (r : Record_) : bool :=
  String.eqb (Type_ r) "CNAME"%string && String.eqb (Name r) dns_name.

(** [r['Weight'] = w] *)
Definition with_weight (r : Record_) (w : Z) : Record_ :=
  mkRecord (Type_ r) (Name r) (SetIdentifier r) w (TTL r) (ResourceRecords r).

(* ------------------------------------------------------------------------- *)
(** ** [get_weights] *)

(** The state of the loop over [rr]:
    [(known_record_weights, partial_count, partial_sum)]. *)
Definition get_weights_step (dns_name identifier : string)
    (st : dict Z * Z * Z) (r : Record_) : dict Z * Z * Z :=
  let '(known_record_weights, partial_count, partial_sum) := st in
  if matches dns_name r then
    let w := if Z.eqb (Weight r) 0 then 0 else Weight r in
    let known_record_weights := set (SetIdentifier r) w known_record_weights in
    if negb (String.eqb (SetIdentifier r) identifier) && (0 <? w) then
      (known_record_weights, partial_count + 1, partial_sum + w)
    else
      (known_record_weights, partial_count, partial_sum)
  else st.

(** [if ident not in known_record_weights: known_record_weights[ident] = 0] *)
Definition set_default_zero (known_record_weights : dict Z) (ident : string)
    : dict Z :=
  if mem ident known_record_weights then known_record_weights
  else set ident 0 known_record_weights.

Definition get_weights (dns_name identifier : string) (rr : list Record_)
    (all_identifiers : list string) : dict Z * Z * Z :=
  let '(known_record_weights, partial_count, partial_sum) :=
    fold_left (get_weights_step dns_name identifier) rr (empty, 0, 0) in
  let known_record_weights :=
    set_default_zero known_record_weights identifier in
  let known_record_weights :=
    fold_left set_default_zero all_identifiers known_record_weights in
  (known_record_weights, partial_count, partial_sum).

(* ------------------------------------------------------------------------- *)
(** ** [calculate_new_weights] *)

(** The new weight [n] of one item [(i, w)] of [known_record_weights]. *)
Definition new_weight (delta : Z) (identifier : string) (percentage : Z)
    (i : string) (w : Z) : Z :=
  if String.eqb i identifier then percentage
  else if percentage =? FULL_PERCENTAGE then 0
  else if 0 <? w then Z.max 1 (w + delta)
  else 0.

(** One iteration of the loop over [known_record_weights.items()];
    [known_record_weights[i]] is the [w] of the item being visited. *)
Definition calculate_step (delta : Z) (identifier : string) (percentage : Z)
    (st : dict Z * dict Z) (item : string * Z) : dict Z * dict Z :=
  let '(new_record_weights, deltas) := st in
  let '(i, w) := item in
  let n := new_weight delta identifier percentage i w in
  (set i n new_record_weights, set i (n - w) deltas).

Definition calculate_new_weights (delta : Z) (identifier : string)
    (known_record_weights : dict Z) (percentage : Z) : dict Z * dict Z :=
  fold_left (calculate_step delta identifier percentage) known_record_weights
            (empty, empty).

(* ------------------------------------------------------------------------- *)
(** ** Console output *)

Inductive message : Type :=
| OkRecordRemoved (dns_name : string)
    (* ok(msg='DNS record "{dns_name}" will be removed from that stack') *)
| WarningChangingPercentage (given adjusted : Q)
    (* warning("Changing given percentage from {} to {} because ...") *)
| ActionSettingWeights (dns_name : string)
    (* action('Setting weights for {dns_name}..') *)
| OkDisabled      (* ok(' DISABLED') *)
| Ok              (* ok() *)
| OkNotChanged.   (* ok(' not changed') *)

(* ------------------------------------------------------------------------- *)
(** ** [compensate] *)

Definition Qlt_bool (x y : Q) : bool := negb (Qle_bool y x).

(** The step [part]:
[[
    part = calculation_error / partial_count
    if part > 0:
        part = int(max(1, part))
    else:
        part = int(min(-1, part))
]] *)
Definition compensate_part (calculation_error partial_count : Z) : Z :=
  let part := (inject_Z calculation_error / inject_Z partial_count)%Q in
  if Qlt_bool 0 part then int_of_Q (Qmax 1 part)
  else int_of_Q (Qmin (-1) part).

(** [sorted(ks, key=lambda x: identifier_versions[x], reverse=True)]:
    the keys are computed first (a missing one raises [KeyError]), then the
    list is sorted in descending key order, elements with equal keys keeping
    their relative order. *)
Fixpoint with_versions (identifier_versions : dict string) (ks : list string)
    : result (list (string * string)) :=
  match ks with
  | [] => ret []
  | x :: ks' =>
      v <- lookup x identifier_versions ;;
      rest <- with_versions identifier_versions ks' ;;
      ret ((x, v) :: rest)
  end.

Fixpoint insert_desc (x : string * string) (l : list (string * string))
    : list (string * string) :=
  match l with
  | [] => [x]
  | y :: l' =>
      if String.ltb (snd x) (snd y) then y :: insert_desc x l' else x :: l
  end.

Definition sort_desc (l : list (string * string)) : list (string * string) :=
  fold_right insert_desc [] l.

Definition sorted_by_version_desc (identifier_versions : dict string)
    (ks : list string) : result (list string) :=
  kvs <- with_versions identifier_versions ks ;;
  ret (map fst (sort_desc kvs)).

(** The [for] loop of [compensate] over the remaining candidates, on the
    state [(calculation_error, new_record_weights, compensations)]. *)
Fixpoint compensate_loop (part : Z) (identifier : string)
    (candidates : list string) (st : Z * dict Z * dict Z)
    : result (Z * dict Z * dict Z) :=
  match candidates with
  | [] => ret st
  | i :: rest =>
      let '(calculation_error, new_record_weights, compensations) := st in
      if String.eqb i identifier then
        compensate_loop part identifier rest st
      else
        w <- lookup i new_record_weights ;;
        let nw := w + part in
        if nw <=? 0 then
          compensate_loop part identifier rest st
        else
          let new_record_weights := set i nw new_record_weights in
          let calculation_error := calculation_error - part in
          let compensations := set i part compensations in
          if calculation_error =? 0 then
            ret (calculation_error, new_record_weights, compensations)
          else
            compensate_loop part identifier rest
              (calculation_error, new_record_weights, compensations)
  end.

(** Fixed-point units shown as a percentage:
    [percentage / PERCENT_RESOLUTION]. *)
Definition as_percent (units : Z) : Q :=
  (inject_Z units / inject_Z PERCENT_RESOLUTION)%Q.

(** [compensate] returns the percentage; the two dictionaries it mutates and
    the warnings it prints are returned with it. *)
Definition compensate (calculation_error : Z) (compensations : dict Z)
    (identifier : string) (new_record_weights : dict Z) (partial_count : Z)
    (percentage : Z) (identifier_versions : dict string)
    : result (Z * dict Z * dict Z * list message) :=
  _ <- assert (negb (partial_count =? 0)) ;;
  let part := compensate_part calculation_error partial_count in
  order <- sorted_by_version_desc identifier_versions
             (keys new_record_weights) ;;
  '(calculation_error, new_record_weights, compensations) <-
    compensate_loop part identifier order
      (calculation_error, new_record_weights, compensations) ;;
  if negb (calculation_error =? 0) then
    let adjusted_percentage := percentage + calculation_error in
    let compensations := set identifier calculation_error compensations in
    let calculation_error := 0 in
    let warnings :=
      [WarningChangingPercentage (as_percent percentage)
                                 (as_percent adjusted_percentage)] in
    let percentage := adjusted_percentage in
    let new_record_weights := set identifier percentage new_record_weights in
    _ <- assert (calculation_error =? 0) ;;
    ret (percentage, new_record_weights, compensations, warnings)
  else
    _ <- assert (calculation_error =? 0) ;;
    ret (percentage, new_record_weights, compensations, []).

(* ------------------------------------------------------------------------- *)
(** ** [set_new_weights] *)

Inductive action_kind : Type := UPSERT | DELETE.

Record change : Type := mkChange {
  Action : action_kind;
  ResourceRecordSet : Record_
}.

(** One iteration of the loop over [rr], on [(changes, did_the_upsert)].
    An upserted [r] is appended after its weight has been overwritten, a
    deleted one as the unchanged copy. *)
Definition set_new_weights_step (dns_name identifier : string)
    (new_record_weights : dict Z) (st : list change * bool) (r : Record_)
    : result (list change * bool) :=
  let '(changes, did_the_upsert) := st in
  if matches dns_name r then
    w <- lookup (SetIdentifier r) new_record_weights ;;
    if negb (w =? 0) then
      let changes :=
        if negb (Weight r =? w)
        then changes ++ [mkChange UPSERT (with_weight r w)]
        else changes in
      let did_the_upsert :=
        if String.eqb identifier (SetIdentifier r) then true
        else did_the_upsert in
      ret (changes, did_the_upsert)
    else
      ret (changes ++ [mkChange DELETE r], did_the_upsert)
  else ret st.

Fixpoint set_new_weights_loop (dns_name identifier : string)
    (new_record_weights : dict Z) (rr : list Record_)
    (st : list change * bool) : result (list change * bool) :=
  match rr with
  | [] => ret st
  | r :: rr' =>
      st' <- set_new_weights_step dns_name identifier new_record_weights st r ;;
      set_new_weights_loop dns_name identifier new_record_weights rr' st'
  end.

(** The record synthesized for a target that has none. *)
Definition new_target_record (dns_name identifier lb_dns_name : string)
    (w : Z) : Record_ :=
  mkRecord "CNAME" dns_name identifier w 20 [lb_dns_name].

(** The result is the change batch submitted to Route 53 ([None] when no call
    is made) and what is printed.  [percentage] and [hosted_zone_id] do not
    influence either and are left out. *)
Definition set_new_weights (dns_name identifier lb_dns_name : string)
    (new_record_weights : dict Z) (rr : list Record_)
    : result (option (list change) * list message) :=
  '(changes, did_the_upsert) <-
    set_new_weights_loop dns_name identifier new_record_weights rr
      ([], false) ;;
  w <- lookup identifier new_record_weights ;;
  let changes :=
    if (0 <? w) && negb did_the_upsert
    then changes ++
         [mkChange UPSERT (new_target_record dns_name identifier lb_dns_name w)]
    else changes in
  match changes with
  | _ :: _ =>
      if sum_values new_record_weights =? 0
      then ret (Some changes, [ActionSettingWeights dns_name; OkDisabled])
      else ret (Some changes, [ActionSettingWeights dns_name; Ok])
  | [] => ret (None, [ActionSettingWeights dns_name; OkNotChanged])
  end.

(* ------------------------------------------------------------------------- *)
(** ** [change_version_traffic]

    The part after the stack versions, the zone and the records have been
    fetched: [identifier_versions] is the registry built from the stack
    versions, [dns_name], [identifier] and [lb_dns_name] belong to the
    selected version, [rr] is the record list and [percentage] the float given
    on the command line. *)

(** [int(percentage * PERCENT_RESOLUTION)] *)
Definition percentage_units (percentage : Q) : Z :=
  int_of_Q (percentage * inject_Z PERCENT_RESOLUTION)%Q.

(** What [dump_traffic_changes] receives on the general path. *)
Record calculation : Type := mkCalculation {
  delta : Z;
  deltas : dict Z;
  compensations : dict Z
}.

Record traffic_change : Type := mkTrafficChange {
  known_record_weights : dict Z;
  partial_count : Z;
  partial_sum : Z;
  percentage : Z;                      (* as passed to [set_new_weights] *)
  new_record_weights : dict Z;
  calculated : option calculation;     (* [None] on the disable branch *)
  batch : option (list change);
  output : list message
}.

(** [{i: 0 for i in known_record_weights.keys()}] *)
Definition all_zero (known_record_weights : dict Z) : dict Z :=
  fold_left (fun d i => set i 0 d) (keys known_record_weights) empty.

(** The [else] branch: ['Calculating new weights..']. *)
Definition calculate (identifier_versions : dict string) (identifier : string)
    (known_record_weights : dict Z) (partial_count partial_sum percentage : Z)
    : result (Z * dict Z * calculation * list message) :=
  let compensations := empty in
  let '(delta, compensations, percentage) :=
    if negb (partial_count =? 0) then
      (int_of_Q (inject_Z (FULL_PERCENTAGE - percentage - partial_sum)
                 / inject_Z partial_count)%Q,
       compensations, percentage)
    else if 0 <? percentage then
      (0, set identifier (FULL_PERCENTAGE - percentage) compensations,
       FULL_PERCENTAGE)
    else (0, compensations, percentage) in
  let '(new_record_weights, deltas) :=
    calculate_new_weights delta identifier known_record_weights percentage in
  let total_weight := sum_values new_record_weights in
  let calculation_error := FULL_PERCENTAGE - total_weight in
  '(percentage, new_record_weights, compensations, warnings) <-
    (if negb (calculation_error =? 0) && (calculation_error <? FULL_PERCENTAGE)
     then compensate calculation_error compensations identifier
            new_record_weights partial_count percentage identifier_versions
     else ret (percentage, new_record_weights, compensations, [])) ;;
  _ <- assert (sum_values new_record_weights =? FULL_PERCENTAGE) ;;
  ret (percentage, new_record_weights,
       mkCalculation delta deltas compensations, warnings).

Definition change_version_traffic (identifier_versions : dict string)
    (dns_name identifier lb_dns_name : string) (rr : list Record_)
    (percentage : Q) : result traffic_change :=
  let percentage := percentage_units percentage in
  let '(known_record_weights, partial_count, partial_sum) :=
    get_weights dns_name identifier rr (keys identifier_versions) in
  '(percentage, new_record_weights, calculated, printed) <-
    (if (partial_count =? 0) && (percentage =? 0) then
       ret (percentage, all_zero known_record_weights, None,
            [OkRecordRemoved dns_name])
     else
       '(percentage, new_record_weights, c, warnings) <-
         calculate identifier_versions identifier known_record_weights
                   partial_count partial_sum percentage ;;
       ret (percentage, new_record_weights, Some c, warnings)) ;;
  '(batch, printed') <-
    set_new_weights dns_name identifier lb_dns_name new_record_weights rr ;;
  ret (mkTrafficChange known_record_weights partial_count partial_sum
         percentage new_record_weights calculated batch (printed ++ printed')).

(* ------------------------------------------------------------------------- *)
(** ** Vocabulary of the specification *)

(** The "partial" population of a weight map: the identifiers other than the
    target that carry a positive weight. *)
Definition is_partial (identifier : string) (item : string * Z) : bool :=
  negb (String.eqb (fst item) identifier) && (0 <? snd item).

Definition partial_items (identifier : string) (d : dict Z) : dict Z :=
  filter (is_partial identifier) d.

(** A dictionary grown by entries of weight zero. *)
Definition zero_extension (d d' : dict Z) : Prop :=
  exists z, d' = d ++ z /\ Forall (fun item => snd item = 0) z.

(** The state of [get_weights] after its loop over [rr]. *)
Definition scanned (dns_name identifier : string) (rr : list Record_)
    : dict Z * Z * Z :=
  fold_left (get_weights_step dns_name identifier) rr (empty, 0, 0).

(** The weighted records of [dns_name] in a record list. *)
Definition weighted (dns_name : string) (rr : list Record_) : list Record_ :=
  filter (matches dns_name) rr.

(** Route 53 keeps one record per name, type and set identifier. *)
Definition unique_identifiers (dns_name : string) (rr : list Record_) : Prop :=
  NoDup (map SetIdentifier (weighted dns_name rr)).

(** The version registry knows every identifier that has a record. *)
Definition registry_total (identifier_versions : dict string)
    (dns_name : string) (rr : list Record_) : Prop :=
  forall r, In r (weighted dns_name rr) ->
            In (SetIdentifier r) (keys identifier_versions).

(** The compensation step as the specification words it: the quotient
    [error / partialCount] rounded away from zero (the ceiling of the
    absolute quotient, carrying the sign of the error). *)
Definition part_rounded_away (error partialCount : Z) : Z :=
  Z.sgn error * ((Z.abs error + partialCount - 1) / partialCount).

(** The changes [set_new_weights] appends for one record, and whether the
    record makes it set [did_the_upsert]: the loop body as a function of the
    record alone. *)
Definition record_changes (dns_name : string) (new_record_weights : dict Z)
    (r : Record_) : list change :=
  if matches dns_name r then
    match get (SetIdentifier r) new_record_weights with
    | Some w =>
        if w =? 0 then [mkChange DELETE r]
        else if Weight r =? w then []
        else [mkChange UPSERT (with_weight r w)]
    | None => []
    end
  else [].

Definition keeps_target (dns_name identifier : string)
    (new_record_weights : dict Z) (r : Record_) : bool :=
  matches dns_name r &&
  match get (SetIdentifier r) new_record_weights with
  | Some w => negb (w =? 0) && String.eqb identifier (SetIdentifier r)
  | None => false
  end.

(** The whole change list of [set_new_weights]. *)
Definition planned_changes (dns_name identifier lb_dns_name : string)
    (new_record_weights : dict Z) (rr : list Record_) : list change :=
  flat_map (record_changes dns_name new_record_weights) rr ++
  match get identifier new_record_weights with
  | Some w =>
      if (0 <? w) && negb (existsb (keeps_target dns_name identifier
                                      new_record_weights) rr)
      then [mkChange UPSERT
              (new_target_record dns_name identifier lb_dns_name w)]
      else []
  | None => []
  end.

(** [identifier_versions[k] == v] for a registered [k]. *)
Definition has_version (identifier_versions : dict string) (v : string)
    (k : string) : bool :=
  match get k identifier_versions with
  | Some v' => String.eqb v' v
  | None => false
  end.

(** [a] is not an older version than [b]. *)
Definition not_older (identifier_versions : dict string) (a b : string) : Prop :=
  forall va vb, get a identifier_versions = Some va ->
                get b identifier_versions = Some vb ->
                String.ltb va vb = false.

(** The changes of a submitted batch (none when no call is made). *)
Definition changes_of (b : option (list change)) : list change :=
  match b with
  | Some changes => changes
  | None => []
  end.

Definition is_warning (m : message) : bool :=
  match m with
  | WarningChangingPercentage _ _ => true
  | _ => false
  end.

(** What the command line and the AWS glue guarantee: the percentage is
    clamped to [[0, 100]], the target is a registered version, every weighted
    record belongs to a registered version, and there is one record per
    identifier. *)
Definition valid_invocation (identifier_versions : dict string)
    (dns_name identifier : string) (rr : list Record_) (p : Q) : Prop :=
  (0 <= p)%Q /\ (p <= 100)%Q /\
  In identifier (keys identifier_versions) /\
  registry_total identifier_versions dns_name rr /\
  unique_identifiers dns_name rr.

(* ------------------------------------------------------------------------- *)
(** ** The record-set sink *)

(** Route 53 identifies a resource record set by name, type and set
    identifier. *)
Definition same_record_set (r r' : Record_) : bool :=
  String.eqb (Name r) (Name r') && String.eqb (Type_ r) (Type_ r')
  && String.eqb (SetIdentifier r) (SetIdentifier r').

(** Modelled from the spec: the record-set sink, an external collaborator
    (Route 53's [change_resource_record_sets]) which "applies a batch of
    inserts/updates/deletes to the record-set source".  [UPSERT] replaces the
    record set with the same identity or creates it, [DELETE] removes it; the
    changes of a batch are applied in order. *)
Definition apply_change (rs : list Record_) (c : change) : list Record_ :=
  match Action c with
  | UPSERT =>
      if existsb (same_record_set (ResourceRecordSet c)) rs
      then map (fun r => if same_record_set (ResourceRecordSet c) r
                         then ResourceRecordSet c else r) rs
      else rs ++ [ResourceRecordSet c]
  | DELETE =>
      filter (fun r => negb (same_record_set (ResourceRecordSet c) r)) rs
  end.

Definition apply_batch (rs : list Record_) (b : option (list change))
    : list Record_ :=
  match b with
  | Some changes => fold_left apply_change changes rs
  | None => rs
  end.

(** A record that [set_new_weights] leaves alone: if it is a weighted record
    of [dns_name], its weight is the non-zero final weight of its
    identifier. *)
Definition in_sync (dns_name : string) (new_record_weights : dict Z)
    (r : Record_) : Prop :=
  matches dns_name r = true ->
  exists w, get (SetIdentifier r) new_record_weights = Some w /\
            w <> 0 /\ Weight r = w.

(* ------------------------------------------------------------------------- *)
(** ** Example inputs *)

Definition rec_ (sid : string) (w : Z) : Record_ :=
  mkRecord "CNAME" "app.example.org." sid w 20 ["lb"%string].

Definition versions4 : dict string :=
  [("app-1", "1"); ("app-2", "2"); ("app-3", "3"); ("app-4", "4")]%string.

Definition weights3 : dict Z :=
  [("app-1", 100); ("app-2", 50); ("app-3", 50)]%string.

Definition run4 (target : string) (rr : list Record_) (percentage : Q)
    : result traffic_change :=
  change_version_traffic versions4 "app.example.org." target "lb" rr percentage.

(* ------------------------------------------------------------------------- *)
(** ** Stack versions and the target of [change_version_traffic]

    [StackVersion], [get_version] and the lines of [change_version_traffic]
    between the listing of the stack versions and the calls to Route 53.  The
    version tag and the names are strings; [domain] and [lb_dns_name] are
    [None] for a stack without the resource. *)

From Stdlib Require Import Ascii.

Module Stack.

Record StackVersion : Type := mkStackVersion {
  name : string;
  version : string;
  domain : option string;
  lb_dns_name : option string
}.

(** ['{}-{}'.format(self.name, self.version)] *)
Definition identifier (v : StackVersion) : string :=
  (name v ++ "-" ++ version v)%string.

(** [self.domain + '.'] on a stack version that has a domain. *)
Definition dns_name (d : string) : string := (d ++ ".")%string.

Inductive error : Type :=
| VersionNotFound (version : string)
    (* click.UsageError('Stack version {} not found') *)
| NoDomain (name version : string)
    (* click.UsageError('Stack {} version {} has no domain') *)
| IndexError.
    (* [version.domain.split('.', 1)[1]] on a domain without a dot *)

(** [get_version]: the first stack version with the given version tag. *)
Fixpoint get_version (versions : list StackVersion) (v : string)
    : error + StackVersion :=
  match versions with
  | [] => inl (VersionNotFound v)
  | ver :: rest =>
      if String.eqb (version ver) v then inr ver else get_version rest v
  end.

(** [s.split('.', 1)[1]]: what follows the first dot, if there is one. *)
Fixpoint after_first_dot (s : string) : option string :=
  match s with
  | EmptyString => None
  | String c s' =>
      if Ascii.eqb c "."%char then Some s' else after_first_dot s'
  end.

(** [collections.OrderedDict((version.identifier, version.version)
                             for version in versions)] *)
Definition identifier_versions (versions : list StackVersion) : dict string :=
  fold_left (fun d v => set (identifier v) (version v) d) versions empty.

(** The values [change_version_traffic] derives from the stack versions
    before it talks to Route 53: the registry, the selected version, its
    identifier and record name, and the zone to look the records up in. *)
Record target : Type := mkTarget {
  registry : dict string;
  selected : StackVersion;
  target_identifier : string;
  target_dns_name : string;
  zone_domain : string
}.

Definition select_target (versions : list StackVersion) (stack_version : string)
    : error + target :=
  let identifier_versions := identifier_versions versions in
  match get_version versions stack_version with
  | inl e => inl e
  | inr ver =>
      let identifier := identifier ver in
      match domain ver with
      | None => inl (NoDomain (name ver) (version ver))
      | Some d =>
          if String.eqb d EmptyString then inl (NoDomain (name ver) (version ver))
          else
            match after_first_dot d with
            | None => inl IndexError
            | Some zone =>
                inr (mkTarget identifier_versions ver identifier (dns_name d)
                              zone)
            end
      end
  end.

End Stack.

(* ------------------------------------------------------------------------- *)
(** ** [dump_traffic_changes]

    The table handed to [print_table]: the rows, sorted.  A cell that Python
    sets to [None] is [None]; the [current] cell, ['<'] or absent, is a
    boolean. *)

Module Report.

Inductive error : Type :=
| KeyError (key : string)   (* [deltas[i]] *)
| ValueError                (* [max()] of no values *)
| TypeError.                (* [None /= PERCENT_RESOLUTION] *)

Record row : Type := mkRow {
  stack_name : string;
  version : option string;
  identifier : string;
  old_weight : Q;
  delta : option Q;
  compensation : option Q;
  new_weight : Q;
  current : bool
}.

(** A row as the list comprehension builds it, before the cells are turned
    into percentages. *)
Record raw_row : Type := mkRaw {
  raw_version : option string;
  raw_identifier : string;
  raw_old : option Z;
  raw_delta : Z;
  raw_compensation : option Z;
  raw_new : option Z
}.

Fixpoint raw_rows (identifier_versions : dict string)
    (known_record_weights new_record_weights compensations deltas : dict Z)
    (ks : list string) : error + list raw_row :=
  match ks with
  | [] => inr []
  | i :: ks' =>
      match get i deltas with
      | None => inl (KeyError i)
      | Some d =>
          match raw_rows identifier_versions known_record_weights
                  new_record_weights compensations deltas ks' with
          | inl e => inl e
          | inr rest =>
              inr (mkRaw (get i identifier_versions) i
                         (get i known_record_weights) d (get i compensations)
                         (get i new_record_weights) :: rest)
          end
      end
  end.

(** [max(new_record_weights.values()) == FULL_PERCENTAGE] *)
Definition full_switch (new_record_weights : dict Z) : error + bool :=
  match values new_record_weights with
  | [] => inl ValueError
  | v :: vs => inr (fold_left Z.max vs v =? FULL_PERCENTAGE)
  end.

(** The truth value of a cell holding [None] or an integer. *)
Definition truthy (c : option Z) : bool :=
  match c with
  | Some c => negb (c =? 0)
  | None => false
  end.

(** The body of [for r in rows]. *)
Definition finish_row (stack_name target : string) (full_switch : bool)
    (r : raw_row) : error + row :=
  let d := raw_delta r in
  let c := raw_compensation r in
  let d :=
    if full_switch && (d =? 0) && truthy c
    then match c with Some c => - c | None => d end
    else d in
  let delta := if d =? 0 then None else Some (as_percent d) in
  match raw_old r with
  | None => inl TypeError
  | Some old =>
      match raw_new r with
      | None => inl TypeError
      | Some new =>
          let compensation :=
            match c with
            | Some c' => if truthy c then Some (as_percent c') else None
            | None => None
            end in
          inr (mkRow stack_name (raw_version r) (raw_identifier r)
                     (as_percent old) delta compensation (as_percent new)
                     (String.eqb target (raw_identifier r)))
      end
  end.

Fixpoint finish_rows (stack_name target : string) (full_switch : bool)
    (rs : list raw_row) : error + list row :=
  match rs with
  | [] => inr []
  | r :: rs' =>
      match finish_row stack_name target full_switch r with
      | inl e => inl e
      | inr r' =>
          match finish_rows stack_name target full_switch rs' with
          | inl e => inl e
          | inr rest => inr (r' :: rest)
          end
      end
  end.

(** [identifier_versions.get(x['identifier'], '')] *)
Definition sort_key (identifier_versions : dict string) (r : row) : string :=
  match get (identifier r) identifier_versions with
  | Some v => v
  | None => EmptyString
  end.

(** [sorted(rows, key=...)]: ascending, rows with equal keys in their
    order. *)
Fixpoint insert_asc (identifier_versions : dict string) (x : row)
    (l : list row) : list row :=
  match l with
  | [] => [x]
  | y :: l' =>
      if String.ltb (sort_key identifier_versions y)
                    (sort_key identifier_versions x)
      then y :: insert_asc identifier_versions x l'
      else x :: l
  end.

Definition sort_asc (identifier_versions : dict string) (l : list row)
    : list row :=
  fold_right (insert_asc identifier_versions) [] l.

Definition dump_traffic_changes (stack_name target : string)
    (identifier_versions : dict string)
    (known_record_weights new_record_weights compensations deltas : dict Z)
    : error + list row :=
  match raw_rows identifier_versions known_record_weights new_record_weights
          compensations deltas (keys known_record_weights) with
  | inl e => inl e
  | inr rows =>
      match full_switch new_record_weights with
      | inl e => inl e
      | inr fs =>
          match finish_rows stack_name target fs rows with
          | inl e => inl e
          | inr rows => inr (sort_asc identifier_versions rows)
          end
      end
  end.

(** The sum of a column of percentages. *)
Definition total (column : row -> Q) (rows : list row) : Q :=
  fold_right (fun r acc => (column r + acc)%Q) 0%Q rows.

End Report.

Definition stack_versions3 : list Stack.StackVersion :=
  [Stack.mkStackVersion "app" "1" (Some "app.example.org"%string)
     (Some "lb-1"%string);
   Stack.mkStackVersion "app" "2" (Some "app.example.org"%string)
     (Some "lb-2"%string);
   Stack.mkStackVersion "app" "3" None None].

(** New weights and deltas of moving 50% to [app-3] from [weights3]. *)
Definition new_weights3 : dict Z :=
  [("app-1", 0); ("app-2", 50); ("app-3", 150)]%string.

Definition deltas3 : dict Z :=
  [("app-1", -100); ("app-2", 0); ("app-3", 100)]%string.

(* ========================================================================= *)
(** * Properties *)

(* ------------------------------------------------------------------------- *)
(** ** Dictionaries *)

Section DictFacts.

Context {V : Type}.
Implicit Types (d : dict V) (k : string) (v : V).

Lemma get_in_keys k d : get k d <> None <-> In k (keys d).
Proof.
  induction d as [|[k' v'] d IH]; simpl.
  - split; [congruence | tauto].
  - destruct (String.eqb_spec k k') as [->|Hne].
    + split; [auto | congruence].
    + rewrite IH. split; [auto | intros [Heq|H]; [congruence | exact H]].
Qed.

Lemma get_none_keys k d : get k d = None <-> ~ In k (keys d).
Proof.
  rewrite <- get_in_keys. destruct (get k d) as [v|].
  - split; [discriminate | intros H; exfalso; apply H; discriminate].
  - split; [intros _ H; now apply H | reflexivity].
Qed.

Lemma in_keys_get k d : In k (keys d) -> exists v, get k d = Some v.
Proof.
  intros H. apply get_in_keys in H. destruct (get k d) as [v|]; [eauto | congruence].
Qed.

Lemma get_keys k d v : get k d = Some v -> In k (keys d).
Proof. intros H. apply get_in_keys. congruence. Qed.

Lemma mem_true k d : mem k d = true <-> In k (keys d).
Proof.
  unfold mem. rewrite <- get_in_keys.
  destruct (get k d); split; congruence.
Qed.

Lemma get_in k d v : get k d = Some v -> In (k, v) d.
Proof.
  induction d as [|[k' v'] d IH]; simpl; [congruence|].
  destruct (String.eqb_spec k k') as [->|Hne].
  - intros [= ->]. now left.
  - intros H. right. auto.
Qed.

Lemma in_get_nodup k d v : NoDup (keys d) -> In (k, v) d -> get k d = Some v.
Proof.
  induction d as [|[k' v'] d IH]; simpl; [tauto|].
  intros Hnd [Heq|Hin]; inversion Hnd as [|? ? Hni Hnd']; subst.
  - injection Heq as -> ->. now rewrite String.eqb_refl.
  - destruct (String.eqb_spec k k') as [->|Hne]; [|auto].
    exfalso. apply Hni. apply (in_map fst) in Hin. exact Hin.
Qed.

Lemma get_set_same k v d : get k (set k v d) = Some v.
Proof.
  induction d as [|[k' v'] d IH]; simpl.
  - now rewrite String.eqb_refl.
  - destruct (String.eqb_spec k k') as [->|Hne]; simpl.
    + now rewrite String.eqb_refl.
    + destruct (String.eqb_spec k k'); [contradiction | exact IH].
Qed.

Lemma get_set_other k k' v d : k <> k' -> get k' (set k v d) = get k' d.
Proof.
  intros Hne. induction d as [|[k0 v0] d IH]; simpl.
  - destruct (String.eqb_spec k' k); [congruence | reflexivity].
  - destruct (String.eqb_spec k k0) as [->|Hne0]; simpl.
    + destruct (String.eqb_spec k' k0); [congruence | reflexivity].
    + now rewrite IH.
Qed.

Lemma set_present k v d : In k (keys d) -> keys (set k v d) = keys d.
Proof.
  induction d as [|[k0 v0] d IH]; simpl; [tauto|].
  destruct (String.eqb_spec k k0) as [->|Hne]; simpl; [reflexivity|].
  intros [Heq|Hin]; [congruence|]. now rewrite IH.
Qed.

Lemma set_absent k v d : ~ In k (keys d) -> set k v d = d ++ [(k, v)].
Proof.
  induction d as [|[k0 v0] d IH]; simpl; [reflexivity|].
  intros Hni. destruct (String.eqb_spec k k0) as [->|Hne]; [tauto|].
  rewrite IH; tauto.
Qed.

Lemma keys_app d d' : keys (d ++ d') = keys d ++ keys d'.
Proof. apply map_app. Qed.

Lemma in_keys_set k k' v d :
  In k' (keys (set k v d)) <-> k' = k \/ In k' (keys d).
Proof.
  destruct (in_dec string_dec k (keys d)) as [Hin|Hni].
  - rewrite set_present by exact Hin. split; [auto | intros [->|H]; auto].
  - rewrite set_absent by exact Hni. rewrite keys_app, in_app_iff. simpl.
    split; [intros [H|[H|[]]]; auto | intros [->|H]; auto].
Qed.

Lemma nodup_keys_set k v d : NoDup (keys d) -> NoDup (keys (set k v d)).
Proof.
  intros Hnd. destruct (in_dec string_dec k (keys d)) as [Hin|Hni].
  - now rewrite set_present.
  - rewrite set_absent, keys_app by exact Hni. simpl.
    apply NoDup_app; [exact Hnd | constructor; [simpl; tauto | constructor] |].
    intros x Hx [<-|[]]. contradiction.
Qed.

End DictFacts.

Lemma sum_values_app (d d' : dict Z) :
  sum_values (d ++ d') = sum_values d + sum_values d'.
Proof.
  unfold sum_values, values. induction d as [|[k v] d IH]; simpl; [reflexivity|].
  rewrite IH. lia.
Qed.

Lemma sum_values_set (k : string) (v w : Z) (d : dict Z) :
  get k d = Some w -> sum_values (set k v d) = sum_values d - w + v.
Proof.
  unfold sum_values, values.
  induction d as [|[k0 v0] d IH]; simpl; [congruence|].
  destruct (String.eqb_spec k k0) as [->|Hne]; simpl.
  - intros [= ->]. lia.
  - intros H. rewrite (IH H). lia.
Qed.

Lemma sum_values_nonneg (d : dict Z) :
  (forall k v, In (k, v) d -> 0 <= v) -> 0 <= sum_values d.
Proof.
  unfold sum_values, values.
  induction d as [|[k v] d IH]; simpl; intros H; [lia|].
  assert (0 <= v) by (apply (H k); now left).
  assert (0 <= fold_right Z.add 0 (map snd d)) by (apply IH; intros; eapply H; right; eauto).
  lia.
Qed.

Lemma sum_values_pos (d : dict Z) (k : string) (v : Z) :
  (forall k v, In (k, v) d -> 0 <= v) -> In (k, v) d -> v <= sum_values d.
Proof.
  unfold sum_values, values.
  induction d as [|[k0 v0] d IH]; simpl; intros H Hin; [tauto|].
  assert (0 <= v0) by (apply (H k0); now left).
  assert (Hrest : 0 <= sum_values d)
    by (apply sum_values_nonneg; intros; eapply H; right; eauto).
  unfold sum_values, values in Hrest.
  destruct Hin as [[= -> ->]|Hin]; [lia|].
  assert (v <= fold_right Z.add 0 (map snd d))
    by (apply IH; [intros; eapply H; right; eauto | exact Hin]).
  lia.
Qed.

(* ------------------------------------------------------------------------- *)
(** ** Loops *)

Lemma fold_left_invariant {A B : Type} (f : A -> B -> A) (P : A -> Prop)
    (l : list B) (a : A) :
  P a -> (forall a b, In b l -> P a -> P (f a b)) -> P (fold_left f l a).
Proof.
  revert a. induction l as [|b l IH]; simpl; intros a Ha Hstep; [exact Ha|].
  apply IH; [apply Hstep; auto | intros; apply Hstep; auto].
Qed.

(* ------------------------------------------------------------------------- *)
(** ** [get_weights] *)

Lemma zero_extension_refl d : zero_extension d d.
Proof. exists []. now rewrite app_nil_r. Qed.

Lemma zero_extension_trans d1 d2 d3 :
  zero_extension d1 d2 -> zero_extension d2 d3 -> zero_extension d1 d3.
Proof.
  intros (z & -> & Hz) (z' & -> & Hz'). exists (z ++ z').
  rewrite app_assoc. split; [reflexivity | now apply Forall_app].
Qed.

Lemma set_default_zero_extension d i : zero_extension d (set_default_zero d i).
Proof.
  unfold set_default_zero. destruct (mem i d) eqn:Hm.
  - apply zero_extension_refl.
  - exists [(i, 0)]. split; [|repeat constructor].
    apply set_absent. rewrite <- mem_true. congruence.
Qed.

Lemma set_default_zero_nodup d i :
  NoDup (keys d) -> NoDup (keys (set_default_zero d i)).
Proof.
  unfold set_default_zero. destruct (mem i d); [auto | apply nodup_keys_set].
Qed.

Lemma set_default_zero_in d i : In i (keys (set_default_zero d i)).
Proof.
  unfold set_default_zero. destruct (mem i d) eqn:Hm.
  - now apply mem_true.
  - apply in_keys_set. now left.
Qed.

Lemma zero_extension_keys d d' k :
  zero_extension d d' -> In k (keys d) -> In k (keys d').
Proof.
  intros (z & -> & _) H. rewrite keys_app. apply in_or_app. now left.
Qed.

Lemma get_app_l {V : Type} (k : string) (d d' : dict V) :
  In k (keys d) -> get k (d ++ d') = get k d.
Proof.
  induction d as [|[k0 v0] d IH]; simpl; [tauto|].
  destruct (String.eqb_spec k k0); [reflexivity|].
  intros [Heq|Hin]; [congruence | auto].
Qed.

Lemma get_app_r {V : Type} (k : string) (d d' : dict V) :
  ~ In k (keys d) -> get k (d ++ d') = get k d'.
Proof.
  induction d as [|[k0 v0] d IH]; simpl; [reflexivity|].
  destruct (String.eqb_spec k k0) as [->|Hne]; [tauto|].
  intros H. apply IH. tauto.
Qed.

Lemma get_zeros k z v :
  Forall (fun item : string * Z => snd item = 0) z -> get k z = Some v -> v = 0.
Proof.
  intros Hz Hg. apply get_in in Hg. rewrite Forall_forall in Hz.
  apply (Hz _ Hg).
Qed.

(** A zero extension keeps every old entry and adds only zero weights. *)
Lemma zero_extension_get d d' k v :
  zero_extension d d' -> get k d' = Some v ->
  get k d = Some v \/ (~ In k (keys d) /\ v = 0).
Proof.
  intros (z & -> & Hz) Hg.
  destruct (in_dec string_dec k (keys d)) as [Hin|Hni].
  - left. now rewrite get_app_l in Hg.
  - right. rewrite get_app_r in Hg by exact Hni.
    split; [exact Hni | eapply get_zeros; eauto].
Qed.

Lemma partial_items_zeros identifier z :
  Forall (fun item : string * Z => snd item = 0) z ->
  partial_items identifier z = [].
Proof.
  induction 1 as [|[k v] z Hv _ IH]; simpl; [reflexivity|].
  simpl in Hv. subst v. unfold is_partial. simpl.
  rewrite andb_false_r. exact IH.
Qed.

Lemma zero_extension_partial identifier d d' :
  zero_extension d d' ->
  partial_items identifier d' = partial_items identifier d.
Proof.
  intros (z & -> & Hz). unfold partial_items at 1. rewrite filter_app.
  fold (partial_items identifier z). rewrite (partial_items_zeros _ _ Hz).
  apply app_nil_r.
Qed.

Lemma truthy_weight w : (if w =? 0 then 0 else w) = w.
Proof. destruct (Z.eqb_spec w 0); congruence. Qed.

Lemma get_weights_unfold dns_name identifier rr all_identifiers :
  get_weights dns_name identifier rr all_identifiers =
  (fold_left set_default_zero all_identifiers
     (set_default_zero (fst (fst (scanned dns_name identifier rr))) identifier),
   snd (fst (scanned dns_name identifier rr)),
   snd (scanned dns_name identifier rr)).
Proof.
  unfold get_weights, scanned.
  destruct (fold_left _ rr _) as [[d c] s]. reflexivity.
Qed.

Lemma defaults_zero_extension all_identifiers d :
  zero_extension d (fold_left set_default_zero all_identifiers d).
Proof.
  apply (fold_left_invariant _ (zero_extension d));
    [apply zero_extension_refl|].
  intros a b _ Ha. eapply zero_extension_trans; [exact Ha|].
  apply set_default_zero_extension.
Qed.

Lemma defaults_nodup all_identifiers d :
  NoDup (keys d) -> NoDup (keys (fold_left set_default_zero all_identifiers d)).
Proof.
  intros H. apply (fold_left_invariant _ (fun a => NoDup (keys a))); [exact H|].
  intros a b _. apply set_default_zero_nodup.
Qed.

Lemma defaults_cover all_identifiers d i :
  In i all_identifiers ->
  In i (keys (fold_left set_default_zero all_identifiers d)).
Proof.
  revert d. induction all_identifiers as [|j l IH]; simpl; [tauto|].
  intros d [->|Hin]; [|auto].
  eapply zero_extension_keys; [apply defaults_zero_extension|].
  apply set_default_zero_in.
Qed.

Lemma get_weights_step_eq dns_name identifier d c s r :
  get_weights_step dns_name identifier (d, c, s) r =
  if matches dns_name r then
    (set (SetIdentifier r) (Weight r) d,
     c + Z.of_nat (List.length (partial_items identifier [(SetIdentifier r, Weight r)])),
     s + sum_values (partial_items identifier [(SetIdentifier r, Weight r)]))
  else (d, c, s).
Proof.
  unfold get_weights_step. destruct (matches dns_name r); [|reflexivity].
  rewrite truthy_weight. unfold partial_items, is_partial. simpl.
  destruct (negb _ && _); simpl; f_equal; try f_equal; unfold sum_values; simpl; lia.
Qed.

Lemma scan_keys_monotone dns_name identifier rr st k :
  In k (keys (fst (fst st))) ->
  In k (keys (fst (fst (fold_left (get_weights_step dns_name identifier) rr st)))).
Proof.
  intros H0.
  apply (fold_left_invariant _ (fun st => In k (keys (fst (fst st)))));
    [exact H0|].
  intros [[d c] s] r _ H.
  rewrite get_weights_step_eq. destruct (matches dns_name r); [|exact H].
  simpl. apply in_keys_set. now right.
Qed.

Lemma scan_covers dns_name identifier rr st r :
  In r (weighted dns_name rr) ->
  In (SetIdentifier r)
     (keys (fst (fst (fold_left (get_weights_step dns_name identifier) rr st)))).
Proof.
  unfold weighted. revert st. induction rr as [|r0 rr IH]; simpl; [tauto|].
  intros [[d c] s]. destruct (matches dns_name r0) eqn:Hm.
  - intros [->|Hin]; [|auto].
    apply scan_keys_monotone. rewrite get_weights_step_eq, Hm. simpl.
    apply in_keys_set. now left.
  - auto.
Qed.

Lemma scan_nodup dns_name identifier rr :
  NoDup (keys (fst (fst (scanned dns_name identifier rr)))).
Proof.
  unfold scanned.
  apply (fold_left_invariant _ (fun st => NoDup (keys (fst (fst st)))));
    [constructor|].
  intros [[d c] s] r _ H. rewrite get_weights_step_eq.
  destruct (matches dns_name r); [|exact H]. simpl. now apply nodup_keys_set.
Qed.

(** Whatever the records, a positive weight stored for another identifier has
    been counted. *)
Lemma scan_counts_positive dns_name identifier rr :
  let '(d, c, _) := scanned dns_name identifier rr in
  0 <= c /\
  forall i w, get i d = Some w -> i <> identifier -> 0 < w -> 0 < c.
Proof.
  unfold scanned.
  apply (fold_left_invariant _
    (fun st => let '(d, c, _) := st in
       0 <= c /\ forall i w, get i d = Some w -> i <> identifier -> 0 < w -> 0 < c)).
  - split; [lia | simpl; congruence].
  - intros [[d c] s] r _ [Hc H]. rewrite get_weights_step_eq.
    destruct (matches dns_name r); [|auto].
    unfold partial_items, is_partial; simpl.
    split.
    + destruct (negb _ && _); simpl; lia.
    + intros i w Hg Hi Hw.
      destruct (string_dec (SetIdentifier r) i) as [Heq|Hne].
      * subst i. rewrite get_set_same in Hg. injection Hg as ->.
        destruct (String.eqb_spec (SetIdentifier r) identifier); [contradiction|].
        simpl. destruct (Z.ltb_spec 0 w); simpl; lia.
      * rewrite get_set_other in Hg by exact Hne.
        specialize (H i w Hg Hi Hw).
        destruct (negb _ && _); simpl; lia.
Qed.

(** With one record per identifier the scan is a plain projection of the
    weighted records, and the counters describe its partial population. *)
Lemma scan_unique_gen dns_name identifier rr d c s :
  NoDup (keys d ++ map SetIdentifier (weighted dns_name rr)) ->
  fold_left (get_weights_step dns_name identifier) rr (d, c, s) =
  let d' := map (fun r => (SetIdentifier r, Weight r)) (weighted dns_name rr) in
  (d ++ d', c + Z.of_nat (List.length (partial_items identifier d')),
   s + sum_values (partial_items identifier d')).
Proof.
  unfold weighted. revert d c s. induction rr as [|r rr IH]; intros d c s Hnd.
  - simpl. rewrite app_nil_r. f_equal; [f_equal|]; unfold sum_values; simpl; lia.
  - cbn [fold_left filter] in *. rewrite get_weights_step_eq.
    destruct (matches dns_name r) eqn:Hm; [|apply IH; exact Hnd].
    cbn [map] in Hnd. assert (Hni : ~ In (SetIdentifier r) (keys d)).
    { intros Hin. apply NoDup_remove_2 in Hnd. apply Hnd.
      apply in_or_app. now left. }
    rewrite set_absent by exact Hni.
    rewrite IH.
    + cbn [map]. rewrite <- app_assoc. cbn [app].
      unfold partial_items. cbn [filter].
      destruct (is_partial identifier (SetIdentifier r, Weight r));
        cbn [List.length filter]; (f_equal; [f_equal|]);
        unfold sum_values, values; cbn [map fold_right snd]; lia.
    + rewrite keys_app. simpl. rewrite <- app_assoc. exact Hnd.
Qed.

Lemma get_weights_facts dns_name identifier rr all_identifiers d c s :
  get_weights dns_name identifier rr all_identifiers = (d, c, s) ->
  NoDup (keys d) /\ In identifier (keys d) /\
  (forall i, In i all_identifiers -> In i (keys d)) /\
  (forall r, In r (weighted dns_name rr) -> In (SetIdentifier r) (keys d)) /\
  0 <= c /\
  (forall i w, get i d = Some w -> i <> identifier -> 0 < w -> 0 < c).
Proof.
  rewrite get_weights_unfold. intros [= <- <- <-].
  pose proof (scan_nodup dns_name identifier rr) as Hnd.
  pose proof (scan_counts_positive dns_name identifier rr) as Hpos.
  pose proof (fun r => scan_covers dns_name identifier rr (empty, 0, 0) r) as Hcov.
  fold (scanned dns_name identifier rr) in Hcov.
  destruct (scanned dns_name identifier rr) as [[d0 c0] s0]. simpl in *.
  destruct Hpos as [Hc Hpos].
  pose proof (defaults_zero_extension all_identifiers
                (set_default_zero d0 identifier)) as Hext2.
  pose proof (set_default_zero_extension d0 identifier) as Hext1.
  pose proof (zero_extension_trans _ _ _ Hext1 Hext2) as Hext.
  repeat split.
  - now apply defaults_nodup, set_default_zero_nodup.
  - eapply zero_extension_keys; [exact Hext2 | apply set_default_zero_in].
  - intros i Hi. now apply defaults_cover.
  - intros r Hr. eapply zero_extension_keys; [exact Hext | auto].
  - exact Hc.
  - intros i w Hg Hi Hw.
    destruct (zero_extension_get _ _ _ _ Hext Hg) as [Hg0|[_ ->]]; [eauto | lia].
Qed.

Lemma get_weights_partial dns_name identifier rr all_identifiers d c s :
  unique_identifiers dns_name rr ->
  get_weights dns_name identifier rr all_identifiers = (d, c, s) ->
  c = Z.of_nat (List.length (partial_items identifier d)) /\
  s = sum_values (partial_items identifier d).
Proof.
  intros Hu. rewrite get_weights_unfold. unfold scanned.
  rewrite scan_unique_gen by exact Hu. cbn [fst snd empty app].
  intros [= <- <- <-].
  rewrite (zero_extension_partial identifier _ _
             (zero_extension_trans _ _ _
                (set_default_zero_extension _ identifier)
                (defaults_zero_extension all_identifiers _))).
  split; lia.
Qed.

(* ------------------------------------------------------------------------- *)
(** ** [calculate_new_weights] *)

Lemma calculate_fold delta identifier percentage l a b :
  NoDup (keys a ++ keys l) -> NoDup (keys b ++ keys l) ->
  fold_left (calculate_step delta identifier percentage) l (a, b) =
  (a ++ map (fun item => (fst item,
               new_weight delta identifier percentage (fst item) (snd item))) l,
   b ++ map (fun item => (fst item,
               new_weight delta identifier percentage (fst item) (snd item)
               - snd item)) l).
Proof.
  revert a b. induction l as [|[i w] l IH]; intros a b Ha Hb.
  - simpl. now rewrite !app_nil_r.
  - cbn [fold_left calculate_step keys map fst snd] in *.
    rewrite !set_absent.
    + rewrite IH.
      * now rewrite <- !app_assoc.
      * rewrite keys_app, <- app_assoc. exact Ha.
      * rewrite keys_app, <- app_assoc. exact Hb.
    + intros Hin. apply NoDup_remove_2 in Hb. apply Hb, in_or_app. now left.
    + intros Hin. apply NoDup_remove_2 in Ha. apply Ha, in_or_app. now left.
Qed.

(** On a dictionary (distinct keys) the allocator maps every item to its new
    weight and to its delta, in place. *)
Lemma calculate_new_weights_map delta identifier d percentage :
  NoDup (keys d) ->
  calculate_new_weights delta identifier d percentage =
  (map (fun item => (fst item,
          new_weight delta identifier percentage (fst item) (snd item))) d,
   map (fun item => (fst item,
          new_weight delta identifier percentage (fst item) (snd item)
          - snd item)) d).
Proof.
  intros Hnd. unfold calculate_new_weights. now rewrite calculate_fold.
Qed.

Lemma keys_map_values {V W : Type} (f : string * V -> W) (d : dict V) :
  keys (map (fun item => (fst item, f item)) d) = keys d.
Proof. unfold keys. rewrite map_map. reflexivity. Qed.

Lemma get_map_values {V W : Type} (f : string * V -> W) (d : dict V) k :
  get k (map (fun item => (fst item, f item)) d) =
  match get k d with
  | Some v => Some (f (k, v))
  | None => None
  end.
Proof.
  induction d as [|[k0 v0] d IH]; simpl; [reflexivity|].
  destruct (String.eqb_spec k k0) as [->|Hne]; [reflexivity | exact IH].
Qed.

Lemma new_weight_nonneg delta identifier percentage i w :
  0 <= percentage -> 0 <= new_weight delta identifier percentage i w.
Proof.
  intros Hp. unfold new_weight.
  destruct (String.eqb i identifier); [exact Hp|].
  destruct (percentage =? FULL_PERCENTAGE); [lia|].
  destruct (0 <? w); lia.
Qed.

Lemma new_weight_target delta identifier percentage w :
  new_weight delta identifier percentage identifier w = percentage.
Proof. unfold new_weight. now rewrite String.eqb_refl. Qed.

Lemma new_weight_other_full delta identifier i w :
  i <> identifier -> new_weight delta identifier FULL_PERCENTAGE i w = 0.
Proof.
  intros Hne. unfold new_weight.
  destruct (String.eqb_spec i identifier); [contradiction|].
  now rewrite Z.eqb_refl.
Qed.

Lemma new_weight_other_partial delta identifier percentage i w :
  i <> identifier -> percentage <> FULL_PERCENTAGE -> 0 < w ->
  new_weight delta identifier percentage i w = Z.max 1 (w + delta).
Proof.
  intros Hne Hp Hw. unfold new_weight.
  destruct (String.eqb_spec i identifier); [contradiction|].
  destruct (Z.eqb_spec percentage FULL_PERCENTAGE); [contradiction|].
  destruct (Z.ltb_spec 0 w); [reflexivity | lia].
Qed.

Lemma new_weight_other_zero delta identifier percentage i w :
  i <> identifier -> w <= 0 ->
  new_weight delta identifier percentage i w = 0.
Proof.
  intros Hne Hw. unfold new_weight.
  destruct (String.eqb_spec i identifier); [contradiction|].
  destruct (percentage =? FULL_PERCENTAGE); [reflexivity|].
  destruct (Z.ltb_spec 0 w); [lia | reflexivity].
Qed.

(** After a full cutover the weights add up to the target's. *)
Lemma sum_full_cutover delta identifier d :
  NoDup (keys d) -> In identifier (keys d) ->
  sum_values (map (fun item => (fst item,
     new_weight delta identifier FULL_PERCENTAGE (fst item) (snd item))) d)
  = FULL_PERCENTAGE.
Proof.
  assert (Hothers : forall d', ~ In identifier (keys d') ->
    sum_values (map (fun item => (fst item,
      new_weight delta identifier FULL_PERCENTAGE (fst item) (snd item))) d') = 0).
  { induction d' as [|[i w] d' IH]; [reflexivity|]. cbn [keys map fst snd].
    intros Hni. change (?x :: ?l) with ([x] ++ l). rewrite sum_values_app.
    rewrite IH by (intros H; apply Hni; now right).
    rewrite new_weight_other_full by (intros ->; apply Hni; now left).
    reflexivity. }
  induction d as [|[i w] d IH]; cbn [keys map fst snd]; [intros _ []|].
  intros Hnd Hin. inversion Hnd as [|? ? Hni Hnd']; subst.
  change (?x :: ?l) with ([x] ++ l). rewrite sum_values_app.
  destruct (string_dec i identifier) as [->|Hne].
  - rewrite new_weight_target, Hothers by exact Hni.
    unfold sum_values; simpl; lia.
  - destruct Hin as [Heq|Hin]; [contradiction|].
    rewrite new_weight_other_full by exact Hne.
    unfold keys in IH. rewrite IH by assumption. reflexivity.
Qed.

(** Short of a full cutover, a live version other than the target keeps the
    total positive. *)
Lemma sum_with_partial delta identifier percentage d i w :
  0 <= percentage -> percentage <> FULL_PERCENTAGE ->
  In (i, w) d -> i <> identifier -> 0 < w ->
  1 <= sum_values (map (fun item => (fst item,
         new_weight delta identifier percentage (fst item) (snd item))) d).
Proof.
  intros Hp Hnf Hin Hne Hw.
  set (f := fun item : string * Z => (fst item,
         new_weight delta identifier percentage (fst item) (snd item))).
  assert (Hin' : In (i, Z.max 1 (w + delta)) (map f d)).
  { apply in_map_iff. exists (i, w). split; [|exact Hin].
    unfold f. cbn [fst snd]. now rewrite new_weight_other_partial. }
  apply (sum_values_pos _ _ _) in Hin'; [lia|].
  intros k v Hkv. apply in_map_iff in Hkv. destruct Hkv as ([k0 v0] & [= <- <-] & _).
  now apply new_weight_nonneg.
Qed.

(* ------------------------------------------------------------------------- *)
(** ** Candidate order *)

Lemma with_versions_total identifier_versions ks :
  (forall k, In k ks -> In k (keys identifier_versions)) ->
  exists kvs, with_versions identifier_versions ks = inr kvs /\ map fst kvs = ks.
Proof.
  induction ks as [|k ks IH]; intros H; [now exists []|].
  destruct (in_keys_get k identifier_versions) as [v Hv]; [apply H; now left|].
  destruct IH as (kvs & Hkvs & Hfst); [intros; apply H; now right|].
  exists ((k, v) :: kvs). cbn [with_versions]. unfold lookup. rewrite Hv.
  cbn [ret bind]. rewrite Hkvs. cbn [bind]. split; [reflexivity|].
  simpl. now rewrite Hfst.
Qed.

Lemma in_insert_desc x y l : In y (insert_desc x l) <-> y = x \/ In y l.
Proof.
  induction l as [|z l IH]; simpl; [intuition auto|].
  destruct (String.ltb (snd x) (snd z)); simpl; [rewrite IH|]; intuition auto.
Qed.

Lemma in_sort_desc y l : In y (sort_desc l) <-> In y l.
Proof.
  induction l as [|x l IH]; simpl; [tauto|].
  rewrite in_insert_desc, IH. intuition auto.
Qed.

Lemma sorted_by_version_desc_total identifier_versions ks :
  (forall k, In k ks -> In k (keys identifier_versions)) ->
  exists order, sorted_by_version_desc identifier_versions ks = inr order /\
                (forall k, In k order <-> In k ks).
Proof.
  intros H. destruct (with_versions_total _ _ H) as (kvs & Hkvs & Hfst).
  exists (map fst (sort_desc kvs)). unfold sorted_by_version_desc.
  rewrite Hkvs. split; [reflexivity|].
  intros k. rewrite <- Hfst, !in_map_iff.
  split; intros (x & Hx & Hin); exists x; (split; [exact Hx|]);
    now apply in_sort_desc.
Qed.

(* ------------------------------------------------------------------------- *)
(** ** Truncation *)

Lemma int_of_Q_div (a : Z) (b : positive) :
  int_of_Q (inject_Z a / inject_Z (Zpos b))%Q = Z.quot a (Zpos b).
Proof.
  unfold int_of_Q, Qdiv, Qinv, Qmult, inject_Z. cbn [Qnum Qden].
  now rewrite Z.mul_1_r.
Qed.

Lemma compensate_part_quot (calculation_error partial_count : Z) :
  0 < partial_count ->
  compensate_part calculation_error partial_count =
  if 0 <? calculation_error
  then Z.max 1 (Z.quot calculation_error partial_count)
  else Z.min (-1) (Z.quot calculation_error partial_count).
Proof.
  intros Hpc. destruct partial_count as [|p|p]; try lia.
  unfold compensate_part, Qlt_bool, Qle_bool, Qmax, Qmin,
    GenericMinMax.gmax, GenericMinMax.gmin, Qcompare, Qdiv, Qinv, Qmult, inject_Z.
  cbn [Qnum Qden]. rewrite !Z.mul_1_r. cbn [Z.mul Pos.mul].
  destruct (Z.ltb_spec 0 calculation_error) as [He|He];
    destruct (Z.leb_spec calculation_error 0); try lia; cbn [negb].
  - destruct (Z.compare_spec (Zpos p) calculation_error) as [Heq|Hlt|Hgt];
      unfold int_of_Q; cbn [Qnum Qden].
    + subst. rewrite (Z.quot_same (Zpos p)) by lia. reflexivity.
    + assert (1 <= Z.quot calculation_error (Zpos p)).
      { rewrite Z.quot_div_nonneg by lia. apply Z.div_le_lower_bound; lia. }
      lia.
    + assert (Z.quot calculation_error (Zpos p) = 0)
        by (apply Z.quot_small; lia).
      change (Z.quot 1 1) with 1. lia.
  - destruct (Z.compare_spec (Zneg p) calculation_error) as [Heq|Hlt|Hgt];
      unfold int_of_Q; cbn [Qnum Qden].
    + subst. change (Z.quot (-1) 1) with (-1).
      replace (Z.quot (Zneg p) (Zpos p)) with (-1); [reflexivity|].
      change (Zneg p) with (- Zpos p). rewrite Z.quot_opp_l by lia.
      rewrite (Z.quot_same (Zpos p)) by lia. reflexivity.
    + change (Z.quot (-1) 1) with (-1).
      assert (Z.quot calculation_error (Zpos p) = 0).
      { replace calculation_error with (- (- calculation_error)) by lia.
        rewrite Z.quot_opp_l by lia. rewrite Z.quot_small; lia. }
      lia.
    + assert (Z.quot calculation_error (Zpos p) <= -1).
      { replace calculation_error with (- (- calculation_error)) by lia.
        rewrite Z.quot_opp_l by lia.
        assert (1 <= Z.quot (- calculation_error) (Zpos p)); [|lia].
        rewrite Z.quot_div_nonneg by lia. apply Z.div_le_lower_bound; lia. }
      lia.
Qed.

Lemma compensate_part_nonzero calculation_error partial_count :
  0 < partial_count -> compensate_part calculation_error partial_count <> 0.
Proof.
  intros H. rewrite compensate_part_quot by exact H.
  destruct (0 <? calculation_error); lia.
Qed.

Lemma percentage_units_floor (p : Q) :
  (0 <= p)%Q ->
  0 <= percentage_units p /\
  (inject_Z (percentage_units p) <= p * inject_Z PERCENT_RESOLUTION)%Q /\
  (p * inject_Z PERCENT_RESOLUTION < inject_Z (percentage_units p) + 1)%Q.
Proof.
  destruct p as [n d]. unfold Qle, Qlt, percentage_units, int_of_Q, Qmult, Qplus,
    inject_Z, PERCENT_RESOLUTION. cbn [Qnum Qden]. intros Hn.
  rewrite Pos.mul_1_r, !Z.mul_1_r in *. rewrite Z.mul_0_l in Hn.
  rewrite Z.quot_div_nonneg by lia.
  pose proof (Z.div_mod (n * 2) (Zpos d) ltac:(lia)) as Hdm.
  pose proof (Z.mod_pos_bound (n * 2) (Zpos d) ltac:(lia)) as Hmod.
  assert (0 <= n * 2 / Zpos d) by (apply Z.div_pos; lia).
  repeat split; nia.
Qed.

Lemma percentage_units_range (p : Q) :
  (0 <= p)%Q -> (p <= 100)%Q -> 0 <= percentage_units p <= FULL_PERCENTAGE.
Proof.
  intros H0 H100. destruct (percentage_units_floor p H0) as (Hlo & Hle & _).
  split; [exact Hlo|].
  destruct p as [n d]. revert H100 Hle.
  generalize (percentage_units (n # d)). intros u.
  unfold Qle, Qmult, inject_Z, FULL_PERCENTAGE, PERCENT_RESOLUTION.
  cbn [Qnum Qden]. rewrite Pos.mul_1_r, !Z.mul_1_r. intros. nia.
Qed.

(* ------------------------------------------------------------------------- *)
(** ** [compensate] *)

(** Hoare-style rule for the compensation loop: a property of the state that
    fixes the key set and survives every applied step holds when the loop
    ends, and the loop ends without [KeyError]. *)
Lemma compensate_loop_invariant part identifier (K : list string)
    (P : Z * dict Z * dict Z -> Prop) :
  (forall e w c, P (e, w, c) -> keys w = K) ->
  (forall e w c i x,
      P (e, w, c) -> i <> identifier -> get i w = Some x -> 0 < x + part ->
      P (e - part, set i (x + part) w, set i part c)) ->
  forall candidates st,
    incl candidates K -> P st ->
    exists st', compensate_loop part identifier candidates st = inr st' /\ P st'.
Proof.
  intros Hkeys Hstep. induction candidates as [|i rest IH]; intros [[e w] c] Hincl HP.
  - exists (e, w, c). split; [reflexivity | exact HP].
  - assert (Hrest : incl rest K) by (intros k Hk; apply Hincl; now right).
    cbn [compensate_loop].
    destruct (String.eqb_spec i identifier) as [->|Hne]; [now apply IH|].
    destruct (in_keys_get i w) as [x Hx].
    { rewrite (Hkeys _ _ _ HP). apply Hincl. now left. }
    unfold lookup. rewrite Hx. cbn [ret bind].
    destruct (Z.leb_spec (x + part) 0) as [Hle|Hgt]; [now apply IH|].
    pose proof (Hstep _ _ _ _ _ HP Hne Hx Hgt) as HP'.
    destruct (e - part =? 0); [eexists; split; [reflexivity | exact HP']|].
    now apply IH.
Qed.

Lemma compensate_loop_spec part identifier candidates e0 w0 c0 :
  incl candidates (keys w0) ->
  exists e w c,
    compensate_loop part identifier candidates (e0, w0, c0) = inr (e, w, c) /\
    keys w = keys w0 /\
    sum_values w + e = sum_values w0 + e0 /\
    get identifier w = get identifier w0 /\
    get identifier c = get identifier c0 /\
    (forall i, get i w = get i w0 \/ exists x, get i w = Some x /\ 0 < x) /\
    (forall i, get i c = get i c0 \/ get i c = Some part) /\
    (exists n, e = e0 - Z.of_nat n * part).
Proof.
  intros Hincl.
  set (P := fun st : Z * dict Z * dict Z =>
    let '(e, w, c) := st in
    keys w = keys w0 /\
    sum_values w + e = sum_values w0 + e0 /\
    get identifier w = get identifier w0 /\
    get identifier c = get identifier c0 /\
    (forall i, get i w = get i w0 \/ exists x, get i w = Some x /\ 0 < x) /\
    (forall i, get i c = get i c0 \/ get i c = Some part) /\
    (exists n, e = e0 - Z.of_nat n * part)).
  destruct (compensate_loop_invariant part identifier (keys w0) P)
    with (candidates := candidates) (st := (e0, w0, c0))
    as ([[e w] c] & Hrun & HP).
  - intros e w c HP. apply HP.
  - intros e w c i x (Hk & Hsum & Hidw & Hidc & Hfloor & Hcomp & n & Hn) Hne Hx Hpos.
    repeat split.
    + rewrite set_present; [exact Hk | eapply get_keys; eauto].
    + rewrite (sum_values_set _ _ _ _ Hx). lia.
    + now rewrite get_set_other.
    + now rewrite get_set_other.
    + intros j. destruct (string_dec i j) as [<-|Hij].
      * right. exists (x + part). now rewrite get_set_same.
      * rewrite get_set_other by exact Hij. apply Hfloor.
    + intros j. destruct (string_dec i j) as [<-|Hij].
      * right. apply get_set_same.
      * rewrite get_set_other by exact Hij. apply Hcomp.
    + exists (S n). lia.
  - exact Hincl.
  - repeat split; auto. exists 0%nat. lia.
  - exists e, w, c. split; [exact Hrun | exact HP].
Qed.

(** Whenever the loop returns, it has applied some number of steps of size
    [part], each recorded under the candidate that took it. *)
Lemma compensate_loop_steps part identifier candidates e0 w0 c0 e w c :
  compensate_loop part identifier candidates (e0, w0, c0) = inr (e, w, c) ->
  (exists n, e = e0 - Z.of_nat n * part) /\
  (forall i, get i c = get i c0 \/ get i c = Some part).
Proof.
  revert e0 w0 c0. induction candidates as [|i rest IH]; intros e0 w0 c0 Hrun;
    cbn [compensate_loop] in Hrun.
  - injection Hrun as <- <- <-. split; [exists 0%nat; lia | auto].
  - destruct (String.eqb i identifier); [exact (IH _ _ _ Hrun)|].
    unfold lookup in Hrun. destruct (get i w0) as [x|]; [|discriminate].
    cbn [bind ret] in Hrun.
    destruct (x + part <=? 0); [exact (IH _ _ _ Hrun)|].
    destruct (e0 - part =? 0).
    + injection Hrun as <- <- <-. split; [exists 1%nat; lia|].
      intros j. destruct (string_dec i j) as [<-|Hij].
      * right. apply get_set_same.
      * left. now apply get_set_other.
    + destruct (IH _ _ _ Hrun) as [[n Hn] Hc]. split; [exists (S n); lia|].
      intros j. destruct (Hc j) as [Hj|Hj]; [|now right].
      destruct (string_dec i j) as [<-|Hij].
      * right. rewrite Hj. apply get_set_same.
      * left. rewrite Hj. now apply get_set_other.
Qed.

(** [compensate] in terms of the state its loop ends in: with a residual error
    the target absorbs it, under a warning. *)
Lemma compensate_unfold e0 c0 identifier w0 partial_count percentage
    identifier_versions order e w c :
  partial_count <> 0 ->
  sorted_by_version_desc identifier_versions (keys w0) = inr order ->
  compensate_loop (compensate_part e0 partial_count) identifier order
    (e0, w0, c0) = inr (e, w, c) ->
  compensate e0 c0 identifier w0 partial_count percentage identifier_versions =
  if e =? 0 then inr (percentage, w, c, [])
  else inr (percentage + e, set identifier (percentage + e) w,
            set identifier e c,
            [WarningChangingPercentage (as_percent percentage)
                                       (as_percent (percentage + e))]).
Proof.
  intros Hpc Horder Hloop. unfold compensate.
  destruct (Z.eqb_spec partial_count 0); [contradiction|].
  cbn [negb assert bind ret]. rewrite Horder. cbn [bind]. rewrite Hloop.
  cbn [bind]. destruct (Z.eqb_spec e 0) as [->|He]; reflexivity.
Qed.

Lemma compensate_total e0 c0 identifier w0 partial_count percentage
    identifier_versions :
  partial_count <> 0 ->
  (forall k, In k (keys w0) -> In k (keys identifier_versions)) ->
  get identifier w0 = Some percentage ->
  exists percentage' w c printed,
    compensate e0 c0 identifier w0 partial_count percentage identifier_versions
      = inr (percentage', w, c, printed) /\
    keys w = keys w0 /\
    sum_values w = sum_values w0 + e0 /\
    get identifier w = Some percentage' /\
    (forall i, i <> identifier ->
       get i w = get i w0 \/ exists x, get i w = Some x /\ 0 < x) /\
    (forall i, i <> identifier ->
       get i c = get i c0 \/
       get i c = Some (compensate_part e0 partial_count)) /\
    ((percentage' = percentage /\ printed = [] /\
      get identifier c = get identifier c0) \/
     (percentage' <> percentage /\
      printed = [WarningChangingPercentage (as_percent percentage)
                                           (as_percent percentage')] /\
      get identifier c = Some (percentage' - percentage))).
Proof.
  intros Hpc Hreg Hid.
  destruct (sorted_by_version_desc_total _ _ Hreg) as (order & Horder & Hin).
  destruct (compensate_loop_spec (compensate_part e0 partial_count) identifier
              order e0 w0 c0)
    as (e & w & c & Hloop & Hk & Hsum & Hidw & Hidc & Hfloor & Hcomp & _).
  { intros k Hk. now apply Hin. }
  rewrite (compensate_unfold _ _ _ _ _ _ _ _ _ _ _ Hpc Horder Hloop).
  destruct (Z.eqb_spec e 0) as [->|He].
  - exists percentage, w, c, []. repeat split; auto.
    + lia.
    + congruence.
  - exists (percentage + e), (set identifier (percentage + e) w),
      (set identifier e c), [WarningChangingPercentage (as_percent percentage)
                               (as_percent (percentage + e))].
    rewrite Hid in Hidw. repeat split.
    + rewrite set_present; [exact Hk | eapply get_keys; eauto].
    + rewrite (sum_values_set _ _ _ _ Hidw). lia.
    + apply get_set_same.
    + intros i Hi. rewrite get_set_other by congruence. apply Hfloor.
    + intros i Hi. rewrite get_set_other by congruence. apply Hcomp.
    + right. repeat split; [lia|]. rewrite get_set_same. f_equal. lia.
Qed.

(* ------------------------------------------------------------------------- *)
(** ** The calculation branch of [change_version_traffic] *)

Lemma calculate_sole identifier_versions identifier d partial_sum percentage :
  NoDup (keys d) -> In identifier (keys d) -> 0 < percentage ->
  calculate identifier_versions identifier d 0 partial_sum percentage =
  inr (FULL_PERCENTAGE,
       fst (calculate_new_weights 0 identifier d FULL_PERCENTAGE),
       mkCalculation 0
         (snd (calculate_new_weights 0 identifier d FULL_PERCENTAGE))
         [(identifier, FULL_PERCENTAGE - percentage)],
       []).
Proof.
  intros Hnd Hin Hp. unfold calculate. cbn [Z.eqb negb].
  destruct (Z.ltb_spec 0 percentage); [|lia].
  rewrite calculate_new_weights_map by exact Hnd. cbn [fst snd].
  rewrite sum_full_cutover by assumption.
  rewrite Z.sub_diag. cbn [Z.eqb negb andb bind ret].
  rewrite sum_full_cutover by assumption.
  rewrite Z.eqb_refl. reflexivity.
Qed.

Lemma calculate_full identifier_versions identifier d partial_count
    partial_sum :
  NoDup (keys d) -> In identifier (keys d) ->
  exists delta,
    calculate identifier_versions identifier d partial_count partial_sum
      FULL_PERCENTAGE =
    inr (FULL_PERCENTAGE,
         fst (calculate_new_weights delta identifier d FULL_PERCENTAGE),
         mkCalculation delta
           (snd (calculate_new_weights delta identifier d FULL_PERCENTAGE))
           (if partial_count =? 0 then [(identifier, 0)] else []),
         []).
Proof.
  intros Hnd Hin.
  exists (if partial_count =? 0 then 0
          else int_of_Q (inject_Z (FULL_PERCENTAGE - FULL_PERCENTAGE - partial_sum)
                         / inject_Z partial_count)%Q).
  unfold calculate.
  destruct (partial_count =? 0); cbn [negb];
    try change (0 <? FULL_PERCENTAGE) with true; cbv iota;
    rewrite !calculate_new_weights_map by exact Hnd; cbn [fst snd];
    rewrite sum_full_cutover by assumption;
    rewrite Z.sub_diag; cbn [Z.eqb negb andb bind ret];
    rewrite sum_full_cutover by assumption;
    rewrite Z.eqb_refl; reflexivity.
Qed.

Lemma calculate_general identifier_versions identifier d partial_count
    partial_sum percentage :
  NoDup (keys d) -> In identifier (keys d) ->
  (forall k, In k (keys d) -> In k (keys identifier_versions)) ->
  0 < partial_count -> 0 <= percentage ->
  (exists i w, In (i, w) d /\ i <> identifier /\ 0 < w) ->
  exists percentage' w c printed,
    calculate identifier_versions identifier d partial_count partial_sum
      percentage = inr (percentage', w, c, printed) /\
    sum_values w = FULL_PERCENTAGE /\
    keys w = keys d /\
    get identifier w = Some percentage' /\
    delta c
    = Z.quot (FULL_PERCENTAGE - percentage - partial_sum) partial_count /\
    (percentage <> FULL_PERCENTAGE ->
     forall i x, i <> identifier -> get i d = Some x -> 0 < x ->
                 exists x', get i w = Some x' /\ 1 <= x') /\
    ((percentage' = percentage /\ printed = [] /\
      get identifier (compensations c) = None) \/
     (percentage' <> percentage /\
      printed = [WarningChangingPercentage (as_percent percentage)
                                           (as_percent percentage')] /\
      get identifier (compensations c) = Some (percentage' - percentage))).
Proof.
  intros Hnd Hin Hreg Hpc Hp (i0 & w0 & Hi0 & Hne0 & Hw0).
  unfold calculate.
  destruct (Z.eqb_spec partial_count 0) as [|_]; [lia|]. cbn [negb].
  destruct partial_count as [|pc|pc]; try lia.
  rewrite int_of_Q_div.
  set (dl := Z.quot (FULL_PERCENTAGE - percentage - partial_sum) (Z.pos pc)).
  rewrite calculate_new_weights_map by exact Hnd.
  set (f := fun item : string * Z => (fst item,
         new_weight dl identifier percentage (fst item) (snd item))).
  set (alloc := map f d).
  assert (Hkeys : keys alloc = keys d) by apply keys_map_values.
  assert (Hget : forall k, get k alloc =
            match get k d with
            | Some v => Some (new_weight dl identifier percentage k v)
            | None => None
            end) by (intros k; unfold alloc, f; apply (get_map_values
              (fun item => new_weight dl identifier percentage (fst item) (snd item)))).
  assert (Hidalloc : get identifier alloc = Some percentage).
  { rewrite Hget. destruct (in_keys_get _ _ Hin) as [v ->].
    now rewrite new_weight_target. }
  assert (Hfloor0 : percentage <> FULL_PERCENTAGE ->
            forall i x, i <> identifier -> get i d = Some x -> 0 < x ->
                        exists x', get i alloc = Some x' /\ 1 <= x').
  { intros Hnf i x Hi Hx Hpos. rewrite Hget, Hx.
    rewrite new_weight_other_partial by assumption.
    eexists; split; [reflexivity | lia]. }
  assert (Htotal : 1 <= sum_values alloc).
  { destruct (Z.eq_dec percentage FULL_PERCENTAGE) as [->|Hnf].
    - unfold alloc, f. rewrite sum_full_cutover by assumption.
      unfold FULL_PERCENTAGE, PERCENT_RESOLUTION. lia.
    - eapply sum_with_partial; eauto. }
  cbn [fst snd].
  destruct (Z.eqb_spec (FULL_PERCENTAGE - sum_values alloc) 0) as [He|He];
    cbn [negb andb].
  - cbn [bind ret]. replace (sum_values alloc) with FULL_PERCENTAGE by lia.
    rewrite Z.eqb_refl. cbn [assert bind ret].
    eexists _, _, _, _. split; [reflexivity|].
    repeat split; auto; lia.
  - destruct (Z.ltb_spec (FULL_PERCENTAGE - sum_values alloc) FULL_PERCENTAGE);
      [|lia].
    destruct (compensate_total (FULL_PERCENTAGE - sum_values alloc) empty
                identifier alloc (Z.pos pc) percentage identifier_versions)
      as (p' & w & c & printed & Hrun & Hk & Hsum & Hidw & Hfloor & _ & Hwarn).
    { lia. }
    { intros k Hk. apply Hreg. now rewrite <- Hkeys. }
    { exact Hidalloc. }
    rewrite Hrun. cbn [bind].
    replace (sum_values w) with FULL_PERCENTAGE by lia.
    rewrite Z.eqb_refl. cbn [assert bind ret].
    eexists _, _, _, _. split; [reflexivity|].
    repeat split; auto; try lia.
    + congruence.
    + intros Hnf i x Hi Hx Hpos.
      destruct (Hfloor0 Hnf i x Hi Hx Hpos) as (x' & Hx' & Hle).
      destruct (Hfloor i Hi) as [Heq|(y & Hy & Hypos)].
      * exists x'. split; [congruence | exact Hle].
      * exists y. split; [exact Hy | lia].
Qed.

(* ------------------------------------------------------------------------- *)
(** ** [set_new_weights] *)

Lemma set_new_weights_loop_eq dns_name identifier new_record_weights rr
    changes did_the_upsert :
  (forall r, In r (weighted dns_name rr) ->
             In (SetIdentifier r) (keys new_record_weights)) ->
  set_new_weights_loop dns_name identifier new_record_weights rr
    (changes, did_the_upsert) =
  inr (changes ++ flat_map (record_changes dns_name new_record_weights) rr,
       did_the_upsert
       || existsb (keeps_target dns_name identifier new_record_weights) rr).
Proof.
  unfold weighted. revert changes did_the_upsert.
  induction rr as [|r rr IH]; intros changes did Hcov.
  - simpl. now rewrite app_nil_r, orb_false_r.
  - cbn [set_new_weights_loop set_new_weights_step flat_map existsb filter] in *.
    unfold record_changes at 1, keeps_target at 1.
    destruct (matches dns_name r) eqn:Hm.
    + destruct (in_keys_get (SetIdentifier r) new_record_weights) as [w Hw];
        [apply Hcov; now left|].
      unfold lookup. rewrite Hw. cbn [bind ret].
      assert (Hcov' : forall r0, In r0 (filter (matches dns_name) rr) ->
                In (SetIdentifier r0) (keys new_record_weights))
        by (intros; apply Hcov; now right).
      destruct (w =? 0); cbn [negb bind ret andb].
      * rewrite IH by exact Hcov'. now rewrite <- app_assoc.
      * destruct (Weight r =? w); cbn [negb];
          destruct (String.eqb identifier (SetIdentifier r));
          cbn [bind ret]; rewrite IH by exact Hcov'; rewrite <- ?app_assoc;
          cbn [app orb]; rewrite ?orb_true_r; reflexivity.
    + cbn [bind ret andb app orb]. apply IH. exact Hcov.
Qed.

Lemma set_new_weights_eq dns_name identifier lb_dns_name new_record_weights rr :
  (forall r, In r (weighted dns_name rr) ->
             In (SetIdentifier r) (keys new_record_weights)) ->
  In identifier (keys new_record_weights) ->
  set_new_weights dns_name identifier lb_dns_name new_record_weights rr =
  inr match planned_changes dns_name identifier lb_dns_name
              new_record_weights rr with
      | [] => (None, [ActionSettingWeights dns_name; OkNotChanged])
      | (_ :: _) as changes =>
          (Some changes,
           [ActionSettingWeights dns_name;
            if sum_values new_record_weights =? 0 then OkDisabled else Ok])
      end.
Proof.
  intros Hcov Hid. unfold set_new_weights, planned_changes.
  rewrite set_new_weights_loop_eq by exact Hcov. cbn [bind app orb].
  destruct (in_keys_get _ _ Hid) as [w Hw]. unfold lookup. rewrite Hw.
  cbn [bind ret].
  destruct ((0 <? w) && negb _);
    [|rewrite app_nil_r];
    destruct (flat_map _ rr) as [|c cs]; cbn [app];
    try destruct (sum_values new_record_weights =? 0); reflexivity.
Qed.

(* ------------------------------------------------------------------------- *)
(** ** [change_version_traffic], branch by branch *)

Lemma change_version_traffic_disable identifier_versions dns_name identifier
    lb_dns_name rr p d s b printed :
  get_weights dns_name identifier rr (keys identifier_versions) = (d, 0, s) ->
  percentage_units p = 0 ->
  set_new_weights dns_name identifier lb_dns_name (all_zero d) rr
    = inr (b, printed) ->
  change_version_traffic identifier_versions dns_name identifier lb_dns_name
    rr p =
  inr (mkTrafficChange d 0 s 0 (all_zero d) None b
         (OkRecordRemoved dns_name :: printed)).
Proof.
  intros Hgw Hp Hset. unfold change_version_traffic. rewrite Hgw, Hp.
  cbn [Z.eqb andb bind ret]. rewrite Hset. reflexivity.
Qed.

Lemma change_version_traffic_calculated identifier_versions dns_name identifier
    lb_dns_name rr p d c s percentage' w calc warnings b printed :
  get_weights dns_name identifier rr (keys identifier_versions) = (d, c, s) ->
  (c =? 0) && (percentage_units p =? 0) = false ->
  calculate identifier_versions identifier d c s (percentage_units p)
    = inr (percentage', w, calc, warnings) ->
  set_new_weights dns_name identifier lb_dns_name w rr = inr (b, printed) ->
  change_version_traffic identifier_versions dns_name identifier lb_dns_name
    rr p =
  inr (mkTrafficChange d c s percentage' w (Some calc) b (warnings ++ printed)).
Proof.
  intros Hgw Hgen Hcalc Hset. unfold change_version_traffic.
  rewrite Hgw, Hgen, Hcalc. cbn [bind ret]. rewrite Hset. reflexivity.
Qed.

Lemma all_zero_map (d : dict Z) :
  NoDup (keys d) -> all_zero d = map (fun item => (fst item, 0)) d.
Proof.
  intros Hnd. unfold all_zero.
  assert (H : forall l a, NoDup (keys a ++ l) ->
            fold_left (fun d i => set i 0 d) l a = a ++ map (fun i => (i, 0)) l).
  { induction l as [|i l IH]; intros a Ha; simpl; [now rewrite app_nil_r|].
    rewrite set_absent.
    - rewrite IH; [now rewrite <- app_assoc|].
      rewrite keys_app, <- app_assoc. exact Ha.
    - intros Hin. apply NoDup_remove_2 in Ha. apply Ha, in_or_app. now left. }
  rewrite H by exact Hnd. unfold keys. now rewrite map_map.
Qed.

Lemma partial_items_witness identifier (d : dict Z) :
  0 < Z.of_nat (List.length (partial_items identifier d)) ->
  exists i w, In (i, w) d /\ i <> identifier /\ 0 < w.
Proof.
  unfold partial_items. destruct (filter _ d) as [|[i w] l] eqn:Hf; simpl; [lia|].
  intros _. assert (Hin : In (i, w) (filter (is_partial identifier) d))
    by (rewrite Hf; now left).
  apply filter_In in Hin. destruct Hin as [Hin Hp].
  unfold is_partial in Hp. cbn [fst snd] in Hp.
  apply andb_true_iff in Hp. destruct Hp as [Hne Hw].
  exists i, w. repeat split; [exact Hin | | lia].
  intros ->. rewrite String.eqb_refl in Hne. discriminate.
Qed.

(** The disable branch runs for every record list. *)
Lemma run_disable identifier_versions dns_name identifier lb_dns_name rr p d s :
  get_weights dns_name identifier rr (keys identifier_versions) = (d, 0, s) ->
  percentage_units p = 0 ->
  exists b ok_message,
    change_version_traffic identifier_versions dns_name identifier lb_dns_name
      rr p =
    inr (mkTrafficChange d 0 s 0 (map (fun item => (fst item, 0)) d) None b
           [OkRecordRemoved dns_name; ActionSettingWeights dns_name;
            ok_message]) /\
    changes_of b = map (mkChange DELETE) (weighted dns_name rr) /\
    ok_message = match weighted dns_name rr with
                 | [] => OkNotChanged
                 | _ :: _ => OkDisabled
                 end.
Proof.
  intros Hgw Hp.
  destruct (get_weights_facts _ _ _ _ _ _ _ Hgw) as (Hnd & Hid & _ & Hcov & _).
  rewrite <- (all_zero_map d Hnd).
  pose proof (all_zero_map d Hnd) as Hz.
  set (zero := all_zero d) in *.
  assert (Hkeys : keys zero = keys d)
    by (rewrite Hz; apply (keys_map_values (fun _ : string * Z => 0))).
  assert (Hget : forall k, In k (keys d) -> get k zero = Some 0).
  { intros k Hk. rewrite Hz.
    rewrite (get_map_values (fun _ : string * Z => 0)).
    destruct (in_keys_get _ _ Hk) as [v ->]. reflexivity. }
  assert (Hsum : sum_values zero = 0).
  { rewrite Hz. unfold sum_values, values. clear.
    induction d; simpl; [reflexivity | lia]. }
  assert (Hplan : planned_changes dns_name identifier lb_dns_name zero rr =
                  map (mkChange DELETE) (weighted dns_name rr)).
  { unfold planned_changes. rewrite (Hget _ Hid). cbn [Z.ltb Z.compare andb].
    rewrite app_nil_r. unfold weighted.
    assert (Hcov' : forall r, In r rr -> matches dns_name r = true ->
                              get (SetIdentifier r) zero = Some 0).
    { intros r Hr Hm. apply Hget, Hcov. unfold weighted. apply filter_In. auto. }
    clear - Hcov'. induction rr as [|r rr IH]; [reflexivity|].
    cbn [flat_map filter]. unfold record_changes at 1.
    destruct (matches dns_name r) eqn:Hm.
    - rewrite (Hcov' r) by (auto; now left). cbn [Z.eqb app map].
      f_equal. apply IH. intros; apply Hcov'; auto. now right.
    - cbn [app]. apply IH. intros; apply Hcov'; auto. now right. }
  pose proof (set_new_weights_eq dns_name identifier lb_dns_name zero rr) as Hset.
  rewrite Hplan, Hsum in Hset. cbn [Z.eqb] in Hset.
  rewrite Hkeys in Hset. specialize (Hset Hcov Hid).
  clear Hz. subst zero.
  destruct (weighted dns_name rr) as [|r0 rest] eqn:Hw; cbn [map] in Hset.
  - exists None, OkNotChanged. split; [|split; reflexivity].
    now apply change_version_traffic_disable.
  - exists (Some (mkChange DELETE r0 :: map (mkChange DELETE) rest)), OkDisabled.
    split; [|split; reflexivity].
    now apply change_version_traffic_disable.
Qed.

Lemma set_new_weights_total dns_name identifier lb_dns_name new_record_weights
    rr :
  (forall r, In r (weighted dns_name rr) ->
             In (SetIdentifier r) (keys new_record_weights)) ->
  In identifier (keys new_record_weights) ->
  exists b ok_message,
    set_new_weights dns_name identifier lb_dns_name new_record_weights rr =
      inr (b, [ActionSettingWeights dns_name; ok_message]) /\
    changes_of b =
      planned_changes dns_name identifier lb_dns_name new_record_weights rr /\
    is_warning ok_message = false.
Proof.
  intros Hcov Hid. rewrite set_new_weights_eq by assumption.
  destruct (planned_changes _ _ _ _ _) as [|c cs].
  - exists None, OkNotChanged. repeat split.
  - exists (Some (c :: cs)),
      (if sum_values new_record_weights =? 0 then OkDisabled else Ok).
    repeat split. now destruct (_ =? 0).
Qed.

(** Every key of the weight map is a registered identifier when the target
    and the records are. *)
Lemma get_weights_registered identifier_versions dns_name identifier rr d c s :
  In identifier (keys identifier_versions) ->
  registry_total identifier_versions dns_name rr ->
  get_weights dns_name identifier rr (keys identifier_versions) = (d, c, s) ->
  forall k, In k (keys d) -> In k (keys identifier_versions).
Proof.
  intros Hidreg Hreg. rewrite get_weights_unfold. intros [= <- _ _].
  assert (Hscan : forall rr0 st,
    (forall k, In k (keys (fst (fst st))) -> In k (keys identifier_versions)) ->
    (forall r, In r (weighted dns_name rr0) ->
               In (SetIdentifier r) (keys identifier_versions)) ->
    forall k, In k (keys (fst (fst (fold_left
                (get_weights_step dns_name identifier) rr0 st)))) ->
              In k (keys identifier_versions)).
  { unfold weighted. induction rr0 as [|r rr0 IH]; intros [[d0 c0] s0] H0 Hr;
      cbn [fold_left filter] in *; [exact H0|].
    apply IH.
    - rewrite get_weights_step_eq. destruct (matches dns_name r) eqn:Hm;
        [|exact H0]. cbn [fst]. intros k Hk. apply in_keys_set in Hk.
      destruct Hk as [->|Hk]; [apply Hr; now left | now apply H0].
    - intros r0 Hr0. apply Hr.
      destruct (matches dns_name r); [now right | exact Hr0]. }
  assert (Hdef : forall d0 i,
    (forall k, In k (keys d0) -> In k (keys identifier_versions)) ->
    In i (keys identifier_versions) ->
    forall k, In k (keys (set_default_zero d0 i)) ->
              In k (keys identifier_versions)).
  { intros d0 i H0 Hi k. unfold set_default_zero.
    destruct (mem i d0); [apply H0|].
    intros Hk. apply in_keys_set in Hk. destruct Hk as [->|Hk]; auto. }
  apply (fold_left_invariant _
    (fun d0 => forall k, In k (keys d0) -> In k (keys identifier_versions))).
  - apply Hdef; [|exact Hidreg].
    apply (Hscan rr (empty, 0, 0)); [intros k0 [] | exact Hreg].
  - intros d0 i Hi H0. now apply Hdef.
Qed.

(** The calculation branch runs to completion on every valid invocation. *)
Lemma run_calculated identifier_versions dns_name identifier lb_dns_name rr p
    d c s :
  valid_invocation identifier_versions dns_name identifier rr p ->
  get_weights dns_name identifier rr (keys identifier_versions) = (d, c, s) ->
  (c =? 0) && (percentage_units p =? 0) = false ->
  exists percentage' w calc warnings b ok_message,
    change_version_traffic identifier_versions dns_name identifier lb_dns_name
      rr p =
    inr (mkTrafficChange d c s percentage' w (Some calc) b
           (warnings ++ [ActionSettingWeights dns_name; ok_message])) /\
    is_warning ok_message = false /\
    changes_of b = planned_changes dns_name identifier lb_dns_name w rr /\
    sum_values w = FULL_PERCENTAGE /\
    keys w = keys d /\
    get identifier w = Some percentage' /\
    (percentage_units p <> FULL_PERCENTAGE ->
     forall i x, i <> identifier -> get i d = Some x -> 0 < x ->
                 exists x', get i w = Some x' /\ 1 <= x') /\
    ((c = 0 /\ percentage' = FULL_PERCENTAGE /\ warnings = [] /\
      delta calc = 0 /\
      compensations calc = [(identifier, FULL_PERCENTAGE - percentage_units p)])
     \/
     (0 < c /\ percentage' = percentage_units p /\ warnings = [] /\
      get identifier (compensations calc) = None)
     \/
     (0 < c /\ percentage' <> percentage_units p /\
      warnings = [WarningChangingPercentage (as_percent (percentage_units p))
                                            (as_percent percentage')] /\
      get identifier (compensations calc)
        = Some (percentage' - percentage_units p))).
Proof.
  intros (Hp0 & Hp100 & Hidreg & Hreg & Huniq) Hgw Hgen.
  destruct (get_weights_facts _ _ _ _ _ _ _ Hgw)
    as (Hnd & Hid & Hall & Hcov & Hc & Hpos).
  destruct (get_weights_partial _ _ _ _ _ _ _ Huniq Hgw) as [Hcount _].
  destruct (percentage_units_range p Hp0 Hp100) as [Hu0 Hu200].
  pose proof (get_weights_registered _ _ _ _ _ _ _ Hidreg Hreg Hgw) as Hregd.
  destruct (Z.eqb_spec c 0) as [->|Hc0].
  - (* the only live version *)
    pose proof Hgen as Hgen'. cbn [Z.eqb andb] in Hgen. apply Z.eqb_neq in Hgen.
    pose proof (calculate_sole identifier_versions identifier d s
                  (percentage_units p) Hnd Hid ltac:(lia)) as Hcalc.
    rewrite calculate_new_weights_map in Hcalc by exact Hnd. cbn [fst snd] in Hcalc.
    set (w := map _ d) in Hcalc at 1.
    assert (Hkeys : keys w = keys d) by apply keys_map_values.
    destruct (set_new_weights_total dns_name identifier lb_dns_name w rr)
      as (b & okm & Hset & Hb & Hok); [now rewrite Hkeys .. |].
    eexists _, w, _, [], b, okm. split.
    { eapply change_version_traffic_calculated;
        [exact Hgw | exact Hgen' | exact Hcalc | exact Hset]. }
    repeat split; auto.
    + unfold w. now apply sum_full_cutover.
    + unfold w. rewrite (get_map_values (fun item =>
        new_weight 0 identifier FULL_PERCENTAGE (fst item) (snd item))).
      destruct (in_keys_get _ _ Hid) as [v ->]. cbn [fst snd].
      now rewrite new_weight_target.
    + intros _ i x Hi Hx Hx0. specialize (Hpos i x Hx Hi Hx0). lia.
    + left. repeat split; reflexivity.
  - destruct (calculate_general identifier_versions identifier d c s
                (percentage_units p) Hnd Hid Hregd ltac:(lia) Hu0)
      as (p' & w & calc & warnings & Hcalc & Hsum & Hkeys & Hidw & _ & Hfloor & Hw).
    { apply partial_items_witness. lia. }
    destruct (set_new_weights_total dns_name identifier lb_dns_name w rr)
      as (b & okm & Hset & Hb & Hok); [now rewrite Hkeys .. |].
    exists p', w, calc, warnings, b, okm. split.
    { eapply change_version_traffic_calculated; eauto.
      destruct (Z.eqb_spec c 0); [contradiction | reflexivity]. }
    repeat split; auto.
    right. destruct Hw as [(-> & -> & Hn)|(Hne & -> & Hs)];
      [left | right]; repeat split; auto; lia.
Qed.

(* ------------------------------------------------------------------------- *)
(** ** Applying a batch *)

Lemma same_record_set_eq r r' :
  same_record_set r r' = true ->
  Name r = Name r' /\ Type_ r = Type_ r' /\ SetIdentifier r = SetIdentifier r'.
Proof.
  unfold same_record_set. rewrite !andb_true_iff, !String.eqb_eq. tauto.
Qed.

Lemma same_record_set_refl r : same_record_set r r = true.
Proof. unfold same_record_set. now rewrite !String.eqb_refl. Qed.

Lemma same_record_set_matches dns_name r r' :
  same_record_set r r' = true -> matches dns_name r = matches dns_name r'.
Proof.
  intros H. apply same_record_set_eq in H. destruct H as (Hn & Ht & _).
  unfold matches. now rewrite Hn, Ht.
Qed.

(** An upserted record set is in the record list afterwards. *)
Lemma upsert_present rs c :
  Action c = UPSERT -> In (ResourceRecordSet c) (apply_change rs c).
Proof.
  intros Hup. unfold apply_change. rewrite Hup.
  destruct (existsb _ rs) eqn:Hex.
  - apply existsb_exists in Hex. destruct Hex as (x & Hx & Hsame).
    apply in_map_iff. exists x. now rewrite Hsame.
  - apply in_or_app. right. now left.
Qed.

(** What a change does to the records it finds. *)
Lemma apply_change_inv rs c x :
  In x (apply_change rs c) ->
  (Action c = UPSERT /\ x = ResourceRecordSet c) \/
  (In x rs /\ same_record_set (ResourceRecordSet c) x = false).
Proof.
  unfold apply_change. destruct (Action c) eqn:Hact.
  - destruct (existsb _ rs) eqn:Hex.
    + intros Hin. apply in_map_iff in Hin. destruct Hin as (y & Hy & Hin).
      destruct (same_record_set (ResourceRecordSet c) y) eqn:Hs.
      * left. auto.
      * right. subst y. auto.
    + intros Hin. apply in_app_or in Hin. destruct Hin as [Hin|[<-|[]]].
      * right. split; [exact Hin|].
        destruct (same_record_set (ResourceRecordSet c) x) eqn:Hs; [|reflexivity].
        assert (existsb (same_record_set (ResourceRecordSet c)) rs = true)
          by (apply existsb_exists; eauto).
        congruence.
      * left. auto.
  - intros Hin. apply filter_In in Hin. destruct Hin as [Hin Hs].
    right. split; [exact Hin|]. now apply negb_true_iff in Hs.
Qed.

(** A record set survives every change that is not a DELETE of it, possibly
    replaced by a record set of the same identity. *)
Lemma apply_change_keeps rs c x :
  In x rs ->
  (Action c = DELETE -> same_record_set (ResourceRecordSet c) x = false) ->
  exists y, In y (apply_change rs c) /\ same_record_set y x = true.
Proof.
  intros Hin Hdel. unfold apply_change. destruct (Action c) eqn:Hact.
  - destruct (existsb _ rs) eqn:Hex.
    + destruct (same_record_set (ResourceRecordSet c) x) eqn:Hs.
      * exists (ResourceRecordSet c). split; [|exact Hs].
        apply in_map_iff. exists x. now rewrite Hs.
      * exists x. split; [|apply same_record_set_refl].
        apply in_map_iff. exists x. now rewrite Hs.
    + exists x. split; [|apply same_record_set_refl].
      apply in_or_app. now left.
  - exists x. split; [|apply same_record_set_refl].
    apply filter_In. split; [exact Hin|]. now rewrite (Hdel eq_refl).
Qed.

Section Idempotence.

Variables (dns_name identifier lb_dns_name : string).
Variable new_record_weights : dict Z.

Let sync := in_sync dns_name new_record_weights.

Lemma in_sync_no_changes rs :
  (forall r, In r rs -> sync r) ->
  flat_map (record_changes dns_name new_record_weights) rs = [].
Proof.
  induction rs as [|r rs IH]; intros H; [reflexivity|].
  cbn [flat_map]. rewrite IH by (intros; apply H; now right).
  rewrite app_nil_r. unfold record_changes.
  destruct (matches dns_name r) eqn:Hm; [|reflexivity].
  destruct (H r (or_introl eq_refl) Hm) as (w & -> & Hw & ->).
  destruct (Z.eqb_spec w 0); [contradiction|]. now rewrite Z.eqb_refl.
Qed.

Lemma in_sync_covered rs :
  (forall r, In r rs -> sync r) ->
  forall r, In r (weighted dns_name rs) ->
            In (SetIdentifier r) (keys new_record_weights).
Proof.
  intros H r Hr. apply filter_In in Hr. destruct Hr as [Hin Hm].
  destruct (H r Hin Hm) as (w & Hw & _). eapply get_keys; eauto.
Qed.

Lemma in_sync_keeps_target rs x :
  (forall r, In r rs -> sync r) ->
  In x rs -> matches dns_name x = true -> SetIdentifier x = identifier ->
  existsb (keeps_target dns_name identifier new_record_weights) rs = true.
Proof.
  intros H Hin Hm Hid. apply existsb_exists. exists x. split; [exact Hin|].
  unfold keeps_target. rewrite Hm.
  destruct (H x Hin Hm) as (w & -> & Hw & _).
  destruct (Z.eqb_spec w 0); [contradiction|].
  rewrite Hid, String.eqb_refl. reflexivity.
Qed.

(** The changes of one record: an UPSERT carries a record in sync, a DELETE an
    identifier whose final weight is zero, and a record out of sync has a
    change of its own. *)
Lemma record_changes_spec r c :
  In c (record_changes dns_name new_record_weights r) ->
  same_record_set (ResourceRecordSet c) r = true /\
  matches dns_name r = true /\
  match Action c with
  | UPSERT => sync (ResourceRecordSet c)
  | DELETE => get (SetIdentifier r) new_record_weights = Some 0
  end.
Proof.
  unfold record_changes. destruct (matches dns_name r) eqn:Hm; [|intros []].
  destruct (get (SetIdentifier r) new_record_weights) as [w|] eqn:Hw; [|intros []].
  destruct (Z.eqb_spec w 0) as [->|Hw0].
  - intros [<-|[]]. cbn [Action ResourceRecordSet].
    repeat split; auto using same_record_set_refl.
  - destruct (Weight r =? w); [intros []|]. intros [<-|[]].
    cbn [Action ResourceRecordSet]. repeat split.
    + unfold same_record_set, with_weight. cbn. now rewrite !String.eqb_refl.
    + intros _. exists w. cbn. auto.
Qed.

Lemma record_changes_pending r :
  In (SetIdentifier r) (keys new_record_weights) ->
  sync r \/
  exists c, In c (record_changes dns_name new_record_weights r) /\
            same_record_set (ResourceRecordSet c) r = true.
Proof.
  intros Hcov. unfold sync, in_sync, record_changes.
  destruct (matches dns_name r) eqn:Hm; [|left; discriminate].
  destruct (in_keys_get _ _ Hcov) as [w Hw]. rewrite Hw.
  destruct (Z.eqb_spec w 0) as [->|Hw0].
  - right. eexists. split; [now left | apply same_record_set_refl].
  - destruct (Z.eqb_spec (Weight r) w) as [Heq|Hne].
    + left. intros _. exists w. auto.
    + right. eexists. split; [now left|].
      unfold same_record_set, with_weight. cbn. now rewrite !String.eqb_refl.
Qed.

(** Applying a list of changes whose upserts are in sync brings every record
    that has a change of its own in sync. *)
Lemma apply_changes_in_sync cs :
  (forall c, In c cs -> Action c = UPSERT -> sync (ResourceRecordSet c)) ->
  forall rs,
    (forall r, In r rs ->
       sync r \/ exists c, In c cs /\ same_record_set (ResourceRecordSet c) r = true) ->
    forall r, In r (fold_left apply_change cs rs) -> sync r.
Proof.
  induction cs as [|c cs IH]; intros Hup rs Hrs r Hr.
  - cbn in Hr. destruct (Hrs r Hr) as [H|(c & [] & _)]. exact H.
  - cbn [fold_left] in Hr. revert r Hr. apply IH.
    + intros c' Hc'. apply Hup. now right.
    + intros x Hx. apply apply_change_inv in Hx.
      destruct Hx as [[Hact ->]|[Hx Hdiff]].
      * left. apply Hup; [now left | exact Hact].
      * destruct (Hrs x Hx) as [H|(c' & [<-|Hc'] & Hsame)];
          [now left | congruence | right; eauto].
Qed.

(** A record of the target outlives changes that do not delete the target. *)
Lemma apply_changes_keep_target cs :
  (forall c, In c cs -> Action c = DELETE ->
             SetIdentifier (ResourceRecordSet c) <> identifier) ->
  forall rs x,
    In x rs -> SetIdentifier x = identifier ->
    exists y, In y (fold_left apply_change cs rs) /\
              same_record_set y x = true.
Proof.
  induction cs as [|c cs IH]; intros Hdel rs x Hx Hid.
  - exists x. split; [exact Hx | apply same_record_set_refl].
  - cbn [fold_left].
    destruct (apply_change_keeps rs c x Hx) as (y & Hy & Hyx).
    { intros Hact.
      destruct (same_record_set (ResourceRecordSet c) x) eqn:Hs; [|reflexivity].
      apply same_record_set_eq in Hs. destruct Hs as (_ & _ & Hs).
      exfalso. apply (Hdel c (or_introl eq_refl) Hact). congruence. }
    apply same_record_set_eq in Hyx as Hyx'. destruct Hyx' as (Hn & Ht & Hs).
    destruct (IH (fun c' H => Hdel c' (or_intror H)) _ y Hy) as (z & Hz & Hzy);
      [congruence|].
    exists z. split; [exact Hz|].
    apply same_record_set_eq in Hzy. destruct Hzy as (Hn' & Ht' & Hs').
    unfold same_record_set. rewrite Hn', Hn, Ht', Ht, Hs', Hs.
    now rewrite !String.eqb_refl.
Qed.

End Idempotence.

Lemma new_target_record_in_sync dns_name identifier lb_dns_name
    (new_record_weights : dict Z) w :
  get identifier new_record_weights = Some w -> 0 < w ->
  in_sync dns_name new_record_weights
    (new_target_record dns_name identifier lb_dns_name w).
Proof.
  intros Hw Hpos _. exists w. cbn. repeat split; [exact Hw | lia].
Qed.

Lemma new_target_record_matches dns_name identifier lb_dns_name w :
  matches dns_name (new_target_record dns_name identifier lb_dns_name w) = true.
Proof. unfold matches. cbn. now rewrite String.eqb_refl. Qed.

(** The record list after the planned changes have been applied: every
    record is in sync, and a target with a positive final weight has its
    record. *)
Lemma applied_plan dns_name identifier lb_dns_name new_record_weights rr w :
  (forall r, In r (weighted dns_name rr) ->
             In (SetIdentifier r) (keys new_record_weights)) ->
  get identifier new_record_weights = Some w ->
  let rs := fold_left apply_change
              (planned_changes dns_name identifier lb_dns_name
                 new_record_weights rr) rr in
  (forall r, In r rs -> in_sync dns_name new_record_weights r) /\
  (0 < w -> exists y, In y rs /\ matches dns_name y = true /\
                      SetIdentifier y = identifier).
Proof.
  intros Hcov Hw rs. split.
  - apply apply_changes_in_sync.
    + intros c Hc Hup. unfold planned_changes in Hc.
      apply in_app_or in Hc. destruct Hc as [Hc|Hc].
      * apply in_flat_map in Hc. destruct Hc as (r & _ & Hc).
        apply record_changes_spec in Hc. rewrite Hup in Hc. apply Hc.
      * rewrite Hw in Hc. destruct (Z.ltb_spec 0 w); cbn [andb] in Hc;
          [|destruct Hc].
        destruct (negb _); [|destruct Hc]. destruct Hc as [<-|[]].
        now apply new_target_record_in_sync.
    + intros r Hr. destruct (matches dns_name r) eqn:Hm.
      * destruct (record_changes_pending dns_name new_record_weights r)
          as [H|(c & Hc & Hs)].
        { apply Hcov. apply filter_In. auto. }
        { now left. }
        { right. exists c. split; [|exact Hs]. unfold planned_changes.
          apply in_or_app. left. apply in_flat_map. eauto. }
      * left. intros H. congruence.
  - intros Hpos. unfold rs, planned_changes. rewrite Hw.
    destruct (Z.ltb_spec 0 w); [|lia]. cbn [andb].
    destruct (existsb _ rr) eqn:Hex; cbn [negb].
    + rewrite app_nil_r. apply existsb_exists in Hex.
      destruct Hex as (x & Hx & Hk). unfold keeps_target in Hk.
      apply andb_true_iff in Hk. destruct Hk as [Hm Hk].
      destruct (get (SetIdentifier x) new_record_weights) as [wx|]; [|discriminate].
      apply andb_true_iff in Hk. destruct Hk as [_ Hid].
      apply String.eqb_eq in Hid.
      destruct (apply_changes_keep_target identifier
                  (flat_map (record_changes dns_name new_record_weights) rr))
        with (rs := rr) (x := x) as (y & Hy & Hyx); auto.
      { intros c Hc Hdel Heq. apply in_flat_map in Hc.
        destruct Hc as (r & _ & Hc). apply record_changes_spec in Hc.
        rewrite Hdel in Hc. destruct Hc as (Hs & _ & Hzero).
        apply same_record_set_eq in Hs. destruct Hs as (_ & _ & Hs).
        rewrite <- Hs, Heq, Hw in Hzero. injection Hzero as ->. lia. }
      exists y. split; [exact Hy|].
      rewrite (same_record_set_matches dns_name _ _ Hyx).
      apply same_record_set_eq in Hyx. split; [exact Hm|].
      destruct Hyx as (_ & _ & ->). auto.
    + rewrite fold_left_app. cbn [fold_left].
      exists (new_target_record dns_name identifier lb_dns_name w).
      split; [|split; [apply new_target_record_matches | reflexivity]].
      now apply (upsert_present _ (mkChange UPSERT _)).
Qed.

(* ========================================================================= *)
(** * The claims *)

(** Discharges [valid_invocation] on a concrete invocation. *)
Ltac valid_example :=
  repeat split;
  [ unfold Qle; simpl; lia
  | unfold Qle; simpl; lia
  | simpl; tauto
  | intros r Hr; simpl in Hr;
    repeat (destruct Hr as [<-|Hr]; [simpl; tauto|]); destruct Hr
  | unfold unique_identifiers; simpl;
    repeat (constructor; [simpl; intuition discriminate|]); constructor ].

(** C1 (conservation, I1).  On every valid invocation the operation runs to
    completion, and whenever it takes the general path (it is not the
    last-version disable), equivalently whenever some identifier ends with a
    non-zero weight, the final weights after allocation and compensation add
    up to [FULL_PERCENTAGE = 100 * PERCENT_RESOLUTION = 200]. *)
Theorem weights_conserved identifier_versions dns_name identifier lb_dns_name
    rr p :
  valid_invocation identifier_versions dns_name identifier rr p ->
  exists t,
    change_version_traffic identifier_versions dns_name identifier lb_dns_name
      rr p = inr t /\
    ((partial_count t =? 0) && (percentage_units p =? 0) = false ->
     sum_values (new_record_weights t) = FULL_PERCENTAGE) /\
    ((exists i w, get i (new_record_weights t) = Some w /\ w <> 0) ->
     sum_values (new_record_weights t) = FULL_PERCENTAGE) /\
    FULL_PERCENTAGE = 200.
Proof.
  intros Hvalid.
  destruct (get_weights dns_name identifier rr (keys identifier_versions))
    as [[d c] s] eqn:Hgw.
  destruct ((c =? 0) && (percentage_units p =? 0)) eqn:Hpath.
  - apply andb_true_iff in Hpath. destruct Hpath as [Hc Hp].
    apply Z.eqb_eq in Hc, Hp. subst c.
    destruct (run_disable identifier_versions dns_name identifier lb_dns_name
                rr p d s Hgw Hp) as (b & okm & Hrun & _).
    eexists. split; [exact Hrun|]. cbn [partial_count new_record_weights].
    rewrite Hp. repeat split.
    + discriminate.
    + intros (i & w & Hget & Hw). exfalso. apply Hw.
      rewrite (get_map_values (fun _ : string * Z => 0)) in Hget.
      destruct (get i d); congruence.
  - destruct (run_calculated identifier_versions dns_name identifier lb_dns_name
                rr p d c s Hvalid Hgw Hpath)
      as (p' & w & calc & warnings & b & okm & Hrun & _ & _ & Hsum & _).
    eexists. split; [exact Hrun|]. cbn [partial_count new_record_weights].
    repeat split; auto.
Qed.

Lemma weights_conserved_witness :
  valid_invocation versions4 "app.example.org." "app-1"
    [rec_ "app-1" 0; rec_ "app-2" 1; rec_ "app-3" 5] (199 # 2) /\
  exists t,
    run4 "app-1" [rec_ "app-1" 0; rec_ "app-2" 1; rec_ "app-3" 5] (199 # 2)
      = inr t /\
    ((partial_count t =? 0) && (percentage_units (199 # 2) =? 0) = false ->
     sum_values (new_record_weights t) = FULL_PERCENTAGE) /\
    ((exists i w, get i (new_record_weights t) = Some w /\ w <> 0) ->
     sum_values (new_record_weights t) = FULL_PERCENTAGE) /\
    FULL_PERCENTAGE = 200.
Proof.
  assert (H : valid_invocation versions4 "app.example.org." "app-1"
                [rec_ "app-1" 0; rec_ "app-2" 1; rec_ "app-3" 5] (199 # 2))
    by valid_example.
  split; [exact H|]. exact (weights_conserved _ _ _ "lb"%string _ _ H).
Defined.

(** C2 (floor, I2).  On every valid invocation whose requested percentage is
    not [FULL_PERCENTAGE], an identifier other than the target that had a
    positive weight has a weight of at least [1] after allocation (it is
    [max(1, w + delta)]) and after compensation. *)
Theorem live_weight_floor identifier_versions dns_name identifier lb_dns_name
    rr p :
  valid_invocation identifier_versions dns_name identifier rr p ->
  percentage_units p <> FULL_PERCENTAGE ->
  exists t,
    change_version_traffic identifier_versions dns_name identifier lb_dns_name
      rr p = inr t /\
    forall i x,
      i <> identifier -> get i (known_record_weights t) = Some x -> 0 < x ->
      (forall delta,
         get i (fst (calculate_new_weights delta identifier
                       (known_record_weights t) (percentage_units p)))
         = Some (Z.max 1 (x + delta))) /\
      exists x', get i (new_record_weights t) = Some x' /\ 1 <= x'.
Proof.
  intros Hvalid Hnf.
  destruct (get_weights dns_name identifier rr (keys identifier_versions))
    as [[d c] s] eqn:Hgw.
  destruct (get_weights_facts _ _ _ _ _ _ _ Hgw) as (Hnd & _ & _ & _ & _ & Hpos).
  assert (Halloc : forall i x delta,
    i <> identifier -> get i d = Some x -> 0 < x ->
    get i (fst (calculate_new_weights delta identifier d (percentage_units p)))
    = Some (Z.max 1 (x + delta))).
  { intros i x dl Hi Hx Hx0. rewrite calculate_new_weights_map by exact Hnd.
    cbn [fst]. rewrite (get_map_values (fun item =>
      new_weight dl identifier (percentage_units p) (fst item) (snd item))), Hx.
    cbn [fst snd]. now rewrite new_weight_other_partial. }
  destruct ((c =? 0) && (percentage_units p =? 0)) eqn:Hpath.
  - apply andb_true_iff in Hpath. destruct Hpath as [Hc Hp].
    apply Z.eqb_eq in Hc, Hp. subst c.
    destruct (run_disable identifier_versions dns_name identifier lb_dns_name
                rr p d s Hgw Hp) as (b & okm & Hrun & _).
    eexists. split; [exact Hrun|]. cbn [known_record_weights new_record_weights].
    intros i x Hi Hx Hx0. specialize (Hpos i x Hx Hi Hx0). lia.
  - destruct (run_calculated identifier_versions dns_name identifier lb_dns_name
                rr p d c s Hvalid Hgw Hpath)
      as (p' & w & calc & warnings & b & okm & Hrun & _ & _ & _ & _ & _ & Hfloor & _).
    eexists. split; [exact Hrun|]. cbn [known_record_weights new_record_weights].
    intros i x Hi Hx Hx0. split; [intros; now apply Halloc | now apply (Hfloor Hnf i x)].
Qed.

Lemma live_weight_floor_witness :
  valid_invocation versions4 "app.example.org." "app-1"
    [rec_ "app-1" 0; rec_ "app-2" 1; rec_ "app-3" 5] (199 # 2) /\
  percentage_units (199 # 2) <> FULL_PERCENTAGE /\
  exists t,
    run4 "app-1" [rec_ "app-1" 0; rec_ "app-2" 1; rec_ "app-3" 5] (199 # 2)
      = inr t /\
    forall i x,
      i <> "app-1"%string -> get i (known_record_weights t) = Some x -> 0 < x ->
      (forall delta,
         get i (fst (calculate_new_weights delta "app-1"
                       (known_record_weights t) (percentage_units (199 # 2))))
         = Some (Z.max 1 (x + delta))) /\
      exists x', get i (new_record_weights t) = Some x' /\ 1 <= x'.
Proof.
  assert (H : valid_invocation versions4 "app.example.org." "app-1"
                [rec_ "app-1" 0; rec_ "app-2" 1; rec_ "app-3" 5] (199 # 2))
    by valid_example.
  assert (Hp : percentage_units (199 # 2) <> FULL_PERCENTAGE)
    by (vm_compute; discriminate).
  split; [exact H|]. split; [exact Hp|].
  exact (live_weight_floor _ _ _ "lb"%string _ _ H Hp).
Defined.

(** C3 (no resurrection, I3): the code breaks it.  With the target [app-1] at
    100, [app-2] and [app-3] at 50 and the newest version [app-4] disabled
    (weight 0), a request of 49.5% for the target leaves a rounding error of
    one unit; allocation keeps [app-4] at 0, but [compensate] visits [app-4]
    first and gives it that unit, although its docstring says that nothing is
    added to the already disabled versions.  The disabled version receives
    weight 1 and an UPSERT. *)
Example resurrection_by_compensation :
  exists t calc,
    run4 "app-1" [rec_ "app-1" 100; rec_ "app-2" 50; rec_ "app-3" 50;
                  rec_ "app-4" 0] (99 # 2) = inr t /\
    calculated t = Some calc /\
    get "app-4" (known_record_weights t) = Some 0 /\
    get "app-4" (fst (calculate_new_weights (delta calc) "app-1"
                        (known_record_weights t) (percentage_units (99 # 2))))
      = Some 0 /\
    get "app-4" (new_record_weights t) = Some 1 /\
    get "app-4" (compensations calc) = Some 1 /\
    In (mkChange UPSERT (rec_ "app-4" 1)) (changes_of (batch t)).
Proof.
  eexists _, _. split; [vm_compute; reflexivity|].
  cbn [calculated known_record_weights new_record_weights batch delta
       compensations changes_of].
  repeat split; try reflexivity.
  right. left. reflexivity.
Qed.

(** C4, as stated, fails: the step is not the quotient rounded away from zero.
    For an error of [-3] spread over [2] live versions the code steps by [-1]
    where rounding away from zero gives [-2]; the invocation below reaches
    that state ([app-2] at 1 and [app-3] at 5, 99.5% requested for [app-1]). *)
Lemma step_size_counterexample :
  exists t calc,
    run4 "app-1" [rec_ "app-1" 0; rec_ "app-2" 1; rec_ "app-3" 5] (199 # 2)
      = inr t /\
    calculated t = Some calc /\
    partial_count t = 2 /\
    FULL_PERCENTAGE
    - sum_values (fst (calculate_new_weights (delta calc) "app-1"
                         (known_record_weights t) (percentage_units (199 # 2))))
      = -3 /\
    get "app-3" (compensations calc) = Some (-1) /\
    compensate_part (-3) 2 = -1 /\
    part_rounded_away (-3) 2 = -2 /\
    compensate_part (-3) 2 <> part_rounded_away (-3) 2.
Proof.
  eexists _, _. split; [vm_compute; reflexivity|].
  cbn [calculated known_record_weights partial_count delta compensations].
  repeat split; try reflexivity. vm_compute. discriminate.
Qed.

(** C4, amended.  For a non-zero error and [partial_count > 0] the step
    [part] is the quotient [error / partial_count] truncated toward zero and
    then pushed to a magnitude of at least [1]: it has the sign of the error
    and the magnitude [max(1, floor(|error| / partial_count))], which never
    exceeds the error's.  Every step the loop applies subtracts exactly
    [part], a non-zero amount, from the error and is recorded as such. *)
Theorem compensation_step_size (calculation_error partial_count : Z) :
  calculation_error <> 0 -> 0 < partial_count ->
  let part := compensate_part calculation_error partial_count in
  part = Z.sgn calculation_error
         * Z.max 1 (Z.abs calculation_error / partial_count) /\
  1 <= Z.abs part <= Z.abs calculation_error /\
  Z.abs (calculation_error - part) < Z.abs calculation_error /\
  forall identifier candidates w0 c0 e w c,
    compensate_loop part identifier candidates (calculation_error, w0, c0)
      = inr (e, w, c) ->
    (exists n, e = calculation_error - Z.of_nat n * part) /\
    (forall i, get i c = get i c0 \/ get i c = Some part).
Proof.
  intros He Hpc part.
  assert (Hpart : part = Z.sgn calculation_error
                         * Z.max 1 (Z.abs calculation_error / partial_count)).
  { unfold part. rewrite compensate_part_quot by exact Hpc.
    destruct (Z.ltb_spec 0 calculation_error) as [Hpos|Hneg].
    - rewrite Z.sgn_pos, Z.abs_eq, Z.quot_div_nonneg by lia. lia.
    - rewrite Z.sgn_neg, Z.abs_neq by lia.
      replace calculation_error with (- - calculation_error) at 1 by lia.
      rewrite Z.quot_opp_l, Z.quot_div_nonneg by lia. lia. }
  assert (Hq : 0 <= Z.abs calculation_error / partial_count
               <= Z.abs calculation_error).
  { split; [apply Z.div_pos; lia|]. apply Z.div_le_upper_bound; nia. }
  split; [exact Hpart|]. split; [|split].
  - rewrite Hpart. destruct (Z.ltb_spec 0 calculation_error).
    + rewrite Z.sgn_pos by lia. lia.
    + rewrite Z.sgn_neg by lia. lia.
  - rewrite Hpart. destruct (Z.ltb_spec 0 calculation_error).
    + rewrite Z.sgn_pos by lia. lia.
    + rewrite Z.sgn_neg by lia. lia.
  - intros identifier candidates w0 c0 e w c Hrun.
    exact (compensate_loop_steps _ _ _ _ _ _ _ _ _ Hrun).
Qed.

Lemma compensation_step_size_witness :
  -3 <> 0 /\ 0 < 2 /\
  let part := compensate_part (-3) 2 in
  part = Z.sgn (-3) * Z.max 1 (Z.abs (-3) / 2) /\
  1 <= Z.abs part <= Z.abs (-3) /\
  Z.abs (-3 - part) < Z.abs (-3) /\
  forall identifier candidates w0 c0 e w c,
    compensate_loop part identifier candidates (-3, w0, c0) = inr (e, w, c) ->
    (exists n, e = -3 - Z.of_nat n * part) /\
    (forall i, get i c = get i c0 \/ get i c = Some part).
Proof.
  assert (H3 : -3 <> 0) by lia.
  assert (H2 : 0 < 2) by lia.
  split; [exact H3|]. split; [exact H2|].
  exact (compensation_step_size (-3) 2 H3 H2).
Defined.

(** C5, as stated, fails: the boundary case is not the only path on which
    the achieved percentage differs from the requested one.  When the target
    is the only live version, a request of 50% is answered with 100% and no
    warning. *)
Lemma boundary_exclusivity_counterexample :
  exists t,
    run4 "app-1" [rec_ "app-1" 200] (50 # 1) = inr t /\
    percentage_units (50 # 1) = 100 /\
    percentage t = 200 /\
    get "app-1" (new_record_weights t) = Some 200 /\
    forall m, In m (output t) -> is_warning m = false.
Proof.
  eexists. split; [vm_compute; reflexivity|].
  cbn [percentage new_record_weights output].
  repeat split; try reflexivity.
  intros m [<-|[<-|[]]]; reflexivity.
Qed.

(** C5, amended.  When the compensation loop ends with a residual error
    [e <> 0], [compensate] shifts the target's percentage by exactly [e],
    records [e] under the target identifier, stores the shifted percentage as
    the target's weight and prints one warning.  On a valid invocation the
    percentage finally used differs from the requested one (in fixed-point
    units) only on that path or on the sole-survivor promotion, which sets it
    to [FULL_PERCENTAGE] without a warning; a warning is printed on the
    boundary path only. *)
Theorem boundary_surrender identifier_versions dns_name identifier lb_dns_name
    rr p :
  valid_invocation identifier_versions dns_name identifier rr p ->
  (forall e0 c0 w0 partial_count percentage order e w c,
     partial_count <> 0 ->
     sorted_by_version_desc identifier_versions (keys w0) = inr order ->
     compensate_loop (compensate_part e0 partial_count) identifier order
       (e0, w0, c0) = inr (e, w, c) ->
     e <> 0 ->
     compensate e0 c0 identifier w0 partial_count percentage identifier_versions
     = inr (percentage + e, set identifier (percentage + e) w,
            set identifier e c,
            [WarningChangingPercentage (as_percent percentage)
                                       (as_percent (percentage + e))])) /\
  exists t,
    change_version_traffic identifier_versions dns_name identifier lb_dns_name
      rr p = inr t /\
    (percentage t <> percentage_units p ->
     (partial_count t = 0 /\ 0 < percentage_units p /\
      percentage t = FULL_PERCENTAGE /\
      forall m, In m (output t) -> is_warning m = false)
     \/
     (0 < partial_count t /\
      In (WarningChangingPercentage (as_percent (percentage_units p))
                                    (as_percent (percentage t))) (output t) /\
      get identifier (new_record_weights t) = Some (percentage t) /\
      exists calc, calculated t = Some calc /\
                   get identifier (compensations calc)
                   = Some (percentage t - percentage_units p))) /\
    ((exists m, In m (output t) /\ is_warning m = true) ->
     percentage t <> percentage_units p /\ 0 < partial_count t).
Proof.
  intros Hvalid. split.
  { intros e0 c0 w0 pc pct order e w c Hpc Horder Hloop He.
    rewrite (compensate_unfold _ _ _ _ _ _ _ _ _ _ _ Hpc Horder Hloop).
    destruct (Z.eqb_spec e 0); [contradiction | reflexivity]. }
  destruct (get_weights dns_name identifier rr (keys identifier_versions))
    as [[d c] s] eqn:Hgw.
  destruct ((c =? 0) && (percentage_units p =? 0)) eqn:Hpath.
  - apply andb_true_iff in Hpath. destruct Hpath as [Hc Hp].
    apply Z.eqb_eq in Hc, Hp. subst c.
    destruct (run_disable identifier_versions dns_name identifier lb_dns_name
                rr p d s Hgw Hp) as (b & okm & Hrun & _ & Hokm).
    eexists. split; [exact Hrun|]. cbn [percentage output partial_count].
    split; [intros H; now rewrite Hp in H|].
    intros (m & [<-|[<-|[<-|[]]]] & Hm); try discriminate.
    subst okm. destruct (weighted dns_name rr); discriminate.
  - destruct (run_calculated identifier_versions dns_name identifier lb_dns_name
                rr p d c s Hvalid Hgw Hpath)
      as (p' & w & calc & warnings & b & okm & Hrun & Hokm & _ & _ & _ & Hidw
          & _ & Hcases).
    eexists. split; [exact Hrun|].
    cbn [percentage output partial_count new_record_weights calculated].
    destruct Hcases as [(-> & -> & -> & _ & _)|[(Hc & -> & -> & _)
                       |(Hc & Hne & -> & Hcomp)]].
    + split.
      * intros Hne. left. cbn [Z.eqb andb] in Hpath. apply Z.eqb_neq in Hpath.
        destruct Hvalid as (H0 & H100 & _).
        pose proof (percentage_units_range p H0 H100).
        repeat split; try lia.
        intros m [<-|[<-|[]]]; [reflexivity | exact Hokm].
      * intros (m & [<-|[<-|[]]] & Hm); [discriminate | congruence].
    + split; [intros H; now contradiction H|].
      intros (m & [<-|[<-|[]]] & Hm); [discriminate | congruence].
    + split.
      * intros _. right. repeat split; [exact Hc | now left | exact Hidw|].
        exists calc. split; [reflexivity | exact Hcomp].
      * intros _. split; [exact Hne | exact Hc].
Qed.

Lemma boundary_surrender_witness :
  valid_invocation versions4 "app.example.org." "app-1"
    [rec_ "app-1" 0; rec_ "app-2" 1; rec_ "app-3" 5] (199 # 2) /\
  exists t,
    run4 "app-1" [rec_ "app-1" 0; rec_ "app-2" 1; rec_ "app-3" 5] (199 # 2)
      = inr t /\
    (percentage t <> percentage_units (199 # 2) ->
     (partial_count t = 0 /\ 0 < percentage_units (199 # 2) /\
      percentage t = FULL_PERCENTAGE /\
      forall m, In m (output t) -> is_warning m = false)
     \/
     (0 < partial_count t /\
      In (WarningChangingPercentage (as_percent (percentage_units (199 # 2)))
                                    (as_percent (percentage t))) (output t) /\
      get "app-1" (new_record_weights t) = Some (percentage t) /\
      exists calc, calculated t = Some calc /\
                   get "app-1" (compensations calc)
                   = Some (percentage t - percentage_units (199 # 2)))) /\
    ((exists m, In m (output t) /\ is_warning m = true) ->
     percentage t <> percentage_units (199 # 2) /\ 0 < partial_count t).
Proof.
  assert (H : valid_invocation versions4 "app.example.org." "app-1"
                [rec_ "app-1" 0; rec_ "app-2" 1; rec_ "app-3" 5] (199 # 2))
    by valid_example.
  split; [exact H|].
  exact (proj2 (boundary_surrender _ _ _ "lb"%string _ _ H)).
Defined.

(** C6 (full cutover).  Whenever the requested percentage is
    [FULL_PERCENTAGE], whatever the other identifiers and their weights, the
    operation runs to completion, the target ends at [FULL_PERCENTAGE], every
    other identifier ends at [0], every existing record of another identifier
    is in the change batch as a DELETE, and the batch upserts nothing but the
    target. *)
Theorem full_cutover_deletes_others identifier_versions dns_name identifier
    lb_dns_name rr p :
  percentage_units p = FULL_PERCENTAGE ->
  exists t,
    change_version_traffic identifier_versions dns_name identifier lb_dns_name
      rr p = inr t /\
    get identifier (new_record_weights t) = Some FULL_PERCENTAGE /\
    keys (new_record_weights t) = keys (known_record_weights t) /\
    (forall i, In i (keys (new_record_weights t)) -> i <> identifier ->
               get i (new_record_weights t) = Some 0) /\
    (forall r, In r (weighted dns_name rr) -> SetIdentifier r <> identifier ->
               In (mkChange DELETE r) (changes_of (batch t))) /\
    (forall c, In c (changes_of (batch t)) -> Action c = UPSERT ->
               SetIdentifier (ResourceRecordSet c) = identifier).
Proof.
  intros Hp.
  destruct (get_weights dns_name identifier rr (keys identifier_versions))
    as [[d c] s] eqn:Hgw.
  destruct (get_weights_facts _ _ _ _ _ _ _ Hgw) as (Hnd & Hid & _ & Hcov & _).
  destruct (calculate_full identifier_versions identifier d c s Hnd Hid)
    as (dl & Hcalc).
  rewrite calculate_new_weights_map in Hcalc by exact Hnd. cbn [fst snd] in Hcalc.
  set (w := map _ d) in Hcalc at 1.
  assert (Hkeys : keys w = keys d) by apply keys_map_values.
  assert (Hget : forall k, get k w =
            match get k d with
            | Some v => Some (new_weight dl identifier FULL_PERCENTAGE k v)
            | None => None
            end)
    by (intros k; apply (get_map_values (fun item =>
          new_weight dl identifier FULL_PERCENTAGE (fst item) (snd item)))).
  assert (Hidw : get identifier w = Some FULL_PERCENTAGE).
  { rewrite Hget. destruct (in_keys_get _ _ Hid) as [v ->].
    now rewrite new_weight_target. }
  assert (Hother : forall i, In i (keys w) -> i <> identifier -> get i w = Some 0).
  { intros i Hi Hne. rewrite Hget. rewrite Hkeys in Hi.
    destruct (in_keys_get _ _ Hi) as [v ->]. now rewrite new_weight_other_full. }
  destruct (set_new_weights_total dns_name identifier lb_dns_name w rr)
    as (b & okm & Hset & Hb & _); [now rewrite Hkeys .. |].
  eexists. split.
  { eapply change_version_traffic_calculated;
      [exact Hgw | | rewrite Hp; exact Hcalc | exact Hset].
    rewrite Hp. apply andb_false_r. }
  cbn [new_record_weights known_record_weights batch]. rewrite Hb.
  repeat split; auto.
  - intros r Hr Hne. unfold planned_changes. apply in_or_app. left.
    apply in_flat_map. exists r. unfold weighted in Hr.
    apply filter_In in Hr as Hr'. destruct Hr' as [Hin Hm].
    split; [exact Hin|]. unfold record_changes. rewrite Hm.
    rewrite Hother; [now left | | exact Hne].
    rewrite Hkeys. now apply Hcov.
  - intros ch Hch Hup. unfold planned_changes in Hch.
    apply in_app_or in Hch. destruct Hch as [Hch|Hch].
    + apply in_flat_map in Hch. destruct Hch as (r & Hr & Hch).
      unfold record_changes in Hch. destruct (matches dns_name r); [|destruct Hch].
      destruct (get (SetIdentifier r) w) as [x|] eqn:Hx; [|destruct Hch].
      destruct (string_dec (SetIdentifier r) identifier) as [Heq|Hne].
      * destruct (x =? 0); [|destruct (Weight r =? x)];
          repeat (destruct Hch as [<-|Hch]; [try discriminate; exact Heq|]);
          destruct Hch.
      * rewrite Hother in Hx; [|eapply get_keys; eauto | exact Hne].
        injection Hx as <-. cbn [Z.eqb] in Hch.
        destruct Hch as [<-|[]]. discriminate.
    + rewrite Hidw in Hch. destruct (_ && _) in Hch; [|destruct Hch].
      destruct Hch as [<-|[]]. reflexivity.
Qed.

Lemma full_cutover_deletes_others_witness :
  percentage_units (100 # 1) = FULL_PERCENTAGE /\
  exists t,
    run4 "app-3" [rec_ "app-1" 120; rec_ "app-2" 80; rec_ "app-3" 0] (100 # 1)
      = inr t /\
    get "app-3" (new_record_weights t) = Some FULL_PERCENTAGE /\
    keys (new_record_weights t) = keys (known_record_weights t) /\
    (forall i, In i (keys (new_record_weights t)) -> i <> "app-3"%string ->
               get i (new_record_weights t) = Some 0) /\
    (forall r, In r (weighted "app.example.org."
                       [rec_ "app-1" 120; rec_ "app-2" 80; rec_ "app-3" 0]) ->
               SetIdentifier r <> "app-3"%string ->
               In (mkChange DELETE r) (changes_of (batch t))) /\
    (forall c, In c (changes_of (batch t)) -> Action c = UPSERT ->
               SetIdentifier (ResourceRecordSet c) = "app-3"%string).
Proof.
  assert (H : percentage_units (100 # 1) = FULL_PERCENTAGE) by reflexivity.
  split; [exact H|].
  exact (full_cutover_deletes_others versions4 "app.example.org." "app-3" "lb"
           _ _ H).
Defined.

(** C7 (sole-survivor promote).  Whenever [partial_count] is [0] and the
    requested percentage is positive, the operation runs to completion with
    [delta = 0], the target's final weight is [FULL_PERCENTAGE], the gap
    [FULL_PERCENTAGE - percentage] is the one compensation recorded, under
    the target identifier, and no warning is printed. *)
Theorem sole_survivor_promote identifier_versions dns_name identifier
    lb_dns_name rr p :
  snd (fst (get_weights dns_name identifier rr (keys identifier_versions)))
  = 0 ->
  0 < percentage_units p ->
  exists t calc,
    change_version_traffic identifier_versions dns_name identifier lb_dns_name
      rr p = inr t /\
    partial_count t = 0 /\
    calculated t = Some calc /\
    delta calc = 0 /\
    percentage t = FULL_PERCENTAGE /\
    get identifier (new_record_weights t) = Some FULL_PERCENTAGE /\
    compensations calc = [(identifier, FULL_PERCENTAGE - percentage_units p)] /\
    forall m, In m (output t) -> is_warning m = false.
Proof.
  destruct (get_weights dns_name identifier rr (keys identifier_versions))
    as [[d c] s] eqn:Hgw.
  cbn [fst snd]. intros -> Hp.
  destruct (get_weights_facts _ _ _ _ _ _ _ Hgw) as (Hnd & Hid & _ & Hcov & _).
  pose proof (calculate_sole identifier_versions identifier d s
                (percentage_units p) Hnd Hid Hp) as Hcalc.
  rewrite calculate_new_weights_map in Hcalc by exact Hnd. cbn [fst snd] in Hcalc.
  set (w := map _ d) in Hcalc at 1.
  assert (Hkeys : keys w = keys d) by apply keys_map_values.
  destruct (set_new_weights_total dns_name identifier lb_dns_name w rr)
    as (b & okm & Hset & _ & Hokm); [now rewrite Hkeys .. |].
  eexists _, _. split.
  { eapply change_version_traffic_calculated;
      [exact Hgw | | exact Hcalc | exact Hset].
    cbn [Z.eqb andb]. apply Z.eqb_neq. lia. }
  cbn [partial_count calculated delta percentage new_record_weights
       compensations output app].
  repeat split.
  - unfold w. rewrite (get_map_values (fun item =>
      new_weight 0 identifier FULL_PERCENTAGE (fst item) (snd item))).
    destruct (in_keys_get _ _ Hid) as [v ->]. cbn [fst snd].
    now rewrite new_weight_target.
  - intros m [<-|[<-|[]]]; [reflexivity | exact Hokm].
Qed.

Lemma sole_survivor_promote_witness :
  snd (fst (get_weights "app.example.org." "app-1" [rec_ "app-1" 200]
              (keys versions4))) = 0 /\
  0 < percentage_units (50 # 1) /\
  exists t calc,
    run4 "app-1" [rec_ "app-1" 200] (50 # 1) = inr t /\
    partial_count t = 0 /\
    calculated t = Some calc /\
    delta calc = 0 /\
    percentage t = FULL_PERCENTAGE /\
    get "app-1" (new_record_weights t) = Some FULL_PERCENTAGE /\
    compensations calc
    = [("app-1"%string, FULL_PERCENTAGE - percentage_units (50 # 1))] /\
    forall m, In m (output t) -> is_warning m = false.
Proof.
  assert (H1 : snd (fst (get_weights "app.example.org." "app-1"
                           [rec_ "app-1" 200] (keys versions4))) = 0)
    by reflexivity.
  assert (H2 : 0 < percentage_units (50 # 1)) by reflexivity.
  split; [exact H1|]. split; [exact H2|].
  exact (sole_survivor_promote versions4 "app.example.org." "app-1" "lb" _ _ H1 H2).
Defined.

(** C8 (last-version disable).  Whenever [partial_count] is [0] and the
    requested percentage is [0], the operation runs to completion without
    the allocator or the compensation engine ([calculated] is [None]), every
    identifier of the weight map gets the final weight [0], "the record will
    be removed" is printed, no warning is, and the change batch consists of a
    DELETE of each weighted record of the domain name and of nothing else (no
    record is upserted to zero). *)
Theorem last_version_disable identifier_versions dns_name identifier
    lb_dns_name rr p :
  snd (fst (get_weights dns_name identifier rr (keys identifier_versions)))
  = 0 ->
  percentage_units p = 0 ->
  exists t,
    change_version_traffic identifier_versions dns_name identifier lb_dns_name
      rr p = inr t /\
    calculated t = None /\
    keys (new_record_weights t) = keys (known_record_weights t) /\
    (forall i, In i (keys (known_record_weights t)) ->
               get i (new_record_weights t) = Some 0) /\
    In (OkRecordRemoved dns_name) (output t) /\
    (forall m, In m (output t) -> is_warning m = false) /\
    changes_of (batch t) = map (mkChange DELETE) (weighted dns_name rr) /\
    (forall c, In c (changes_of (batch t)) -> Action c = DELETE).
Proof.
  destruct (get_weights dns_name identifier rr (keys identifier_versions))
    as [[d c] s] eqn:Hgw.
  cbn [fst snd]. intros -> Hp.
  destruct (run_disable identifier_versions dns_name identifier lb_dns_name
              rr p d s Hgw Hp) as (b & okm & Hrun & Hb & Hokm).
  eexists. split; [exact Hrun|].
  cbn [calculated new_record_weights known_record_weights output batch].
  repeat split.
  - apply (keys_map_values (fun _ : string * Z => 0)).
  - intros i Hi. rewrite (get_map_values (fun _ : string * Z => 0)).
    destruct (in_keys_get _ _ Hi) as [v ->]. reflexivity.
  - now left.
  - intros m [<-|[<-|[<-|[]]]]; try reflexivity.
    subst okm. now destruct (weighted dns_name rr).
  - exact Hb.
  - intros ch Hch. rewrite Hb in Hch. apply in_map_iff in Hch.
    destruct Hch as (r & <- & _). reflexivity.
Qed.

Lemma last_version_disable_witness :
  snd (fst (get_weights "app.example.org." "app-1" [rec_ "app-1" 200]
              (keys versions4))) = 0 /\
  percentage_units (0 # 1) = 0 /\
  exists t,
    run4 "app-1" [rec_ "app-1" 200] (0 # 1) = inr t /\
    calculated t = None /\
    keys (new_record_weights t) = keys (known_record_weights t) /\
    (forall i, In i (keys (known_record_weights t)) ->
               get i (new_record_weights t) = Some 0) /\
    In (OkRecordRemoved "app.example.org.") (output t) /\
    (forall m, In m (output t) -> is_warning m = false) /\
    changes_of (batch t)
      = map (mkChange DELETE) (weighted "app.example.org." [rec_ "app-1" 200]) /\
    (forall c, In c (changes_of (batch t)) -> Action c = DELETE).
Proof.
  assert (H1 : snd (fst (get_weights "app.example.org." "app-1"
                           [rec_ "app-1" 200] (keys versions4))) = 0)
    by reflexivity.
  assert (H2 : percentage_units (0 # 1) = 0) by reflexivity.
  split; [exact H1|]. split; [exact H2|].
  exact (last_version_disable versions4 "app.example.org." "app-1" "lb" _ _ H1 H2).
Defined.

(** C9 (change-set idempotence).  For every final weight map that has a
    weight for the target and for every weighted record of the domain name
    (otherwise the builder raises [KeyError]), the builder returns a batch,
    and run again on the same map, on the records as the sink holds them
    after that batch and nothing else has been applied, it returns no batch:
    nothing is submitted and "not changed" is printed. *)
Theorem change_set_idempotent dns_name identifier lb_dns_name
    new_record_weights rr :
  (forall r, In r (weighted dns_name rr) ->
             In (SetIdentifier r) (keys new_record_weights)) ->
  In identifier (keys new_record_weights) ->
  exists b printed,
    set_new_weights dns_name identifier lb_dns_name new_record_weights rr
      = inr (b, printed) /\
    set_new_weights dns_name identifier lb_dns_name new_record_weights
      (apply_batch rr b)
      = inr (None, [ActionSettingWeights dns_name; OkNotChanged]).
Proof.
  intros Hcov Hid.
  destruct (in_keys_get _ _ Hid) as [w Hw].
  destruct (applied_plan dns_name identifier lb_dns_name new_record_weights
              rr w Hcov Hw) as [Hsync Htarget].
  set (cs := planned_changes dns_name identifier lb_dns_name
               new_record_weights rr) in *.
  set (rs := fold_left apply_change cs rr) in *.
  assert (Hsecond :
    set_new_weights dns_name identifier lb_dns_name new_record_weights rs
    = inr (None, [ActionSettingWeights dns_name; OkNotChanged])).
  { rewrite set_new_weights_eq;
      [|now apply in_sync_covered | exact Hid].
    unfold planned_changes.
    rewrite (in_sync_no_changes _ _ _ Hsync), Hw. cbn [app].
    destruct (Z.ltb_spec 0 w) as [Hpos|Hle]; cbn [andb]; [|reflexivity].
    destruct (Htarget Hpos) as (y & Hy & Hm & Hyid).
    now rewrite (in_sync_keeps_target _ _ _ _ y Hsync Hy Hm Hyid). }
  rewrite set_new_weights_eq by assumption. fold cs.
  destruct cs as [|c cs'] eqn:Hcs.
  - exists None, [ActionSettingWeights dns_name; OkNotChanged].
    split; [reflexivity | exact Hsecond].
  - eexists (Some (c :: cs')), _. split; [reflexivity | exact Hsecond].
Qed.

Lemma change_set_idempotent_witness :
  (forall r, In r (weighted "app.example.org."
                     [rec_ "app-1" 100; rec_ "app-2" 60; rec_ "app-3" 40]) ->
             In (SetIdentifier r)
                (keys [("app-1", 0); ("app-2", 61); ("app-3", 40);
                       ("app-4", 99)]%string)) /\
  In "app-4"%string
     (keys [("app-1", 0); ("app-2", 61); ("app-3", 40); ("app-4", 99)]%string) /\
  exists b printed,
    set_new_weights "app.example.org." "app-4" "lb"
      [("app-1", 0); ("app-2", 61); ("app-3", 40); ("app-4", 99)]%string
      [rec_ "app-1" 100; rec_ "app-2" 60; rec_ "app-3" 40]
      = inr (b, printed) /\
    set_new_weights "app.example.org." "app-4" "lb"
      [("app-1", 0); ("app-2", 61); ("app-3", 40); ("app-4", 99)]%string
      (apply_batch [rec_ "app-1" 100; rec_ "app-2" 60; rec_ "app-3" 40] b)
      = inr (None, [ActionSettingWeights "app.example.org."; OkNotChanged]).
Proof.
  assert (H1 : forall r,
            In r (weighted "app.example.org."
                    [rec_ "app-1" 100; rec_ "app-2" 60; rec_ "app-3" 40]) ->
            In (SetIdentifier r)
               (keys [("app-1", 0); ("app-2", 61); ("app-3", 40);
                      ("app-4", 99)]%string)).
  { intros r Hr. simpl in Hr.
    repeat (destruct Hr as [<-|Hr]; [simpl; tauto|]). destruct Hr. }
  assert (H2 : In "app-4"%string
                 (keys [("app-1", 0); ("app-2", 61); ("app-3", 40);
                        ("app-4", 99)]%string)) by (simpl; tauto).
  split; [exact H1|]. split; [exact H2|].
  exact (change_set_idempotent "app.example.org." "app-4" "lb" _ _ H1 H2).
Defined.

(** C10 (truncation of the requested percentage).  For a percentage [p] in
    [[0, 100]] the fixed-point target [int(p * PERCENT_RESOLUTION)] is the
    largest integer not above [p * PERCENT_RESOLUTION], between [0] and
    [FULL_PERCENTAGE].  A request with [0 < p < 1 / PERCENT_RESOLUTION] is
    therefore a request for [0]: the operation does exactly what it does for
    [p = 0], and when no other identifier is live it takes the
    last-version-disable branch, not the promotion. *)
Theorem requested_percentage_truncation identifier_versions dns_name identifier
    lb_dns_name rr (p : Q) :
  (0 <= p)%Q -> (p <= 100)%Q ->
  0 <= percentage_units p <= FULL_PERCENTAGE /\
  (inject_Z (percentage_units p) <= p * inject_Z PERCENT_RESOLUTION)%Q /\
  (p * inject_Z PERCENT_RESOLUTION < inject_Z (percentage_units p) + 1)%Q /\
  ((0 < p)%Q -> (p < 1 / inject_Z PERCENT_RESOLUTION)%Q ->
   percentage_units p = 0 /\
   change_version_traffic identifier_versions dns_name identifier lb_dns_name
     rr p
   = change_version_traffic identifier_versions dns_name identifier lb_dns_name
       rr 0 /\
   (snd (fst (get_weights dns_name identifier rr (keys identifier_versions)))
    = 0 ->
    exists t,
      change_version_traffic identifier_versions dns_name identifier
        lb_dns_name rr p = inr t /\
      calculated t = None /\
      In (OkRecordRemoved dns_name) (output t) /\
      forall i, In i (keys (known_record_weights t)) ->
                get i (new_record_weights t) = Some 0)).
Proof.
  intros H0 H100.
  destruct (percentage_units_floor p H0) as (Hlo & Hle & Hlt).
  split; [now apply percentage_units_range|].
  split; [exact Hle|]. split; [exact Hlt|].
  intros Hpos Hsmall.
  assert (Hu : percentage_units p = 0).
  { destruct p as [n d]. revert Hlo Hle Hsmall.
    generalize (percentage_units (n # d)). intros u.
    unfold Qle, Qlt, Qdiv, Qinv, inject_Z, PERCENT_RESOLUTION.
    cbn [Qnum Qden Qmult Z.mul Pos.mul]. rewrite Pos.mul_1_r, !Z.mul_1_r.
    intros. nia. }
  split; [exact Hu|]. split.
  - unfold change_version_traffic. rewrite Hu. reflexivity.
  - destruct (get_weights dns_name identifier rr (keys identifier_versions))
      as [[d c] s] eqn:Hgw.
    cbn [fst snd]. intros ->.
    destruct (run_disable identifier_versions dns_name identifier lb_dns_name
                rr p d s Hgw Hu) as (b & okm & Hrun & _).
    eexists. split; [exact Hrun|].
    cbn [calculated output known_record_weights new_record_weights].
    repeat split; [now left|].
    intros i Hi. rewrite (get_map_values (fun _ : string * Z => 0)).
    destruct (in_keys_get _ _ Hi) as [v ->]. reflexivity.
Qed.

Lemma requested_percentage_truncation_witness :
  (0 <= 1 # 4)%Q /\ (1 # 4 <= 100)%Q /\
  0 <= percentage_units (1 # 4) <= FULL_PERCENTAGE /\
  (inject_Z (percentage_units (1 # 4))
   <= (1 # 4) * inject_Z PERCENT_RESOLUTION)%Q /\
  ((1 # 4) * inject_Z PERCENT_RESOLUTION
   < inject_Z (percentage_units (1 # 4)) + 1)%Q /\
  percentage_units (1 # 4) = 0 /\
  run4 "app-1" [rec_ "app-1" 200] (1 # 4) = run4 "app-1" [rec_ "app-1" 200] 0 /\
  exists t,
    run4 "app-1" [rec_ "app-1" 200] (1 # 4) = inr t /\
    calculated t = None /\
    In (OkRecordRemoved "app.example.org.") (output t) /\
    forall i, In i (keys (known_record_weights t)) ->
              get i (new_record_weights t) = Some 0.
Proof.
  assert (H0 : (0 <= 1 # 4)%Q) by (unfold Qle; simpl; lia).
  assert (H100 : (1 # 4 <= 100)%Q) by (unfold Qle; simpl; lia).
  assert (Hpos : (0 < 1 # 4)%Q) by reflexivity.
  assert (Hsmall : (1 # 4 < 1 / inject_Z PERCENT_RESOLUTION)%Q) by reflexivity.
  split; [exact H0|]. split; [exact H100|].
  destruct (requested_percentage_truncation versions4 "app.example.org."
              "app-1" "lb" [rec_ "app-1" 200] (1 # 4) H0 H100)
    as (Hrange & Hle & Hlt & Hzero).
  destruct (Hzero Hpos Hsmall) as (Hu & Hsame & Hdisable).
  split; [exact Hrange|]. split; [exact Hle|]. split; [exact Hlt|].
  split; [exact Hu|]. split; [exact Hsame|].
  exact (Hdisable eq_refl).
Defined.

(* ========================================================================= *)
(** * Further properties of the engine *)

(* ------------------------------------------------------------------------- *)
(** ** The weight snapshot ([get_weights]) *)

Lemma scan_keys_exact dns_name identifier rr st k :
  In k (keys (fst (fst (fold_left (get_weights_step dns_name identifier) rr st))))
  <-> In k (keys (fst (fst st)))
      \/ In k (map SetIdentifier (weighted dns_name rr)).
Proof.
  unfold weighted. revert st. induction rr as [|r rr IH]; intros [[d c] s].
  - simpl. tauto.
  - cbn [fold_left filter]. rewrite IH, get_weights_step_eq.
    destruct (matches dns_name r); cbn [fst map]; [|tauto].
    rewrite in_keys_set. cbn [In]. intuition auto.
Qed.

Lemma scan_keeps_other dns_name identifier rr st k :
  (forall r, In r rr -> matches dns_name r = true -> SetIdentifier r <> k) ->
  get k (fst (fst (fold_left (get_weights_step dns_name identifier) rr st)))
  = get k (fst (fst st)).
Proof.
  revert st. induction rr as [|r rr IH]; intros [[d c] s] H; [reflexivity|].
  cbn [fold_left]. rewrite IH by (intros; apply H; auto; now right).
  rewrite get_weights_step_eq. destruct (matches dns_name r) eqn:Hm; [|reflexivity].
  cbn [fst]. apply get_set_other. apply H; [now left | exact Hm].
Qed.

Lemma zero_extension_get_old d d' k :
  zero_extension d d' -> In k (keys d) -> get k d' = get k d.
Proof. intros (z & -> & _) H. now apply get_app_l. Qed.

Lemma get_weights_extension dns_name identifier rr all_identifiers :
  zero_extension (fst (fst (scanned dns_name identifier rr)))
    (fst (fst (get_weights dns_name identifier rr all_identifiers))).
Proof.
  rewrite get_weights_unfold. cbn [fst].
  eapply zero_extension_trans;
    [apply set_default_zero_extension | apply defaults_zero_extension].
Qed.

(** X1.  The weight map is total over the known identifiers: its keys are
    pairwise distinct and are exactly the set identifiers of the weighted
    records of [dns_name], the target and [all_identifiers]; an identifier
    that has no weighted record is stored with weight [0]. *)
Theorem get_weights_total_map dns_name identifier rr all_identifiers :
  let d := fst (fst (get_weights dns_name identifier rr all_identifiers)) in
  NoDup (keys d) /\
  (forall k, In k (keys d) <->
             In k (map SetIdentifier (weighted dns_name rr))
             \/ k = identifier \/ In k all_identifiers) /\
  (forall k, In k (keys d) ->
             ~ In k (map SetIdentifier (weighted dns_name rr)) ->
             get k d = Some 0).
Proof.
  intros d.
  destruct (get_weights dns_name identifier rr all_identifiers)
    as [[d0 c] s] eqn:Hgw.
  destruct (get_weights_facts _ _ _ _ _ _ _ Hgw) as (Hnd & Hid & Hall & Hcov & _).
  pose proof (get_weights_extension dns_name identifier rr all_identifiers) as Hext.
  rewrite Hgw in Hext. cbn [fst] in Hext, d. subst d.
  assert (Hscan : forall k,
    In k (keys (fst (fst (scanned dns_name identifier rr)))) <->
    In k (map SetIdentifier (weighted dns_name rr))).
  { intros k. unfold scanned. rewrite scan_keys_exact. cbn. tauto. }
  assert (Hback : forall k, In k (keys d0) ->
    In k (map SetIdentifier (weighted dns_name rr))
    \/ k = identifier \/ In k all_identifiers).
  { rewrite get_weights_unfold in Hgw. injection Hgw as Hd0 _ _. subst d0.
    apply (fold_left_invariant _
      (fun d => forall k, In k (keys d) ->
         In k (map SetIdentifier (weighted dns_name rr))
         \/ k = identifier \/ In k all_identifiers)).
    - intros k. unfold set_default_zero. destruct (mem identifier _).
      + intros Hk. left. now apply Hscan.
      + intros Hk. apply in_keys_set in Hk. destruct Hk as [->|Hk]; [auto|].
        left. now apply Hscan.
    - intros d i Hi H k. unfold set_default_zero. destruct (mem i d); [apply H|].
      intros Hk. apply in_keys_set in Hk. destruct Hk as [->|Hk]; auto. }
  split; [exact Hnd|]. split.
  - intros k. split; [apply Hback|].
    intros [Hk|[->|Hk]]; auto.
    apply in_map_iff in Hk. destruct Hk as (r & <- & Hr). now apply Hcov.
  - intros k Hk Hnone. destruct (in_keys_get _ _ Hk) as [v Hv].
    destruct (zero_extension_get _ _ _ _ Hext Hv) as [Hold|[_ ->]];
      [|exact Hv].
    exfalso. apply Hnone, Hscan. eapply get_keys; eauto.
Qed.

(** X2.  The weight stored for an identifier is the weight of its last
    weighted record in the record list (a record whose [Weight] is [0] counts
    as weight [0]). *)
Theorem get_weights_reads_last_record dns_name identifier all_identifiers
    before r after :
  matches dns_name r = true ->
  (forall r', In r' after -> matches dns_name r' = true ->
              SetIdentifier r' <> SetIdentifier r) ->
  get (SetIdentifier r)
      (fst (fst (get_weights dns_name identifier (before ++ r :: after)
                   all_identifiers)))
  = Some (Weight r).
Proof.
  intros Hm Hafter.
  pose proof (get_weights_extension dns_name identifier (before ++ r :: after)
                all_identifiers) as Hext.
  assert (Hscan : get (SetIdentifier r)
            (fst (fst (scanned dns_name identifier (before ++ r :: after))))
          = Some (Weight r)).
  { unfold scanned. rewrite fold_left_app. cbn [fold_left].
    rewrite scan_keeps_other by exact Hafter.
    destruct (fold_left _ before _) as [[d c] s].
    rewrite get_weights_step_eq, Hm. cbn [fst]. apply get_set_same. }
  rewrite (zero_extension_get_old _ _ _ Hext); [exact Hscan|].
  eapply get_keys; eauto.
Qed.

Lemma get_weights_reads_last_record_witness :
  matches "app.example.org." (rec_ "app-2" 60) = true /\
  (forall r', In r' [rec_ "app-3" 40] ->
              matches "app.example.org." r' = true ->
              SetIdentifier r' <> SetIdentifier (rec_ "app-2" 60)) /\
  get "app-2"
      (fst (fst (get_weights "app.example.org." "app-1"
                   ([rec_ "app-1" 100] ++ rec_ "app-2" 60 :: [rec_ "app-3" 40])
                   (keys versions4))))
  = Some 60.
Proof.
  assert (H1 : matches "app.example.org." (rec_ "app-2" 60) = true)
    by reflexivity.
  assert (H2 : forall r', In r' [rec_ "app-3" 40] ->
                matches "app.example.org." r' = true ->
                SetIdentifier r' <> SetIdentifier (rec_ "app-2" 60)).
  { intros r' [<-|[]] _. simpl. discriminate. }
  split; [exact H1|]. split; [exact H2|].
  exact (get_weights_reads_last_record "app.example.org." "app-1"
           (keys versions4) [rec_ "app-1" 100] (rec_ "app-2" 60)
           [rec_ "app-3" 40] H1 H2).
Defined.

(** X3.  With one weighted record per identifier, [partial_count] is the
    number and [partial_sum] the total weight of the identifiers other than
    the target that carry a positive weight in the returned map: the target
    and the disabled versions are left out of both. *)
Theorem partial_counts_live_others dns_name identifier rr all_identifiers :
  unique_identifiers dns_name rr ->
  let '(d, partial_count, partial_sum) :=
    get_weights dns_name identifier rr all_identifiers in
  partial_count = Z.of_nat (List.length (partial_items identifier d)) /\
  partial_sum = sum_values (partial_items identifier d) /\
  (forall i w, In (i, w) (partial_items identifier d) <->
               In (i, w) d /\ i <> identifier /\ 0 < w) /\
  partial_count <= partial_sum.
Proof.
  intros Hu.
  destruct (get_weights dns_name identifier rr all_identifiers)
    as [[d c] s] eqn:Hgw.
  destruct (get_weights_partial _ _ _ _ _ _ _ Hu Hgw) as [Hc Hs].
  assert (Hitems : forall i w, In (i, w) (partial_items identifier d) <->
                     In (i, w) d /\ i <> identifier /\ 0 < w).
  { intros i w. unfold partial_items, is_partial. rewrite filter_In.
    cbn [fst snd]. rewrite andb_true_iff, negb_true_iff, String.eqb_neq.
    rewrite Z.ltb_lt. tauto. }
  split; [exact Hc|]. split; [exact Hs|]. split; [exact Hitems|].
  subst c s. clear - Hitems.
  assert (H : forall l : dict Z, (forall i w, In (i, w) l -> 0 < w) ->
            Z.of_nat (List.length l) <= sum_values l).
  { induction l as [|[j v] l IH]; intros Hl.
    - unfold sum_values. simpl. lia.
    - change ((j, v) :: l) with ([(j, v)] ++ l). rewrite sum_values_app.
      rewrite length_app, Nat2Z.inj_add.
      assert (0 < v) by (apply (Hl j); now left).
      assert (Z.of_nat (List.length l) <= sum_values l)
        by (apply IH; intros; eapply Hl; right; eauto).
      change (sum_values [(j, v)]) with (v + 0).
      change (List.length [(j, v)]) with 1%nat. lia. }
  apply H. intros i w Hin. apply Hitems in Hin. tauto.
Qed.

Lemma partial_counts_live_others_witness :
  unique_identifiers "app.example.org."
    [rec_ "app-1" 100; rec_ "app-2" 60; rec_ "app-3" 40; rec_ "app-4" 0] /\
  let '(d, partial_count, partial_sum) :=
    get_weights "app.example.org." "app-1"
      [rec_ "app-1" 100; rec_ "app-2" 60; rec_ "app-3" 40; rec_ "app-4" 0]
      (keys versions4) in
  partial_count = Z.of_nat (List.length (partial_items "app-1" d)) /\
  partial_sum = sum_values (partial_items "app-1" d) /\
  (forall i w, In (i, w) (partial_items "app-1" d) <->
               In (i, w) d /\ i <> "app-1"%string /\ 0 < w) /\
  partial_count <= partial_sum.
Proof.
  assert (H : unique_identifiers "app.example.org."
                [rec_ "app-1" 100; rec_ "app-2" 60; rec_ "app-3" 40;
                 rec_ "app-4" 0]).
  { unfold unique_identifiers. simpl.
    repeat (constructor; [simpl; intuition discriminate|]). constructor. }
  split; [exact H|].
  exact (partial_counts_live_others "app.example.org." "app-1" _
           (keys versions4) H).
Defined.

(** X4.  Records of another name or of another type have no influence:
    [get_weights] gives the same result on the record list and on its
    weighted records of [dns_name] alone. *)
Theorem get_weights_ignores_other_records dns_name identifier rr
    all_identifiers :
  get_weights dns_name identifier rr all_identifiers
  = get_weights dns_name identifier (weighted dns_name rr) all_identifiers.
Proof.
  unfold get_weights.
  assert (H : forall st,
    fold_left (get_weights_step dns_name identifier) rr st
    = fold_left (get_weights_step dns_name identifier) (weighted dns_name rr) st).
  { unfold weighted. induction rr as [|r rr IH]; intros [[d c] s];
      [reflexivity|].
    cbn [fold_left filter]. destruct (matches dns_name r) eqn:Hm.
    - cbn [fold_left]. apply IH.
    - rewrite get_weights_step_eq, Hm. apply IH. }
  now rewrite H.
Qed.

(* ------------------------------------------------------------------------- *)
(** ** The allocation ([calculate_new_weights]) *)

Lemma mem_cons {V : Type} (k i : string) (v : V) (d : dict V) :
  mem k ((i, v) :: d) = if String.eqb k i then true else mem k d.
Proof. unfold mem. simpl. now destruct (String.eqb k i). Qed.

Lemma sum_values_cons (i : string) (v : Z) (d : dict Z) :
  sum_values ((i, v) :: d) = v + sum_values d.
Proof. reflexivity. Qed.

(** Short of a full cutover the allocated weights add up to the target's
    percentage plus the floored weights of the partial population. *)
Lemma allocation_sum delta identifier percentage (d : dict Z) :
  percentage <> FULL_PERCENTAGE -> NoDup (keys d) ->
  sum_values (map (fun item => (fst item,
     new_weight delta identifier percentage (fst item) (snd item))) d)
  = (if mem identifier d then percentage else 0)
    + sum_values (map (fun item => (fst item, Z.max 1 (snd item + delta)))
                      (partial_items identifier d)).
Proof.
  intros Hnf. induction d as [|[i w] d IH]; intros Hnd; [reflexivity|].
  inversion Hnd as [|? ? Hni Hnd']; subst.
  cbn [map fst snd]. rewrite sum_values_cons, IH by exact Hnd'.
  rewrite mem_cons. unfold partial_items. cbn [filter]. unfold is_partial at 2.
  cbn [fst snd]. rewrite (String.eqb_sym identifier i).
  destruct (String.eqb_spec i identifier) as [->|Hne]; cbn [negb andb].
  - rewrite new_weight_target.
    assert (Hm : mem identifier d = false).
    { destruct (mem identifier d) eqn:Hm; [|reflexivity].
      apply mem_true in Hm. contradiction. }
    rewrite Hm. lia.
  - destruct (Z.ltb_spec 0 w) as [Hw|Hw].
    + rewrite new_weight_other_partial by assumption.
      cbn [map fst snd]. rewrite sum_values_cons. lia.
    + rewrite new_weight_other_zero by assumption. lia.
Qed.

Lemma floored_sum delta (l : dict Z) :
  sum_values l + Z.of_nat (List.length l) * delta
  <= sum_values (map (fun item => (fst item, Z.max 1 (snd item + delta))) l)
  /\ ((forall i w, In (i, w) l -> 1 <= w + delta) ->
      sum_values (map (fun item => (fst item, Z.max 1 (snd item + delta))) l)
      = sum_values l + Z.of_nat (List.length l) * delta).
Proof.
  induction l as [|[i w] l [IHle IHeq]].
  - split; [|intros _]; unfold sum_values; simpl; lia.
  - cbn [map fst snd List.length]. rewrite !sum_values_cons, Nat2Z.inj_succ.
    split; [lia|]. intros H.
    rewrite IHeq by (intros; eapply H; right; eauto).
    assert (1 <= w + delta) by (apply (H i); now left). lia.
Qed.

Lemma mem_of_in {V : Type} (k : string) (d : dict V) :
  In k (keys d) -> mem k d = true.
Proof. apply mem_true. Qed.

(** X5.  When no live version is pushed to the floor, the allocation moves
    every live version other than the target by the same [delta], and what it
    leaves for compensation is the remainder of the truncated division that
    defines [delta]: the error [FULL_PERCENTAGE - total] equals
    [(FULL_PERCENTAGE - percentage - partial_sum) rem partial_count] and is
    smaller in magnitude than [partial_count]. *)
Theorem allocation_error_is_remainder identifier percentage (d : dict Z)
    partial_count partial_sum :
  NoDup (keys d) -> In identifier (keys d) ->
  percentage <> FULL_PERCENTAGE ->
  0 < partial_count ->
  partial_count = Z.of_nat (List.length (partial_items identifier d)) ->
  partial_sum = sum_values (partial_items identifier d) ->
  let delta :=
    Z.quot (FULL_PERCENTAGE - percentage - partial_sum) partial_count in
  (forall i w, In (i, w) (partial_items identifier d) -> 1 <= w + delta) ->
  let new_record_weights :=
    fst (calculate_new_weights delta identifier d percentage) in
  (forall i w, In (i, w) (partial_items identifier d) ->
               get i new_record_weights = Some (w + delta)) /\
  FULL_PERCENTAGE - sum_values new_record_weights
  = Z.rem (FULL_PERCENTAGE - percentage - partial_sum) partial_count /\
  Z.abs (FULL_PERCENTAGE - sum_values new_record_weights) < partial_count.
Proof.
  intros Hnd Hid Hnf Hpc Hcount Hsum delta Hfloor new_record_weights.
  unfold new_record_weights. rewrite calculate_new_weights_map by exact Hnd.
  cbn [fst]. split; [|split].
  - intros i w Hin. specialize (Hfloor i w Hin).
    apply filter_In in Hin. destruct Hin as [Hin Hp].
    unfold is_partial in Hp. cbn [fst snd] in Hp.
    apply andb_true_iff in Hp. destruct Hp as [Hne Hw].
    apply negb_true_iff, String.eqb_neq in Hne. apply Z.ltb_lt in Hw.
    rewrite (get_map_values (fun item =>
      new_weight delta identifier percentage (fst item) (snd item))).
    rewrite (in_get_nodup _ _ _ Hnd Hin). cbn [fst snd].
    rewrite new_weight_other_partial by assumption. f_equal. lia.
  - rewrite allocation_sum, (mem_of_in _ _ Hid) by assumption.
    rewrite (proj2 (floored_sum delta _) Hfloor), <- Hcount, <- Hsum.
    pose proof (Z.quot_rem' (FULL_PERCENTAGE - percentage - partial_sum)
                  partial_count) as Hqr.
    fold delta in Hqr. lia.
  - rewrite allocation_sum, (mem_of_in _ _ Hid) by assumption.
    rewrite (proj2 (floored_sum delta _) Hfloor), <- Hcount, <- Hsum.
    pose proof (Z.quot_rem' (FULL_PERCENTAGE - percentage - partial_sum)
                  partial_count) as Hqr.
    fold delta in Hqr.
    pose proof (Z.rem_bound_abs (FULL_PERCENTAGE - percentage - partial_sum)
                  partial_count ltac:(lia)) as Hb.
    replace (FULL_PERCENTAGE - (percentage + (partial_sum + partial_count * delta)))
      with (Z.rem (FULL_PERCENTAGE - percentage - partial_sum) partial_count)
      by lia.
    lia.
Qed.

Lemma allocation_error_is_remainder_witness :
  NoDup (keys weights3) /\ In "app-1"%string (keys weights3) /\
  99 <> FULL_PERCENTAGE /\ 0 < 2 /\
  2 = Z.of_nat (List.length (partial_items "app-1" weights3)) /\
  100 = sum_values (partial_items "app-1" weights3) /\
  (forall i w, In (i, w) (partial_items "app-1" weights3) ->
               1 <= w + Z.quot (FULL_PERCENTAGE - 99 - 100) 2) /\
  (forall i w, In (i, w) (partial_items "app-1" weights3) ->
     get i (fst (calculate_new_weights
                   (Z.quot (FULL_PERCENTAGE - 99 - 100) 2) "app-1" weights3 99))
     = Some (w + Z.quot (FULL_PERCENTAGE - 99 - 100) 2)) /\
  FULL_PERCENTAGE
  - sum_values (fst (calculate_new_weights
                       (Z.quot (FULL_PERCENTAGE - 99 - 100) 2) "app-1" weights3 99))
  = Z.rem (FULL_PERCENTAGE - 99 - 100) 2 /\
  Z.abs (FULL_PERCENTAGE
         - sum_values (fst (calculate_new_weights
                              (Z.quot (FULL_PERCENTAGE - 99 - 100) 2)
                              "app-1" weights3 99))) < 2.
Proof.
  assert (H1 : NoDup (keys weights3)).
  { simpl. repeat (constructor; [simpl; intuition discriminate|]). constructor. }
  assert (H2 : In "app-1"%string (keys weights3)) by (simpl; tauto).
  assert (H3 : 99 <> FULL_PERCENTAGE) by (vm_compute; discriminate).
  assert (H4 : 0 < 2) by lia.
  assert (H5 : 2 = Z.of_nat (List.length (partial_items "app-1" weights3)))
    by reflexivity.
  assert (H6 : 100 = sum_values (partial_items "app-1" weights3)) by reflexivity.
  assert (H7 : forall i w, In (i, w) (partial_items "app-1" weights3) ->
                 1 <= w + Z.quot (FULL_PERCENTAGE - 99 - 100) 2).
  { intros i w Hin. simpl in Hin.
    destruct Hin as [[= <- <-]|[[= <- <-]|[]]]; vm_compute; discriminate. }
  repeat (split; [assumption|]).
  exact (allocation_error_is_remainder "app-1" 99 weights3 2 100
           H1 H2 H3 H4 H5 H6 H7).
Defined.

(* ------------------------------------------------------------------------- *)
(** ** The order of the compensation candidates *)

From Stdlib Require Import Permutation Sorted.
From Stdlib Require OrderedTypeEx.

Lemma ltb_lt (a b : string) :
  String.ltb a b = true <-> OrderedTypeEx.String_as_OT.lt a b.
Proof.
  rewrite <- OrderedTypeEx.String_as_OT.cmp_lt.
  unfold String.ltb, OrderedTypeEx.String_as_OT.cmp.
  destruct (String.compare a b); split; congruence.
Qed.

Lemma ltb_irrefl (a : string) : String.ltb a a = false.
Proof.
  unfold String.ltb.
  assert (H : String.compare a a = Eq)
    by (apply (OrderedTypeEx.String_as_OT.cmp_eq a a); reflexivity).
  now rewrite H.
Qed.

Lemma ltb_asym (a b : string) :
  String.ltb a b = true -> String.ltb b a = false.
Proof.
  unfold String.ltb. rewrite (String.compare_antisym a b).
  destruct (String.compare b a); simpl; congruence.
Qed.

(** [x < z] and [not (y < z)] give [x < y]. *)
Lemma ltb_le_trans (x y z : string) :
  String.ltb x z = true -> String.ltb y z = false -> String.ltb x y = true.
Proof.
  intros Hxz Hyz. unfold String.ltb in Hyz.
  destruct (String.compare y z) eqn:Hc; try discriminate.
  - apply String.compare_eq_iff in Hc. now subst.
  - rewrite String.compare_antisym in Hc.
    assert (Hzy : String.ltb z y = true).
    { unfold String.ltb. destruct (String.compare z y); simpl in Hc;
        congruence. }
    apply ltb_lt. eapply OrderedTypeEx.String_as_OT.lt_trans;
      apply ltb_lt; eauto.
Qed.

Lemma insert_desc_perm x l : Permutation (insert_desc x l) (x :: l).
Proof.
  induction l as [|y l IH]; simpl; [reflexivity|].
  destruct (String.ltb (snd x) (snd y)); [|reflexivity].
  rewrite IH. apply perm_swap.
Qed.

Lemma sort_desc_perm l : Permutation (sort_desc l) l.
Proof.
  induction l as [|x l IH]; simpl; [reflexivity|].
  rewrite insert_desc_perm. now constructor.
Qed.

Lemma insert_desc_sorted x l :
  StronglySorted (fun a b => String.ltb (snd a) (snd b) = false) l ->
  StronglySorted (fun a b => String.ltb (snd a) (snd b) = false)
                 (insert_desc x l).
Proof.
  induction 1 as [|y l Hl IH Hy]; simpl; [repeat constructor|].
  destruct (String.ltb (snd x) (snd y)) eqn:Hxy.
  - constructor; [exact IH|].
    rewrite Forall_forall in *. intros z Hz.
    apply in_insert_desc in Hz. destruct Hz as [->|Hz]; [|now apply Hy].
    now apply ltb_asym.
  - constructor; [now constructor|].
    constructor; [exact Hxy|].
    rewrite Forall_forall in *. intros z Hz.
    destruct (String.ltb (snd x) (snd z)) eqn:Hxz; [|reflexivity].
    rewrite (ltb_le_trans _ _ _ Hxz (Hy z Hz)) in Hxy. discriminate.
Qed.

Lemma sort_desc_sorted l :
  StronglySorted (fun a b => String.ltb (snd a) (snd b) = false) (sort_desc l).
Proof.
  induction l as [|x l IH]; simpl; [constructor | now apply insert_desc_sorted].
Qed.

(** The sort is stable: the elements of one version keep their order. *)
Lemma insert_desc_stable v x l :
  filter (fun kv => String.eqb (snd kv) v) (insert_desc x l)
  = filter (fun kv => String.eqb (snd kv) v) (x :: l).
Proof.
  induction l as [|y l IH]; [reflexivity|]. cbn [insert_desc].
  destruct (String.ltb (snd x) (snd y)) eqn:Hxy; [|reflexivity].
  cbn [filter] in *. rewrite IH.
  destruct (String.eqb_spec (snd x) v) as [Hx|Hx];
    destruct (String.eqb_spec (snd y) v) as [Hy|Hy]; try reflexivity.
  rewrite Hx, Hy, ltb_irrefl in Hxy. discriminate.
Qed.

Lemma sort_desc_stable v l :
  filter (fun kv => String.eqb (snd kv) v) (sort_desc l)
  = filter (fun kv => String.eqb (snd kv) v) l.
Proof.
  induction l as [|x l IH]; [reflexivity|]. cbn [sort_desc fold_right].
  fold (sort_desc l). rewrite insert_desc_stable. cbn [filter].
  now rewrite IH.
Qed.

Lemma with_versions_spec identifier_versions ks kvs :
  with_versions identifier_versions ks = inr kvs ->
  map fst kvs = ks /\
  forall kv, In kv kvs -> get (fst kv) identifier_versions = Some (snd kv).
Proof.
  revert kvs. induction ks as [|k ks IH]; intros kvs; cbn [with_versions].
  - intros [= <-]. split; [reflexivity | intros ? []].
  - unfold lookup. destruct (get k identifier_versions) as [v|] eqn:Hv;
      [|discriminate].
    cbn [bind ret]. destruct (with_versions identifier_versions ks) as [e|rest];
      [discriminate|].
    cbn [bind]. intros [= <-]. destruct (IH rest eq_refl) as [Hfst Hget].
    split; [simpl; now rewrite Hfst|].
    intros kv [<-|Hin]; [exact Hv | now apply Hget].
Qed.

Lemma strongly_sorted_weaken {A : Type} (R R' : A -> A -> Prop) (l : list A) :
  (forall a b, In a l -> In b l -> R a b -> R' a b) ->
  StronglySorted R l -> StronglySorted R' l.
Proof.
  intros H Hs. induction Hs as [|a l Hl IH Ha]; constructor.
  - apply IH. intros; apply H; auto; now right.
  - rewrite Forall_forall in *. intros b Hb.
    apply H; [now left | now right | now apply Ha].
Qed.

Lemma strongly_sorted_map {A B : Type} (f : A -> B) (R : B -> B -> Prop)
    (l : list A) :
  StronglySorted (fun a b => R (f a) (f b)) l -> StronglySorted R (map f l).
Proof.
  induction 1 as [|a l Hl IH Ha]; simpl; constructor; [exact IH|].
  rewrite Forall_forall in *. intros b Hb. apply in_map_iff in Hb.
  destruct Hb as (x & <- & Hx). now apply Ha.
Qed.

Lemma filter_has_version identifier_versions v (l : list (string * string)) :
  (forall kv, In kv l -> get (fst kv) identifier_versions = Some (snd kv)) ->
  filter (has_version identifier_versions v) (map fst l)
  = map fst (filter (fun kv => String.eqb (snd kv) v) l).
Proof.
  induction l as [|kv l IH]; intros H; [reflexivity|].
  cbn [map filter]. rewrite IH by (intros; apply H; now right).
  unfold has_version at 1. rewrite (H kv (or_introl eq_refl)).
  now destruct (String.eqb (snd kv) v).
Qed.

(** X9.  The compensation candidates are the keys of the weight map, each
    once, ordered newest version first (no candidate is followed by one of a
    greater version string), and candidates of the same version keep the
    order they have in the map. *)
Theorem candidates_newest_first identifier_versions ks order :
  sorted_by_version_desc identifier_versions ks = inr order ->
  Permutation order ks /\
  StronglySorted (not_older identifier_versions) order /\
  forall v, filter (has_version identifier_versions v) order
            = filter (has_version identifier_versions v) ks.
Proof.
  unfold sorted_by_version_desc.
  destruct (with_versions identifier_versions ks) as [e|kvs] eqn:Hwv;
    [discriminate|].
  cbn [bind ret]. intros [= <-].
  destruct (with_versions_spec _ _ _ Hwv) as [Hfst Hget].
  assert (Hget' : forall kv, In kv (sort_desc kvs) ->
            get (fst kv) identifier_versions = Some (snd kv))
    by (intros kv Hkv; apply Hget; now apply in_sort_desc).
  split; [|split].
  - rewrite <- Hfst. apply Permutation_map, sort_desc_perm.
  - apply strongly_sorted_map.
    eapply strongly_sorted_weaken; [|apply sort_desc_sorted].
    intros a b Ha Hb Hab va vb Hva Hvb. cbn beta in Hab.
    rewrite (Hget' a Ha) in Hva. rewrite (Hget' b Hb) in Hvb. congruence.
  - intros v. rewrite filter_has_version by exact Hget'.
    rewrite sort_desc_stable.
    rewrite <- (filter_has_version identifier_versions v kvs Hget).
    now rewrite Hfst.
Qed.

Lemma candidates_newest_first_witness :
  sorted_by_version_desc versions4 ["app-1"; "app-4"; "app-2"]%string
    = inr ["app-4"; "app-2"; "app-1"]%string /\
  Permutation ["app-4"; "app-2"; "app-1"]%string
              ["app-1"; "app-4"; "app-2"]%string /\
  StronglySorted (not_older versions4) ["app-4"; "app-2"; "app-1"]%string /\
  forall v, filter (has_version versions4 v) ["app-4"; "app-2"; "app-1"]%string
            = filter (has_version versions4 v)
                     ["app-1"; "app-4"; "app-2"]%string.
Proof.
  assert (H : sorted_by_version_desc versions4
                ["app-1"; "app-4"; "app-2"]%string
              = inr ["app-4"; "app-2"; "app-1"]%string) by reflexivity.
  split; [exact H|]. exact (candidates_newest_first _ _ _ H).
Defined.

Lemma candidates_order_perm identifier_versions ks order :
  sorted_by_version_desc identifier_versions ks = inr order ->
  Permutation order ks.
Proof.
  unfold sorted_by_version_desc.
  destruct (with_versions identifier_versions ks) as [e|kvs] eqn:Hwv;
    [discriminate|].
  cbn [bind ret]. intros [= <-].
  destruct (with_versions_spec _ _ _ Hwv) as [Hfst _].
  rewrite <- Hfst. apply Permutation_map, sort_desc_perm.
Qed.

Lemma with_versions_keyerror identifier_versions before k after :
  (forall x, In x before -> In x (keys identifier_versions)) ->
  ~ In k (keys identifier_versions) ->
  with_versions identifier_versions (before ++ k :: after) = inl (KeyError k).
Proof.
  intros Hbefore Hk. induction before as [|x before IH]; cbn [app with_versions].
  - unfold lookup. apply get_none_keys in Hk. now rewrite Hk.
  - destruct (in_keys_get x identifier_versions) as [v Hv];
      [apply Hbefore; now left|].
    unfold lookup. rewrite Hv. cbn [bind ret].
    rewrite IH by (intros; apply Hbefore; now right). reflexivity.
Qed.

(** X8.  [compensate] needs the version of every key of the weight map, the
    target's included: when the registry lacks one, it raises [KeyError] for
    the first such key in the order of the map, whatever the error to
    distribute. *)
Theorem compensate_unknown_identifier calculation_error compensations
    identifier new_record_weights partial_count percentage identifier_versions
    before k after :
  partial_count <> 0 ->
  keys new_record_weights = before ++ k :: after ->
  (forall x, In x before -> In x (keys identifier_versions)) ->
  ~ In k (keys identifier_versions) ->
  compensate calculation_error compensations identifier new_record_weights
    partial_count percentage identifier_versions
  = inl (KeyError k).
Proof.
  intros Hpc Hkeys Hbefore Hk. unfold compensate.
  destruct (Z.eqb_spec partial_count 0); [contradiction|].
  cbn [negb assert bind ret]. unfold sorted_by_version_desc.
  rewrite Hkeys, with_versions_keyerror by assumption. reflexivity.
Qed.

Lemma compensate_unknown_identifier_witness :
  2 <> 0 /\
  keys [("app-1", 99); ("app-9", 50); ("app-3", 50)]%string
  = ["app-1"%string] ++ "app-9"%string :: ["app-3"%string] /\
  (forall x, In x ["app-1"%string] -> In x (keys versions4)) /\
  ~ In "app-9"%string (keys versions4) /\
  compensate 1 empty "app-1"
    [("app-1", 99); ("app-9", 50); ("app-3", 50)]%string 2 99 versions4
  = inl (KeyError "app-9").
Proof.
  assert (H1 : 2 <> 0) by lia.
  assert (H2 : keys [("app-1", 99); ("app-9", 50); ("app-3", 50)]%string
               = ["app-1"%string] ++ "app-9"%string :: ["app-3"%string])
    by reflexivity.
  assert (H3 : forall x, In x ["app-1"%string] -> In x (keys versions4))
    by (intros x [<-|[]]; simpl; tauto).
  assert (H4 : ~ In "app-9"%string (keys versions4))
    by (simpl; intuition discriminate).
  repeat (split; [assumption|]).
  exact (compensate_unknown_identifier 1 empty "app-1" _ 2 99 versions4
           _ _ _ H1 H2 H3 H4).
Defined.

(* ------------------------------------------------------------------------- *)
(** ** The compensation ([compensate]) *)

(** With distinct candidates every identifier takes at most one step. *)
Lemma compensate_loop_once part identifier candidates :
  NoDup candidates ->
  forall e0 w0 c0 e w c,
    compensate_loop part identifier candidates (e0, w0, c0) = inr (e, w, c) ->
    forall i,
      (get i w = get i w0 /\ get i c = get i c0) \/
      (i <> identifier /\ In i candidates /\
       exists x, get i w0 = Some x /\ 0 < x + part /\
                 get i w = Some (x + part) /\ get i c = Some part).
Proof.
  induction 1 as [|j rest Hj Hnd IH]; intros e0 w0 c0 e w c Hrun i;
    cbn [compensate_loop] in Hrun.
  - injection Hrun as <- <- <-. now left.
  - assert (Hweak : forall w1 c1,
      (get i w = get i w1 /\ get i c = get i c1) \/
      (i <> identifier /\ In i rest /\
       exists x, get i w1 = Some x /\ 0 < x + part /\
                 get i w = Some (x + part) /\ get i c = Some part) ->
      w1 = w0 -> c1 = c0 ->
      (get i w = get i w0 /\ get i c = get i c0) \/
      (i <> identifier /\ In i (j :: rest) /\
       exists x, get i w0 = Some x /\ 0 < x + part /\
                 get i w = Some (x + part) /\ get i c = Some part)).
    { intros w1 c1 [H|(Hi & Hin & H)] -> ->; [now left|].
      right. split; [exact Hi|]. split; [now right | exact H]. }
    destruct (String.eqb_spec j identifier) as [Hjid|Hjid];
      [exact (Hweak _ _ (IH _ _ _ _ _ _ Hrun i) eq_refl eq_refl)|].
    unfold lookup in Hrun. destruct (get j w0) as [x|] eqn:Hx; [|discriminate].
    cbn [bind ret] in Hrun.
    destruct (Z.leb_spec (x + part) 0) as [Hle|Hgt];
      [exact (Hweak _ _ (IH _ _ _ _ _ _ Hrun i) eq_refl eq_refl)|].
    assert (Hstep : i = j ->
      get i (set j (x + part) w0) = Some (x + part) /\
      get i (set j part c0) = Some part).
    { intros ->. now rewrite !get_set_same. }
    assert (Hother : i <> j ->
      get i (set j (x + part) w0) = get i w0 /\
      get i (set j part c0) = get i c0).
    { intros Hne. rewrite !get_set_other by congruence. auto. }
    destruct (e0 - part =? 0).
    + injection Hrun as <- <- <-.
      destruct (string_dec i j) as [Hij|Hij].
      * right. subst i. split; [exact Hjid|]. split; [now left|].
        exists x. rewrite !get_set_same. auto.
      * left. now apply Hother.
    + destruct (IH _ _ _ _ _ _ Hrun i) as [[Hw Hc]|(Hi & Hin & y & Hy & H)].
      * destruct (string_dec i j) as [Hij|Hij].
        { right. subst i. split; [exact Hjid|]. split; [now left|].
          exists x. destruct (Hstep eq_refl) as [Hw1 Hc1].
          rewrite Hw, Hc, Hw1, Hc1. auto. }
        { left. destruct (Hother Hij) as [Hw1 Hc1]. now rewrite Hw, Hc. }
      * assert (Hij : i <> j) by (intros ->; contradiction).
        right. split; [exact Hi|]. split; [now right|].
        exists y. destruct (Hother Hij) as [Hw1 _]. rewrite <- Hw1. auto.
Qed.

(** X10.  On a weight map with distinct keys that are all registered and in
    which the target holds [percentage], [compensate] returns; it keeps the
    key set; the final weights add up to the initial ones plus the error it
    was given; the target's weight is the percentage it returns; and every
    other identifier is either left alone or moved by exactly one step
    [part], to a positive weight, with that step recorded as its
    compensation. *)
Theorem compensate_adjusts_once calculation_error compensations identifier
    new_record_weights partial_count percentage identifier_versions :
  partial_count <> 0 ->
  NoDup (keys new_record_weights) ->
  (forall k, In k (keys new_record_weights) ->
             In k (keys identifier_versions)) ->
  get identifier new_record_weights = Some percentage ->
  exists percentage' w c printed,
    compensate calculation_error compensations identifier new_record_weights
      partial_count percentage identifier_versions
    = inr (percentage', w, c, printed) /\
    keys w = keys new_record_weights /\
    sum_values w = sum_values new_record_weights + calculation_error /\
    get identifier w = Some percentage' /\
    forall i, i <> identifier ->
      (get i w = get i new_record_weights /\ get i c = get i compensations) \/
      (exists x,
         get i new_record_weights = Some x /\
         0 < x + compensate_part calculation_error partial_count /\
         get i w = Some (x + compensate_part calculation_error partial_count) /\
         get i c = Some (compensate_part calculation_error partial_count)).
Proof.
  intros Hpc Hnd Hreg Hid.
  destruct (sorted_by_version_desc_total _ _ Hreg) as (order & Horder & Hin).
  pose proof (candidates_order_perm _ _ _ Horder) as Hperm.
  destruct (compensate_loop_spec (compensate_part calculation_error partial_count)
              identifier order calculation_error new_record_weights
              compensations)
    as (e & w & c & Hloop & Hk & Hsum & Hidw & _).
  { intros k Hk. now apply Hin. }
  pose proof (compensate_loop_once _ identifier order
                (Permutation_NoDup (Permutation_sym Hperm) Hnd)
                _ _ _ _ _ _ Hloop) as Honce.
  rewrite (compensate_unfold _ _ _ _ _ _ _ _ _ _ _ Hpc Horder Hloop).
  rewrite Hid in Hidw.
  assert (Hrest : forall i, i <> identifier ->
    (get i w = get i new_record_weights /\ get i c = get i compensations) \/
    (exists x,
       get i new_record_weights = Some x /\
       0 < x + compensate_part calculation_error partial_count /\
       get i w = Some (x + compensate_part calculation_error partial_count) /\
       get i c = Some (compensate_part calculation_error partial_count))).
  { intros i _. destruct (Honce i) as [H|(_ & _ & H)]; auto. }
  destruct (Z.eqb_spec e 0) as [->|He].
  - exists percentage, w, c, []. repeat split; auto. lia.
  - eexists _, _, _, _. split; [reflexivity|]. repeat split.
    + rewrite set_present; [exact Hk | eapply get_keys; eauto].
    + rewrite (sum_values_set _ _ _ _ Hidw). lia.
    + apply get_set_same.
    + intros i Hi. rewrite !get_set_other by congruence. now apply Hrest.
Qed.

Lemma compensate_adjusts_once_witness :
  2 <> 0 /\
  NoDup (keys [("app-1", 199); ("app-2", 1); ("app-3", 3); ("app-4", 0)]%string) /\
  (forall k,
     In k (keys [("app-1", 199); ("app-2", 1); ("app-3", 3);
                 ("app-4", 0)]%string) ->
     In k (keys versions4)) /\
  get "app-1" [("app-1", 199); ("app-2", 1); ("app-3", 3); ("app-4", 0)]%string
  = Some 199 /\
  exists percentage' w c printed,
    compensate (-3) empty "app-1"
      [("app-1", 199); ("app-2", 1); ("app-3", 3); ("app-4", 0)]%string
      2 199 versions4
    = inr (percentage', w, c, printed) /\
    keys w
    = keys [("app-1", 199); ("app-2", 1); ("app-3", 3); ("app-4", 0)]%string /\
    sum_values w
    = sum_values [("app-1", 199); ("app-2", 1); ("app-3", 3);
                  ("app-4", 0)]%string + -3 /\
    get "app-1" w = Some percentage' /\
    forall i, i <> "app-1"%string ->
      (get i w
       = get i [("app-1", 199); ("app-2", 1); ("app-3", 3); ("app-4", 0)]%string
       /\ get i c = get i empty) \/
      (exists x,
         get i [("app-1", 199); ("app-2", 1); ("app-3", 3);
                ("app-4", 0)]%string = Some x /\
         0 < x + compensate_part (-3) 2 /\
         get i w = Some (x + compensate_part (-3) 2) /\
         get i c = Some (compensate_part (-3) 2)).
Proof.
  assert (H1 : 2 <> 0) by lia.
  assert (H2 : NoDup (keys [("app-1", 199); ("app-2", 1); ("app-3", 3);
                            ("app-4", 0)]%string)).
  { simpl. repeat (constructor; [simpl; intuition discriminate|]). constructor. }
  assert (H3 : forall k,
            In k (keys [("app-1", 199); ("app-2", 1); ("app-3", 3);
                        ("app-4", 0)]%string) ->
            In k (keys versions4)) by (simpl; tauto).
  assert (H4 : get "app-1" [("app-1", 199); ("app-2", 1); ("app-3", 3);
                            ("app-4", 0)]%string = Some 199) by reflexivity.
  repeat (split; [assumption|]).
  exact (compensate_adjusts_once (-3) empty "app-1" _ 2 199 versions4
           H1 H2 H3 H4).
Defined.

(** Whatever property of the weight map the steps and the assignment to the
    target preserve holds of the map [compensate] returns. *)
Lemma compensate_loop_preserves part identifier (Q : dict Z -> Prop) :
  (forall w i x, Q w -> i <> identifier -> get i w = Some x ->
                 0 < x + part -> Q (set i (x + part) w)) ->
  forall candidates e0 w0 c0 e w c,
    compensate_loop part identifier candidates (e0, w0, c0) = inr (e, w, c) ->
    Q w0 -> Q w.
Proof.
  intros Hstep. induction candidates as [|j rest IH];
    intros e0 w0 c0 e w c Hrun HQ; cbn [compensate_loop] in Hrun.
  - now injection Hrun as <- <- <-.
  - destruct (String.eqb_spec j identifier) as [Hj|Hj];
      [exact (IH _ _ _ _ _ _ Hrun HQ)|].
    unfold lookup in Hrun. destruct (get j w0) as [x|] eqn:Hx; [|discriminate].
    cbn [bind ret] in Hrun.
    destruct (Z.leb_spec (x + part) 0) as [Hle|Hgt];
      [exact (IH _ _ _ _ _ _ Hrun HQ)|].
    pose proof (Hstep _ _ _ HQ Hj Hx Hgt) as HQ'.
    destruct (e0 - part =? 0).
    + now injection Hrun as <- <- <-.
    + exact (IH _ _ _ _ _ _ Hrun HQ').
Qed.

Lemma compensate_preserves (Q : dict Z -> Prop) calculation_error
    compensations identifier new_record_weights partial_count percentage
    identifier_versions percentage' w c printed :
  (forall w i x, Q w -> i <> identifier -> get i w = Some x ->
     0 < x + compensate_part calculation_error partial_count ->
     Q (set i (x + compensate_part calculation_error partial_count) w)) ->
  (forall w v, Q w -> Q (set identifier v w)) ->
  compensate calculation_error compensations identifier new_record_weights
    partial_count percentage identifier_versions
  = inr (percentage', w, c, printed) ->
  Q new_record_weights -> Q w.
Proof.
  intros Hstep Htarget Hrun HQ. unfold compensate in Hrun.
  destruct (negb (partial_count =? 0)); [|discriminate].
  cbn [assert bind ret] in Hrun.
  destruct (sorted_by_version_desc _ _) as [?|order]; [discriminate|].
  cbn [bind] in Hrun.
  destruct (compensate_loop _ _ _ _) as [?|[[e1 w1] c1]] eqn:Hloop;
    [discriminate|].
  cbn [bind] in Hrun.
  pose proof (compensate_loop_preserves _ _ Q Hstep _ _ _ _ _ _ _ Hloop HQ)
    as HQ1.
  destruct (negb (e1 =? 0)); cbn [assert bind ret Z.eqb] in Hrun.
  - injection Hrun as <- <- <- <-. now apply Htarget.
  - destruct (e1 =? 0); [|discriminate]. cbn [assert bind ret] in Hrun.
    now injection Hrun as <- <- <- <-.
Qed.

(** A positive error below the number of candidates is distributed in steps
    of one unit and leaves no residue. *)
Lemma compensate_loop_unit identifier candidates :
  forall e w c,
    0 < e ->
    e <= Z.of_nat (List.length
           (filter (fun k => negb (String.eqb k identifier)) candidates)) ->
    (forall i, In i candidates -> i <> identifier ->
               exists x, get i w = Some x /\ 0 <= x) ->
    exists w' c',
      compensate_loop 1 identifier candidates (e, w, c) = inr (0, w', c').
Proof.
  induction candidates as [|j rest IH]; intros e w c He Hlen Hw.
  - simpl in Hlen. lia.
  - cbn [compensate_loop filter] in *.
    destruct (String.eqb_spec j identifier) as [Hj|Hj]; cbn [negb] in Hlen.
    + apply IH; auto. intros; apply Hw; auto. now right.
    + destruct (Hw j (or_introl eq_refl) Hj) as (x & Hx & Hx0).
      unfold lookup. rewrite Hx. cbn [bind ret].
      destruct (Z.leb_spec (x + 1) 0); [lia|].
      destruct (Z.eqb_spec (e - 1) 0) as [->|Hne]; [eauto|].
      apply IH; [lia | cbn [List.length] in Hlen; lia|].
      intros i Hi Hne'. destruct (string_dec j i) as [<-|Hji].
      * exists (x + 1). rewrite get_set_same. split; [reflexivity | lia].
      * rewrite get_set_other by exact Hji. apply Hw; auto. now right.
Qed.

Lemma filter_length_perm {A : Type} (f : A -> bool) (l l' : list A) :
  Permutation l l' ->
  List.length (filter f l) = List.length (filter f l').
Proof.
  induction 1 as [|x l l' _ IH|x y l|l l' l'' _ IH1 _ IH2]; simpl.
  - reflexivity.
  - destruct (f x); simpl; congruence.
  - destruct (f x), (f y); reflexivity.
  - congruence.
Qed.

Lemma partial_le_others identifier (d : dict Z) :
  (List.length (partial_items identifier d)
   <= List.length (filter (fun k => negb (String.eqb k identifier)) (keys d)))%nat.
Proof.
  unfold partial_items, is_partial.
  induction d as [|[i w] d IH]; simpl; [lia|].
  destruct (negb (String.eqb i identifier)); simpl; [|exact IH].
  destruct (0 <? w); simpl; lia.
Qed.

Lemma partial_count_le_sum identifier (d : dict Z) :
  Z.of_nat (List.length (partial_items identifier d))
  <= sum_values (partial_items identifier d).
Proof.
  unfold partial_items, is_partial.
  induction d as [|[i w] d IH]; [unfold sum_values; simpl; lia|].
  cbn [filter fst snd].
  destruct (negb (String.eqb i identifier)); cbn [andb]; [|exact IH].
  destruct (Z.ltb_spec 0 w); [|exact IH].
  cbn [List.length]. rewrite sum_values_cons, Nat2Z.inj_succ. lia.
Qed.

(* ------------------------------------------------------------------------- *)
(** ** The calculation with other live versions *)


(** What a successful calculation with [partial_count > 0] went through. *)
Lemma calculate_compensated identifier_versions identifier d partial_count
    partial_sum percentage percentage' w calc printed :
  0 < partial_count ->
  calculate identifier_versions identifier d partial_count partial_sum
    percentage = inr (percentage', w, calc, printed) ->
  let dl := Z.quot (FULL_PERCENTAGE - percentage - partial_sum) partial_count in
  let alloc := fst (calculate_new_weights dl identifier d percentage) in
  delta calc = dl /\
  ((FULL_PERCENTAGE - sum_values alloc = 0 /\ percentage' = percentage /\
    w = alloc /\ printed = [] /\ compensations calc = empty)
   \/
   (FULL_PERCENTAGE - sum_values alloc <> 0 /\
    compensate (FULL_PERCENTAGE - sum_values alloc) empty identifier alloc
      partial_count percentage identifier_versions
    = inr (percentage', w, compensations calc, printed))).
Proof.
  intros Hpc Hrun dl alloc. unfold calculate in Hrun.
  destruct (Z.eqb_spec partial_count 0) as [|_]; [lia|]. cbn [negb] in Hrun.
  destruct partial_count as [|pc|pc]; try lia.
  rewrite int_of_Q_div in Hrun. fold dl in Hrun.
  unfold alloc.
  destruct (calculate_new_weights dl identifier d percentage) as [new dls].
  cbn [fst]. 
  destruct (Z.eqb_spec (FULL_PERCENTAGE - sum_values new) 0) as [He|He];
    cbn [negb andb] in Hrun.
  - cbn [bind ret] in Hrun.
    destruct (sum_values new =? FULL_PERCENTAGE); [|discriminate].
    cbn [assert bind ret] in Hrun. injection Hrun as <- <- <- <-.
    split; [reflexivity|]. left. auto.
  - destruct (FULL_PERCENTAGE - sum_values new <? FULL_PERCENTAGE).
    + destruct (compensate _ _ _ _ _ _ _) as [?|[[[p1 w1] c1] pr1]];
        [discriminate|].
      cbn [bind] in Hrun.
      destruct (sum_values w1 =? FULL_PERCENTAGE); [|discriminate].
      cbn [assert bind ret] in Hrun. injection Hrun as <- <- <- <-.
      split; [reflexivity|]. right. auto.
    + cbn [bind ret] in Hrun.
      destruct (Z.eqb_spec (sum_values new) FULL_PERCENTAGE); [lia|].
      discriminate.
Qed.

(** The run that follows a successful calculation. *)
Lemma run_of_calculate identifier_versions dns_name identifier lb_dns_name rr p
    d c s percentage' w calc printed :
  get_weights dns_name identifier rr (keys identifier_versions) = (d, c, s) ->
  (c =? 0) && (percentage_units p =? 0) = false ->
  calculate identifier_versions identifier d c s (percentage_units p)
    = inr (percentage', w, calc, printed) ->
  keys w = keys d ->
  exists b ok_message,
    change_version_traffic identifier_versions dns_name identifier lb_dns_name
      rr p
    = inr (mkTrafficChange d c s percentage' w (Some calc) b
             (printed ++ [ActionSettingWeights dns_name; ok_message])) /\
    is_warning ok_message = false /\
    changes_of b = planned_changes dns_name identifier lb_dns_name w rr.
Proof.
  intros Hgw Hpath Hcalc Hkeys.
  destruct (get_weights_facts _ _ _ _ _ _ _ Hgw) as (_ & Hid & _ & Hcov & _).
  destruct (set_new_weights_total dns_name identifier lb_dns_name w rr)
    as (b & okm & Hset & Hb & Hok); [now rewrite Hkeys .. |].
  exists b, okm. split; [|split; assumption].
  eapply change_version_traffic_calculated; eauto.
Qed.

(** X6.  Lowering or keeping the target's share is always honoured exactly.
    On a valid invocation with other live versions, when the requested
    percentage and the weights of the other live versions do not exceed
    [FULL_PERCENTAGE] together, the operation returns with the requested
    percentage as the target's final weight and without a warning: the
    rounding remainder is handed out one unit at a time and never reaches
    the boundary case. *)
Theorem request_honoured_when_freeing_weight identifier_versions dns_name
    identifier lb_dns_name rr p :
  valid_invocation identifier_versions dns_name identifier rr p ->
  0 < snd (fst (get_weights dns_name identifier rr (keys identifier_versions))) ->
  percentage_units p
  + snd (get_weights dns_name identifier rr (keys identifier_versions))
  <= FULL_PERCENTAGE ->
  exists t,
    change_version_traffic identifier_versions dns_name identifier lb_dns_name
      rr p = inr t /\
    percentage t = percentage_units p /\
    get identifier (new_record_weights t) = Some (percentage_units p) /\
    sum_values (new_record_weights t) = FULL_PERCENTAGE /\
    forall m, In m (output t) -> is_warning m = false.
Proof.
  intros Hvalid.
  destruct (get_weights dns_name identifier rr (keys identifier_versions))
    as [[d c] s] eqn:Hgw.
  cbn [fst snd]. intros Hc Hroom.
  pose proof Hvalid as (Hp0 & Hp100 & Hidreg & Hreg & Huniq).
  destruct (get_weights_facts _ _ _ _ _ _ _ Hgw) as (Hnd & Hid & _ & _ & _ & _).
  destruct (get_weights_partial _ _ _ _ _ _ _ Huniq Hgw) as [Hcount Hsum].
  pose proof (get_weights_registered _ _ _ _ _ _ _ Hidreg Hreg Hgw) as Hregd.
  destruct (percentage_units_range p Hp0 Hp100) as [Hu0 _].
  pose proof (partial_count_le_sum identifier d) as Hcs.
  set (P := percentage_units p) in *.
  assert (Hnf : P <> FULL_PERCENTAGE) by lia.
  assert (Hpath : (c =? 0) && (P =? 0) = false)
    by (destruct (Z.eqb_spec c 0); [lia | reflexivity]).
  destruct (calculate_general identifier_versions identifier d c s P
              Hnd Hid Hregd Hc Hu0)
    as (p' & w & calc & printed & Hcalc & Hsumw & Hkeys & Hidw & _).
  { apply partial_items_witness. lia. }
  destruct (calculate_compensated _ _ _ _ _ _ _ _ _ _ Hc Hcalc) as [_ Hwent].
  set (dl := Z.quot (FULL_PERCENTAGE - P - s) c) in *.
  assert (Hexact : p' = P /\ printed = []).
  { destruct Hwent as [(_ & -> & _ & -> & _)|[Herr Hcomp]]; [auto|].
    rewrite calculate_new_weights_map in Herr, Hcomp by exact Hnd.
    cbn [fst] in Herr, Hcomp.
    set (alloc := map _ d) in *.
    assert (Hdl : 0 <= dl) by (apply Z.quot_pos; lia).
    assert (Htotal : sum_values alloc = P + (s + c * dl)).
    { unfold alloc. rewrite allocation_sum, (mem_of_in _ _ Hid) by assumption.
      rewrite (proj2 (floored_sum dl _)), <- Hcount, <- Hsum; [reflexivity|].
      intros i x Hin. apply filter_In in Hin. destruct Hin as [_ Hpart].
      unfold is_partial in Hpart. cbn [fst snd] in Hpart.
      apply andb_true_iff in Hpart. destruct Hpart as [_ Hx].
      apply Z.ltb_lt in Hx. lia. }
    pose proof (Z.quot_rem' (FULL_PERCENTAGE - P - s) c) as Hqr. fold dl in Hqr.
    pose proof (Z.rem_bound_pos (FULL_PERCENTAGE - P - s) c ltac:(lia) Hc) as Hrem.
    set (err := FULL_PERCENTAGE - sum_values alloc) in *.
    assert (Herr_range : 0 < err < c) by lia.
    assert (Hpart : compensate_part err c = 1).
    { rewrite compensate_part_quot by exact Hc.
      destruct (Z.ltb_spec 0 err); [|lia].
      rewrite Z.quot_small by lia. reflexivity. }
    assert (Hkalloc : keys alloc = keys d) by apply keys_map_values.
    destruct (sorted_by_version_desc_total identifier_versions (keys alloc))
      as (order & Horder & Hin).
    { intros k Hk. apply Hregd. now rewrite <- Hkalloc. }
    pose proof (candidates_order_perm _ _ _ Horder) as Hperm.
    assert (Hlen : err <= Z.of_nat (List.length
              (filter (fun k => negb (String.eqb k identifier)) order))).
    { rewrite (filter_length_perm _ _ _ Hperm), Hkalloc.
      pose proof (partial_le_others identifier d). lia. }
    assert (Hnonneg : forall i, In i order -> i <> identifier ->
              exists x, get i alloc = Some x /\ 0 <= x).
    { intros i Hi Hne. apply Hin in Hi. destruct (in_keys_get _ _ Hi) as [x Hx].
      exists x. split; [exact Hx|]. apply get_in in Hx.
      apply in_map_iff in Hx. destruct Hx as ([k0 v0] & [= <- <-] & _).
      now apply new_weight_nonneg. }
    destruct (compensate_loop_unit identifier order err alloc empty
                ltac:(lia) Hlen Hnonneg) as (w' & c' & Hloop).
    rewrite <- Hpart in Hloop.
    assert (Hc0 : c <> 0) by lia.
    rewrite (compensate_unfold _ _ _ _ _ P _ _ _ _ _ Hc0 Horder Hloop)
      in Hcomp.
    cbn [Z.eqb] in Hcomp. now injection Hcomp as <- _ _ <-. }
  destruct Hexact as [-> ->].
  destruct (run_of_calculate _ _ _ lb_dns_name _ _ _ _ _ _ _ _ _
              Hgw Hpath Hcalc Hkeys) as (b & okm & Hrun & Hok & _).
  eexists. split; [exact Hrun|].
  cbn [percentage new_record_weights output app].
  repeat split; auto.
  intros m [<-|[<-|[]]]; [reflexivity | exact Hok].
Qed.

Lemma request_honoured_when_freeing_weight_witness :
  valid_invocation versions4 "app.example.org." "app-1"
    [rec_ "app-1" 100; rec_ "app-2" 50; rec_ "app-3" 50] (99 # 2) /\
  0 < snd (fst (get_weights "app.example.org." "app-1"
                  [rec_ "app-1" 100; rec_ "app-2" 50; rec_ "app-3" 50]
                  (keys versions4))) /\
  percentage_units (99 # 2)
  + snd (get_weights "app.example.org." "app-1"
           [rec_ "app-1" 100; rec_ "app-2" 50; rec_ "app-3" 50]
           (keys versions4))
  <= FULL_PERCENTAGE /\
  exists t,
    run4 "app-1" [rec_ "app-1" 100; rec_ "app-2" 50; rec_ "app-3" 50] (99 # 2)
      = inr t /\
    percentage t = percentage_units (99 # 2) /\
    get "app-1" (new_record_weights t) = Some (percentage_units (99 # 2)) /\
    sum_values (new_record_weights t) = FULL_PERCENTAGE /\
    forall m, In m (output t) -> is_warning m = false.
Proof.
  assert (H1 : valid_invocation versions4 "app.example.org." "app-1"
                 [rec_ "app-1" 100; rec_ "app-2" 50; rec_ "app-3" 50] (99 # 2))
    by valid_example.
  assert (H2 : 0 < snd (fst (get_weights "app.example.org." "app-1"
                  [rec_ "app-1" 100; rec_ "app-2" 50; rec_ "app-3" 50]
                  (keys versions4)))) by reflexivity.
  assert (H3 : percentage_units (99 # 2)
               + snd (get_weights "app.example.org." "app-1"
                        [rec_ "app-1" 100; rec_ "app-2" 50; rec_ "app-3" 50]
                        (keys versions4))
               <= FULL_PERCENTAGE) by (vm_compute; discriminate).
  repeat (split; [assumption|]).
  exact (request_honoured_when_freeing_weight versions4 "app.example.org."
           "app-1" "lb" _ _ H1 H2 H3).
Defined.



(* ------------------------------------------------------------------------- *)
(** ** The change batch ([set_new_weights]) *)

Lemma set_new_weights_loop_covered dns_name identifier new_record_weights rr :
  forall st st',
    set_new_weights_loop dns_name identifier new_record_weights rr st
      = inr st' ->
    forall r, In r (weighted dns_name rr) ->
              In (SetIdentifier r) (keys new_record_weights).
Proof.
  unfold weighted. induction rr as [|r0 rr IH]; intros [changes did] st' Hrun r Hr;
    [destruct Hr|].
  cbn [set_new_weights_loop set_new_weights_step filter] in *.
  destruct (matches dns_name r0) eqn:Hm.
  - unfold lookup in Hrun.
    destruct (get (SetIdentifier r0) new_record_weights) as [w|] eqn:Hw;
      [|discriminate].
    cbn [bind ret] in Hrun.
    destruct Hr as [<-|Hr]; [eapply get_keys; eauto|].
    destruct (negb (w =? 0)); cbn [bind ret] in Hrun; eapply IH; eauto.
  - cbn [bind ret] in Hrun. eapply IH; eauto.
Qed.

(** A run of [set_new_weights] that returns has found every key it needs. *)
Lemma set_new_weights_covered dns_name identifier lb_dns_name
    new_record_weights rr b printed :
  set_new_weights dns_name identifier lb_dns_name new_record_weights rr
    = inr (b, printed) ->
  (forall r, In r (weighted dns_name rr) ->
             In (SetIdentifier r) (keys new_record_weights)) /\
  In identifier (keys new_record_weights).
Proof.
  unfold set_new_weights. intros Hrun.
  destruct (set_new_weights_loop _ _ _ rr _) as [?|[changes did]] eqn:Hloop;
    [discriminate|].
  cbn [bind] in Hrun. split.
  - eapply set_new_weights_loop_covered; eauto.
  - unfold lookup in Hrun.
    destruct (get identifier new_record_weights) eqn:Hw; [|discriminate].
    eapply get_keys; eauto.
Qed.

Lemma set_new_weights_changes dns_name identifier lb_dns_name
    new_record_weights rr b printed :
  set_new_weights dns_name identifier lb_dns_name new_record_weights rr
    = inr (b, printed) ->
  changes_of b
  = planned_changes dns_name identifier lb_dns_name new_record_weights rr /\
  (b = None <-> planned_changes dns_name identifier lb_dns_name
                  new_record_weights rr = []).
Proof.
  intros Hrun. destruct (set_new_weights_covered _ _ _ _ _ _ _ Hrun) as [Hcov Hid].
  rewrite set_new_weights_eq in Hrun by assumption.
  destruct (planned_changes _ _ _ _ _) as [|c cs]; injection Hrun as <- _;
    split; try reflexivity; split; congruence.
Qed.

(** X11.  Whenever [set_new_weights] returns, its batch mentions nothing but
    weighted records of [dns_name]: every change is the DELETE of an existing
    record, unchanged, whose identifier has the final weight [0]; or the
    UPSERT of an existing record in which only the weight is replaced, by a
    final weight that is non-zero and differs from the stored one; or the
    creation of the target's record (CNAME, TTL 20, one value
    [lb_dns_name]) with the target's positive final weight.  There is at most
    one change per weighted record, plus one for the target. *)
Theorem batch_touches_only_weighted_records dns_name identifier lb_dns_name
    new_record_weights rr b printed :
  set_new_weights dns_name identifier lb_dns_name new_record_weights rr
    = inr (b, printed) ->
  (forall c, In c (changes_of b) ->
     (Action c = DELETE /\ In (ResourceRecordSet c) (weighted dns_name rr) /\
      get (SetIdentifier (ResourceRecordSet c)) new_record_weights = Some 0)
     \/
     (Action c = UPSERT /\
      exists r w, In r (weighted dns_name rr) /\
                  get (SetIdentifier r) new_record_weights = Some w /\
                  w <> 0 /\ Weight r <> w /\
                  ResourceRecordSet c = with_weight r w)
     \/
     (Action c = UPSERT /\
      exists w, get identifier new_record_weights = Some w /\ 0 < w /\
                ResourceRecordSet c
                = mkRecord "CNAME" dns_name identifier w 20 [lb_dns_name])) /\
  (List.length (changes_of b) <= List.length (weighted dns_name rr) + 1)%nat.
Proof.
  intros Hrun. destruct (set_new_weights_changes _ _ _ _ _ _ _ Hrun) as [-> _].
  unfold planned_changes. split.
  - intros c Hc. apply in_app_or in Hc. destruct Hc as [Hc|Hc].
    + apply in_flat_map in Hc. destruct Hc as (r & Hr & Hc).
      unfold record_changes in Hc. destruct (matches dns_name r) eqn:Hm;
        [|destruct Hc].
      assert (Hw : In r (weighted dns_name rr)) by (apply filter_In; auto).
      destruct (get (SetIdentifier r) new_record_weights) as [w|] eqn:Hget;
        [|destruct Hc].
      destruct (Z.eqb_spec w 0) as [->|Hw0].
      * destruct Hc as [<-|[]]. left. auto.
      * destruct (Z.eqb_spec (Weight r) w) as [|Hne]; [destruct Hc|].
        destruct Hc as [<-|[]]. right. left. split; [reflexivity|].
        exists r, w. auto.
    + destruct (get identifier new_record_weights) as [w|] eqn:Hget;
        [|destruct Hc].
      destruct (Z.ltb_spec 0 w); cbn [andb] in Hc; [|destruct Hc].
      destruct (negb _); [|destruct Hc]. destruct Hc as [<-|[]].
      right. right. split; [reflexivity|]. exists w. auto.
  - rewrite length_app.
    assert (Hflat : (List.length (flat_map (record_changes dns_name
                       new_record_weights) rr)
                     <= List.length (weighted dns_name rr))%nat).
    { unfold weighted. clear. induction rr as [|r rr IH]; [simpl; lia|].
      cbn [flat_map filter]. rewrite length_app. unfold record_changes at 1.
      destruct (matches dns_name r); [|simpl; lia].
      destruct (get (SetIdentifier r) new_record_weights) as [w|];
        [|simpl; lia].
      destruct (w =? 0); [simpl; lia|].
      destruct (Weight r =? w); simpl; lia. }
    destruct (get identifier new_record_weights) as [w|]; [|simpl; lia].
    destruct (_ && _); simpl; lia.
Qed.

Lemma batch_touches_only_weighted_records_witness :
  set_new_weights "app.example.org." "app-4" "lb"
    [("app-1", 0); ("app-2", 61); ("app-3", 40); ("app-4", 99)]%string
    [rec_ "app-1" 100; rec_ "app-2" 60; rec_ "app-3" 40]
  = inr (Some [mkChange DELETE (rec_ "app-1" 100);
               mkChange UPSERT (rec_ "app-2" 61);
               mkChange UPSERT (rec_ "app-4" 99)],
         [ActionSettingWeights "app.example.org."; Ok]) /\
  (List.length [mkChange DELETE (rec_ "app-1" 100);
                mkChange UPSERT (rec_ "app-2" 61);
                mkChange UPSERT (rec_ "app-4" 99)]
   <= List.length (weighted "app.example.org."
                     [rec_ "app-1" 100; rec_ "app-2" 60; rec_ "app-3" 40])
      + 1)%nat.
Proof.
  assert (H : set_new_weights "app.example.org." "app-4" "lb"
                [("app-1", 0); ("app-2", 61); ("app-3", 40);
                 ("app-4", 99)]%string
                [rec_ "app-1" 100; rec_ "app-2" 60; rec_ "app-3" 40]
              = inr (Some [mkChange DELETE (rec_ "app-1" 100);
                           mkChange UPSERT (rec_ "app-2" 61);
                           mkChange UPSERT (rec_ "app-4" 99)],
                     [ActionSettingWeights "app.example.org."; Ok]))
    by reflexivity.
  split; [exact H|].
  exact (proj2 (batch_touches_only_weighted_records _ _ _ _ _ _ _ H)).
Defined.

(** A weight found by the scan is the weight of a weighted record. *)
Lemma scan_value_from_record dns_name identifier rr k w :
  forall st,
    get k (fst (fst (fold_left (get_weights_step dns_name identifier) rr st)))
      = Some w ->
    get k (fst (fst st)) = Some w \/
    exists r, In r rr /\ matches dns_name r = true /\
              SetIdentifier r = k /\ Weight r = w.
Proof.
  induction rr as [|r rr IH]; intros [[d c] s] Hget; [now left|].
  cbn [fold_left] in Hget. apply IH in Hget.
  destruct Hget as [Hget|(r' & Hin & H)]; [|right; exists r'; split; [now right | exact H]].
  rewrite get_weights_step_eq in Hget.
  destruct (matches dns_name r) eqn:Hm; [|now left]. cbn [fst] in Hget.
  destruct (string_dec (SetIdentifier r) k) as [Heq|Hne].
  - subst k. rewrite get_set_same in Hget. injection Hget as <-.
    right. exists r. split; [now left | auto].
  - rewrite get_set_other in Hget by exact Hne. now left.
Qed.

(** X12.  Writing and reading back.  After the batch of [set_new_weights]
    has been applied to the records, [get_weights] on the resulting records
    finds no weight that contradicts the final weight map: every non-zero
    weight it reads for an identifier is that identifier's final weight, and
    a target with a positive final weight is read back with exactly that
    weight. *)
Theorem batch_then_read_back dns_name identifier lb_dns_name
    new_record_weights rr b printed all_identifiers :
  set_new_weights dns_name identifier lb_dns_name new_record_weights rr
    = inr (b, printed) ->
  let read := fst (fst (get_weights dns_name identifier (apply_batch rr b)
                          all_identifiers)) in
  (forall k w, get k read = Some w -> w <> 0 ->
               get k new_record_weights = Some w) /\
  (forall w, get identifier new_record_weights = Some w -> 0 < w ->
             get identifier read = Some w).
Proof.
  intros Hrun read.
  destruct (set_new_weights_covered _ _ _ _ _ _ _ Hrun) as [Hcov Hid].
  destruct (set_new_weights_changes _ _ _ _ _ _ _ Hrun) as [Hb Hnone].
  destruct (in_keys_get _ _ Hid) as [wt Hwt].
  destruct (applied_plan dns_name identifier lb_dns_name new_record_weights
              rr wt Hcov Hwt) as [Hsync Htarget].
  assert (Hrs : apply_batch rr b
                = fold_left apply_change
                    (planned_changes dns_name identifier lb_dns_name
                       new_record_weights rr) rr).
  { destruct b as [cs|]; cbn [apply_batch changes_of] in *; [now rewrite Hb|].
    now rewrite (proj1 Hnone eq_refl). }
  unfold read. rewrite Hrs. clear read Hrs.
  set (rs := fold_left apply_change _ rr) in *.
  pose proof (get_weights_extension dns_name identifier rs all_identifiers)
    as Hext.
  assert (Hscan : forall k w,
    get k (fst (fst (scanned dns_name identifier rs))) = Some w ->
    w <> 0 /\ get k new_record_weights = Some w).
  { intros k w Hk. apply scan_value_from_record in Hk.
    destruct Hk as [Hk|(r & Hr & Hm & <- & <-)]; [discriminate|].
    destruct (Hsync r Hr Hm) as (w' & Hw' & Hne & Heq). rewrite Heq. auto. }
  split.
  - intros k w Hk Hw0.
    destruct (zero_extension_get _ _ _ _ Hext Hk) as [Hold|[_ ->]];
      [|contradiction].
    now apply Hscan.
  - intros w Hw Hpos. rewrite Hwt in Hw. injection Hw as <-.
    destruct (Htarget Hpos) as (y & Hy & Hm & Hyid).
    assert (Hin : In identifier
                    (keys (fst (fst (scanned dns_name identifier rs))))).
    { rewrite <- Hyid. apply scan_covers. apply filter_In. auto. }
    destruct (in_keys_get _ _ Hin) as [v Hv].
    rewrite (zero_extension_get_old _ _ _ Hext Hin), Hv.
    destruct (Hscan _ _ Hv) as [_ Hv']. congruence.
Qed.

Lemma batch_then_read_back_witness :
  set_new_weights "app.example.org." "app-4" "lb"
    [("app-1", 0); ("app-2", 61); ("app-3", 40); ("app-4", 99)]%string
    [rec_ "app-1" 100; rec_ "app-2" 60; rec_ "app-3" 40]
  = inr (Some [mkChange DELETE (rec_ "app-1" 100);
               mkChange UPSERT (rec_ "app-2" 61);
               mkChange UPSERT (rec_ "app-4" 99)],
         [ActionSettingWeights "app.example.org."; Ok]) /\
  (forall k w,
     get k (fst (fst (get_weights "app.example.org." "app-4"
                        (apply_batch
                           [rec_ "app-1" 100; rec_ "app-2" 60; rec_ "app-3" 40]
                           (Some [mkChange DELETE (rec_ "app-1" 100);
                                  mkChange UPSERT (rec_ "app-2" 61);
                                  mkChange UPSERT (rec_ "app-4" 99)]))
                        (keys versions4)))) = Some w ->
     w <> 0 ->
     get k [("app-1", 0); ("app-2", 61); ("app-3", 40); ("app-4", 99)]%string
     = Some w) /\
  (forall w,
     get "app-4" [("app-1", 0); ("app-2", 61); ("app-3", 40);
                  ("app-4", 99)]%string = Some w ->
     0 < w ->
     get "app-4"
         (fst (fst (get_weights "app.example.org." "app-4"
                      (apply_batch
                         [rec_ "app-1" 100; rec_ "app-2" 60; rec_ "app-3" 40]
                         (Some [mkChange DELETE (rec_ "app-1" 100);
                                mkChange UPSERT (rec_ "app-2" 61);
                                mkChange UPSERT (rec_ "app-4" 99)]))
                      (keys versions4)))) = Some w).
Proof.
  assert (H : set_new_weights "app.example.org." "app-4" "lb"
                [("app-1", 0); ("app-2", 61); ("app-3", 40);
                 ("app-4", 99)]%string
                [rec_ "app-1" 100; rec_ "app-2" 60; rec_ "app-3" 40]
              = inr (Some [mkChange DELETE (rec_ "app-1" 100);
                           mkChange UPSERT (rec_ "app-2" 61);
                           mkChange UPSERT (rec_ "app-4" 99)],
                     [ActionSettingWeights "app.example.org."; Ok]))
    by reflexivity.
  split; [exact H|].
  exact (batch_then_read_back _ _ _ _ _ _ _ (keys versions4) H).
Defined.




(** X14.  [set_new_weights] needs a final weight for every weighted record
    of [dns_name]: at the first such record whose identifier the weight map
    lacks it raises [KeyError] with that identifier, and no batch is
    submitted. *)
Theorem set_new_weights_unknown_record dns_name identifier lb_dns_name
    new_record_weights before r after :
  (forall r', In r' (weighted dns_name before) ->
              In (SetIdentifier r') (keys new_record_weights)) ->
  matches dns_name r = true ->
  ~ In (SetIdentifier r) (keys new_record_weights) ->
  set_new_weights dns_name identifier lb_dns_name new_record_weights
    (before ++ r :: after)
  = inl (KeyError (SetIdentifier r)).
Proof.
  intros Hbefore Hm Hr. unfold set_new_weights.
  assert (Hloop : forall st,
    set_new_weights_loop dns_name identifier new_record_weights
      (before ++ r :: after) st = inl (KeyError (SetIdentifier r))).
  { unfold weighted in Hbefore.
    induction before as [|r0 before IH]; intros [changes did];
      cbn [app set_new_weights_loop set_new_weights_step filter] in *.
    - rewrite Hm. unfold lookup. apply get_none_keys in Hr. now rewrite Hr.
    - destruct (matches dns_name r0) eqn:Hm0.
      + destruct (in_keys_get (SetIdentifier r0) new_record_weights) as [w Hw];
          [apply Hbefore; now left|].
        unfold lookup. rewrite Hw. cbn [bind ret].
        destruct (negb (w =? 0)); cbn [bind ret]; apply IH;
          intros; apply Hbefore; now right.
      + cbn [bind ret]. apply IH. exact Hbefore. }
  now rewrite Hloop.
Qed.

Lemma set_new_weights_unknown_record_witness :
  (forall r', In r' (weighted "app.example.org." [rec_ "app-1" 100]) ->
              In (SetIdentifier r') (keys [("app-1", 200)]%string)) /\
  matches "app.example.org." (rec_ "app-2" 100) = true /\
  ~ In (SetIdentifier (rec_ "app-2" 100)) (keys [("app-1", 200)]%string) /\
  set_new_weights "app.example.org." "app-1" "lb" [("app-1", 200)]%string
    ([rec_ "app-1" 100] ++ rec_ "app-2" 100 :: [])
  = inl (KeyError "app-2").
Proof.
  assert (H1 : forall r',
            In r' (weighted "app.example.org." [rec_ "app-1" 100]) ->
            In (SetIdentifier r') (keys [("app-1", 200)]%string)).
  { intros r' Hr. simpl in Hr. destruct Hr as [<-|[]]. simpl. tauto. }
  assert (H2 : matches "app.example.org." (rec_ "app-2" 100) = true)
    by reflexivity.
  assert (H3 : ~ In (SetIdentifier (rec_ "app-2" 100))
                    (keys [("app-1", 200)]%string))
    by (simpl; intuition discriminate).
  repeat (split; [assumption|]).
  exact (set_new_weights_unknown_record "app.example.org." "app-1" "lb"
           _ _ _ _ H1 H2 H3).
Defined.

(* ------------------------------------------------------------------------- *)
(** ** The target of the operation ([StackVersion], [get_version]) *)

Lemma get_version_found versions v ver :
  Stack.get_version versions v = inr ver ->
  exists before after,
    versions = before ++ ver :: after /\ Stack.version ver = v /\
    forall x, In x before -> Stack.version x <> v.
Proof.
  induction versions as [|x rest IH]; cbn [Stack.get_version]; [discriminate|].
  destruct (String.eqb_spec (Stack.version x) v) as [Heq|Hne].
  - intros [= <-]. exists [], rest. repeat split; auto.
  - intros H. destruct (IH H) as (before & after & -> & Hv & Hb).
    exists (x :: before), after. repeat split; auto.
    intros y [<-|Hy]; auto.
Qed.

Lemma get_version_missing versions v e :
  Stack.get_version versions v = inl e ->
  e = Stack.VersionNotFound v /\
  forall x, In x versions -> Stack.version x <> v.
Proof.
  induction versions as [|x rest IH]; cbn [Stack.get_version].
  - intros [= <-]. split; [reflexivity | intros ? []].
  - destruct (String.eqb_spec (Stack.version x) v) as [Heq|Hne]; [discriminate|].
    intros H. destruct (IH H) as [-> Hrest]. split; [reflexivity|].
    intros y [<-|Hy]; auto.
Qed.

Lemma after_first_dot_some s zone :
  Stack.after_first_dot s = Some zone ->
  exists label,
    s = (label ++ "." ++ zone)%string /\
    Stack.after_first_dot label = None.
Proof.
  induction s as [|c s IH]; cbn [Stack.after_first_dot]; [discriminate|].
  destruct (Ascii.eqb_spec c "."%char) as [->|Hc].
  - intros [= <-]. exists EmptyString. split; reflexivity.
  - intros H. destruct (IH H) as (label & -> & Hl).
    exists (String c label). split; [reflexivity|].
    cbn [Stack.after_first_dot]. destruct (Ascii.eqb_spec c "."%char); tauto.
Qed.

Lemma after_first_dot_none s :
  Stack.after_first_dot s = None <->
  forall c, In c (list_ascii_of_string s) -> c <> "."%char.
Proof.
  induction s as [|c s IH]; cbn [Stack.after_first_dot list_ascii_of_string].
  - split; [intros _ ? [] | reflexivity].
  - destruct (Ascii.eqb_spec c "."%char) as [->|Hc].
    + split; [discriminate|]. intros H. exfalso.
      apply (H "."%char); [now left | reflexivity].
    + rewrite IH. split.
      * intros H x [<-|Hx]; auto.
      * intros H x Hx. apply H. now right.
Qed.

Lemma registry_fold versions (d : dict string) :
  let d' := fold_left (fun d v => set (Stack.identifier v) (Stack.version v) d)
              versions d in
  (NoDup (keys d) -> NoDup (keys d')) /\
  (forall k, In k (keys d') <->
             In k (keys d) \/ exists x, In x versions /\ Stack.identifier x = k) /\
  (forall x, In x versions ->
     exists y, In y versions /\ Stack.identifier y = Stack.identifier x /\
               get (Stack.identifier x) d' = Some (Stack.version y)).
Proof.
  revert d. induction versions as [|v rest IH]; intros d; cbn [fold_left].
  - cbn zeta. repeat split; auto.
    + intros [H|(x & [] & _)]. exact H.
    + intros x [].
  - specialize (IH (set (Stack.identifier v) (Stack.version v) d)).
    cbn zeta in *. destruct IH as (IHnd & IHkeys & IHget).
    split; [|split].
    + intros Hnd. apply IHnd. now apply nodup_keys_set.
    + intros k. rewrite IHkeys, in_keys_set. split.
      * intros [[->|H]|(x & Hx & Hk)]; [right; exists v; split; [now left|auto]
          | now left | right; exists x; split; [now right | exact Hk]].
      * intros [H|(x & [<-|Hx] & Hk)]; [left; now right | left; left; auto
          | right; eauto].
    + intros x [<-|Hx].
      * destruct (in_dec string_dec (Stack.identifier v)
                    (map Stack.identifier rest)) as [Hin|Hni].
        { apply in_map_iff in Hin. destruct Hin as (y & Hy & Hyin).
          destruct (IHget y Hyin) as (z & Hz & Hzid & Hget).
          exists z. split; [now right|]. split; [congruence|].
          rewrite <- Hget. f_equal. symmetry. exact Hy. }
        { exists v. split; [now left|]. split; [reflexivity|].
          assert (Hkeep : forall l d0,
            ~ In (Stack.identifier v) (map Stack.identifier l) ->
            get (Stack.identifier v)
              (fold_left (fun d v0 => set (Stack.identifier v0)
                                          (Stack.version v0) d) l d0)
            = get (Stack.identifier v) d0).
          { induction l as [|u l IHl]; intros d0 Hl; [reflexivity|].
            cbn [fold_left]. rewrite IHl by (intros H; apply Hl; now right).
            apply get_set_other. intros Heq. apply Hl. now left. }
          rewrite Hkeep by exact Hni. apply get_set_same. }
      * destruct (IHget x Hx) as (y & Hy & Hyid & Hget).
        exists y. split; [now right | auto].
Qed.

Lemma append_inj_l (a b c : string) : (a ++ b = a ++ c)%string -> b = c.
Proof. induction a as [|x a IH]; simpl; [auto | intros [= H]; auto]. Qed.

Lemma identifier_inj (a b : Stack.StackVersion) :
  Stack.name a = Stack.name b ->
  Stack.identifier a = Stack.identifier b -> Stack.version a = Stack.version b.
Proof.
  unfold Stack.identifier. intros -> H. apply append_inj_l in H.
  now apply (append_inj_l "-") in H.
Qed.

(** X15.  What [change_version_traffic] derives from the stack versions.
    When the selection succeeds, the selected version is the first one
    carrying the requested version tag; the registry has distinct keys, which
    are exactly the identifiers [name-version] of the stack versions, so the
    target's identifier is registered; the record name is the version's
    domain followed by a dot, and the zone is what follows the first dot of
    the domain. *)
Theorem select_target_registered versions stack_version t :
  Stack.select_target versions stack_version = inr t ->
  (exists before after,
     versions = before ++ Stack.selected t :: after /\
     Stack.version (Stack.selected t) = stack_version /\
     forall x, In x before -> Stack.version x <> stack_version) /\
  Stack.target_identifier t = Stack.identifier (Stack.selected t) /\
  NoDup (keys (Stack.registry t)) /\
  (forall k, In k (keys (Stack.registry t)) <->
             exists x, In x versions /\ Stack.identifier x = k) /\
  In (Stack.target_identifier t) (keys (Stack.registry t)) /\
  exists label d,
    Stack.domain (Stack.selected t) = Some d /\
    d = (label ++ "." ++ Stack.zone_domain t)%string /\
    (forall c, In c (list_ascii_of_string label) -> c <> "."%char) /\
    Stack.target_dns_name t = (d ++ ".")%string.
Proof.
  unfold Stack.select_target.
  destruct (Stack.get_version versions stack_version) as [e|ver] eqn:Hver;
    [discriminate|].
  destruct (Stack.domain ver) as [d|] eqn:Hd; [|discriminate].
  destruct (String.eqb d EmptyString); [discriminate|].
  destruct (Stack.after_first_dot d) as [zone|] eqn:Hzone; [|discriminate].
  intros [= <-].
  cbn [Stack.registry Stack.selected Stack.target_identifier
       Stack.target_dns_name Stack.zone_domain].
  destruct (get_version_found _ _ _ Hver) as (before & after & Hsplit & Hv & Hb).
  destruct (registry_fold versions empty) as (Hnd & Hkeys & _).
  fold (Stack.identifier_versions versions) in Hnd, Hkeys.
  assert (Hkeys' : forall k, In k (keys (Stack.identifier_versions versions)) <->
                     exists x, In x versions /\ Stack.identifier x = k).
  { intros k. rewrite Hkeys. cbn. split; [intros [[]|H]; exact H | auto]. }
  split; [exists before, after; auto|]. split; [reflexivity|].
  split; [apply Hnd; constructor|]. split; [exact Hkeys'|]. split.
  - apply Hkeys'. exists ver. split; [|reflexivity].
    rewrite Hsplit. apply in_or_app. right. now left.
  - destruct (after_first_dot_some _ _ Hzone) as (label & Hlabel & Hnodot).
    exists label, d. repeat split; auto. now apply after_first_dot_none.
Qed.

Lemma select_target_registered_witness :
  Stack.select_target stack_versions3 "2"
  = inr (Stack.mkTarget [("app-1", "1"); ("app-2", "2"); ("app-3", "3")]%string
           (Stack.mkStackVersion "app" "2" (Some "app.example.org"%string)
              (Some "lb-2"%string))
           "app-2" "app.example.org." "example.org") /\
  In "app-2"%string (keys [("app-1", "1"); ("app-2", "2"); ("app-3", "3")]%string)
  /\
  exists label d,
    Some "app.example.org"%string = Some d /\
    d = (label ++ "." ++ "example.org")%string /\
    (forall c, In c (list_ascii_of_string label) -> c <> "."%char) /\
    "app.example.org."%string = (d ++ ".")%string.
Proof.
  assert (H : Stack.select_target stack_versions3 "2"
    = inr (Stack.mkTarget
             [("app-1", "1"); ("app-2", "2"); ("app-3", "3")]%string
             (Stack.mkStackVersion "app" "2" (Some "app.example.org"%string)
                (Some "lb-2"%string))
             "app-2" "app.example.org." "example.org")) by reflexivity.
  split; [exact H|].
  destruct (select_target_registered _ _ _ H) as (_ & _ & _ & _ & Hin & Hdom).
  split; [exact Hin | exact Hdom].
Defined.

Lemma select_target_found versions stack_version t :
  Stack.select_target versions stack_version = inr t ->
  In (Stack.selected t) versions /\
  Stack.version (Stack.selected t) = stack_version /\
  Stack.target_identifier t = Stack.identifier (Stack.selected t) /\
  Stack.registry t = Stack.identifier_versions versions.
Proof.
  unfold Stack.select_target.
  destruct (Stack.get_version versions stack_version) as [e|ver] eqn:Hver;
    [discriminate|].
  destruct (Stack.domain ver) as [d|]; [|discriminate].
  destruct (String.eqb d EmptyString); [discriminate|].
  destruct (Stack.after_first_dot d) as [zone|]; [|discriminate].
  intros [= <-]. cbn.
  destruct (get_version_found _ _ _ Hver) as (before & after & -> & Hv & _).
  repeat split; auto. apply in_or_app. right. now left.
Qed.

(** X16.  The ways the selection fails.  It raises "version not found"
    exactly when no stack version carries the requested tag; "has no domain"
    when the first version with the tag has no (or an empty) domain; and
    [IndexError] when that version's domain contains no dot.  In every other
    case it succeeds. *)
Theorem select_target_errors versions stack_version :
  (forall e,
     Stack.select_target versions stack_version = inl e <->
     (e = Stack.VersionNotFound stack_version /\
      forall x, In x versions -> Stack.version x <> stack_version)
     \/
     (exists ver,
        Stack.get_version versions stack_version = inr ver /\
        (Stack.domain ver = None \/ Stack.domain ver = Some EmptyString) /\
        e = Stack.NoDomain (Stack.name ver) (Stack.version ver))
     \/
     (exists ver d,
        Stack.get_version versions stack_version = inr ver /\
        Stack.domain ver = Some d /\ d <> EmptyString /\
        (forall c, In c (list_ascii_of_string d) -> c <> "."%char) /\
        e = Stack.IndexError)) /\
  ((exists ver label zone,
      Stack.get_version versions stack_version = inr ver /\
      Stack.domain ver = Some (label ++ "." ++ zone)%string) ->
   exists t, Stack.select_target versions stack_version = inr t).
Proof.
  unfold Stack.select_target. split.
  - intros e.
    destruct (Stack.get_version versions stack_version) as [e0|ver] eqn:Hver.
    + destruct (get_version_missing _ _ _ Hver) as [-> Hnone]. split.
      * intros [= <-]. left. auto.
      * intros [[-> _]|[(ver & [=] & _)|(ver & d & [=] & _)]]. reflexivity.
    + destruct (get_version_found _ _ _ Hver) as (before & after & Hsplit & Hv & _).
      assert (Hfound : In ver versions)
        by (rewrite Hsplit; apply in_or_app; right; now left).
      destruct (Stack.domain ver) as [d|] eqn:Hd.
      * destruct (String.eqb_spec d EmptyString) as [->|Hne].
        { split.
          - intros [= <-]. right. left. exists ver. auto.
          - intros [[_ Hnone]|[(v' & [= <-] & _ & ->)|(v' & d' & [= <-] & Hd' & Hne & _)]];
              [exfalso; apply (Hnone ver Hfound Hv) | reflexivity|].
            rewrite Hd in Hd'. injection Hd' as <-. contradiction. }
        { destruct (Stack.after_first_dot d) as [zone|] eqn:Hzone.
          - split; [discriminate|].
            intros [[_ Hnone]|[(v' & [= <-] & [Hd'|Hd'] & _)|(v' & d' & [= <-] & Hd' & _ & Hnodot & _)]].
            + exfalso. apply (Hnone ver Hfound Hv).
            + congruence.
            + congruence.
            + rewrite Hd in Hd'. injection Hd' as <-.
              apply after_first_dot_none in Hnodot. congruence.
          - split.
            + intros [= <-]. right. right. exists ver, d.
              repeat split; auto. now apply after_first_dot_none.
            + intros [[_ Hnone]|[(v' & [= <-] & [Hd'|Hd'] & _)|(v' & d' & _ & _ & _ & _ & ->)]].
              * exfalso. apply (Hnone ver Hfound Hv).
              * congruence.
              * congruence.
              * reflexivity. }
      * split.
        { intros [= <-]. right. left. exists ver. auto. }
        { intros [[_ Hnone]|[(v' & [= <-] & _ & ->)|(v' & d' & [= <-] & Hd' & _)]];
            [exfalso; apply (Hnone ver Hfound Hv) | reflexivity | congruence]. }
  - intros (ver & label & zone & -> & ->).
    assert (Hne : (label ++ "." ++ zone)%string <> EmptyString)
      by (destruct label; discriminate).
    destruct (String.eqb_spec (label ++ "." ++ zone)%string EmptyString);
      [contradiction|].
    destruct (Stack.after_first_dot (label ++ "." ++ zone)) as [z|] eqn:Hz;
      [eauto|].
    exfalso. rewrite after_first_dot_none in Hz.
    apply (Hz "."%char); [|reflexivity].
    clear. induction label as [|c label IH]; simpl; auto.
Qed.

(** X17.  With the stack versions of one stack (one [name], as
    [get_stack_versions] yields them), the registry maps the identifier of
    every stack version to that version's tag; in particular the version of
    the selected target is the requested one. *)
Theorem registry_maps_identifier_to_version versions :
  (forall x y, In x versions -> In y versions -> Stack.name x = Stack.name y) ->
  (forall x, In x versions ->
     get (Stack.identifier x) (Stack.identifier_versions versions)
     = Some (Stack.version x)) /\
  (forall stack_version t,
     Stack.select_target versions stack_version = inr t ->
     get (Stack.target_identifier t) (Stack.registry t) = Some stack_version).
Proof.
  intros Hname.
  assert (Hget : forall x, In x versions ->
    get (Stack.identifier x) (Stack.identifier_versions versions)
    = Some (Stack.version x)).
  { intros x Hx. destruct (registry_fold versions empty) as (_ & _ & Hreg).
    destruct (Hreg x Hx) as (y & Hy & Hid & Hget).
    unfold Stack.identifier_versions. rewrite Hget. f_equal.
    apply identifier_inj; auto. }
  split; [exact Hget|].
  intros stack_version t Ht.
  destruct (select_target_found _ _ _ Ht) as (Hin & Hv & Hid & Hreg).
  rewrite Hid, Hreg, <- Hv. now apply Hget.
Qed.

Lemma registry_maps_identifier_to_version_witness :
  (forall x y, In x stack_versions3 -> In y stack_versions3 ->
               Stack.name x = Stack.name y) /\
  (forall x, In x stack_versions3 ->
     get (Stack.identifier x) (Stack.identifier_versions stack_versions3)
     = Some (Stack.version x)) /\
  (forall stack_version t,
     Stack.select_target stack_versions3 stack_version = inr t ->
     get (Stack.target_identifier t) (Stack.registry t) = Some stack_version).
Proof.
  assert (H : forall x y, In x stack_versions3 -> In y stack_versions3 ->
                          Stack.name x = Stack.name y).
  { intros x y Hx Hy. simpl in Hx, Hy.
    destruct Hx as [<-|[<-|[<-|[]]]]; destruct Hy as [<-|[<-|[<-|[]]]];
      reflexivity. }
  split; [exact H|]. exact (registry_maps_identifier_to_version _ H).
Defined.

(* ------------------------------------------------------------------------- *)
(** ** The report ([dump_traffic_changes]) *)

Lemma as_percent_plus a b :
  (as_percent a + as_percent b == as_percent (a + b))%Q.
Proof.
  unfold as_percent, PERCENT_RESOLUTION. rewrite inject_Z_plus. field.
Qed.

Lemma raw_rows_total identifier_versions known new compensations deltas ks :
  (forall k, In k ks -> In k (keys deltas)) ->
  exists raws,
    Report.raw_rows identifier_versions known new compensations deltas ks
      = inr raws /\
    map Report.raw_identifier raws = ks /\
    forall r, In r raws ->
      Report.raw_old r = get (Report.raw_identifier r) known /\
      Report.raw_new r = get (Report.raw_identifier r) new.
Proof.
  induction ks as [|k ks IH]; intros H; cbn [Report.raw_rows].
  - exists []. split; [reflexivity|]. split; [reflexivity|]. intros ? [].
  - destruct (in_keys_get k deltas) as [d ->]; [apply H; now left|].
    destruct IH as (raws & -> & Hids & Hcells); [intros; apply H; now right|].
    eexists. split; [reflexivity|]. split; [simpl; now rewrite Hids|].
    intros r [<-|Hr]; [split; reflexivity | now apply Hcells].
Qed.

Lemma finish_rows_total stack_name target fs (known new : dict Z) raws :
  (forall r, In r raws ->
     Report.raw_old r = get (Report.raw_identifier r) known /\
     Report.raw_new r = get (Report.raw_identifier r) new) ->
  (forall k, In k (map Report.raw_identifier raws) ->
             In k (keys known) /\ In k (keys new)) ->
  exists rows,
    Report.finish_rows stack_name target fs raws = inr rows /\
    map Report.identifier rows = map Report.raw_identifier raws /\
    (forall r, In r rows ->
       Report.stack_name r = stack_name /\
       Report.current r = String.eqb target (Report.identifier r) /\
       exists o n, get (Report.identifier r) known = Some o /\
                   get (Report.identifier r) new = Some n /\
                   Report.old_weight r = as_percent o /\
                   Report.new_weight r = as_percent n) /\
    (Report.total Report.new_weight rows
     == as_percent (fold_right Z.add 0%Z
          (map (fun k => match get k new with Some n => n | None => 0%Z end)
               (map Report.raw_identifier raws))))%Q.
Proof.
  induction raws as [|r raws IH]; intros Hcells Hkeys;
    cbn [Report.finish_rows map].
  - exists []. split; [reflexivity|]. split; [reflexivity|].
    split; [intros ? [] | reflexivity].
  - destruct (Hcells r (or_introl eq_refl)) as [Hold Hnew].
    destruct (Hkeys (Report.raw_identifier r) (or_introl eq_refl)) as [Hk Hn].
    destruct (in_keys_get _ _ Hk) as [o Ho].
    destruct (in_keys_get _ _ Hn) as [n Hnn].
    unfold Report.finish_row. rewrite Hold, Ho, Hnew, Hnn.
    destruct IH as (rows & -> & Hids & Hrows & Htotal).
    { intros; apply Hcells; now right. }
    { intros; apply Hkeys; now right. }
    eexists. split; [reflexivity|]. split; [cbn; now rewrite Hids|]. split.
    + intros x [<-|Hx]; [|now apply Hrows].
      cbn. repeat split. exists o, n. auto.
    + cbn [Report.total fold_right Report.new_weight].
      fold (Report.total Report.new_weight rows).
      rewrite Htotal. apply as_percent_plus.
Qed.

Lemma insert_asc_perm identifier_versions x l :
  Permutation (Report.insert_asc identifier_versions x l) (x :: l).
Proof.
  induction l as [|y l IH]; cbn [Report.insert_asc]; [reflexivity|].
  destruct (String.ltb _ _); [|reflexivity].
  rewrite IH. apply perm_swap.
Qed.

Lemma sort_asc_perm identifier_versions l :
  Permutation (Report.sort_asc identifier_versions l) l.
Proof.
  induction l as [|x l IH]; [reflexivity|]. cbn.
  fold (Report.sort_asc identifier_versions l).
  rewrite insert_asc_perm. now constructor.
Qed.

Lemma insert_asc_sorted identifier_versions x l :
  StronglySorted (fun a b =>
    String.ltb (Report.sort_key identifier_versions b)
               (Report.sort_key identifier_versions a) = false) l ->
  StronglySorted (fun a b =>
    String.ltb (Report.sort_key identifier_versions b)
               (Report.sort_key identifier_versions a) = false)
    (Report.insert_asc identifier_versions x l).
Proof.
  induction 1 as [|y l Hl IH Hy]; cbn [Report.insert_asc];
    [repeat constructor|].
  destruct (String.ltb (Report.sort_key identifier_versions y)
                       (Report.sort_key identifier_versions x)) eqn:Hyx.
  - constructor; [exact IH|].
    rewrite Forall_forall in *. intros z Hz.
    apply (Permutation_in _ (insert_asc_perm identifier_versions x l)) in Hz.
    destruct Hz as [<-|Hz]; [now apply ltb_asym | now apply Hy].
  - constructor; [now constructor|].
    constructor; [exact Hyx|].
    rewrite Forall_forall in *. intros z Hz.
    destruct (String.ltb (Report.sort_key identifier_versions z)
                         (Report.sort_key identifier_versions x)) eqn:Hzx;
      [|reflexivity].
    (* z < x, and y is not above z: then y < x *)
    specialize (Hy z Hz).
    assert (Hyz : String.ltb (Report.sort_key identifier_versions y)
                             (Report.sort_key identifier_versions x) = true).
    { destruct (String.ltb (Report.sort_key identifier_versions y)
                           (Report.sort_key identifier_versions z)) eqn:Hlt.
      - apply ltb_lt. eapply OrderedTypeEx.String_as_OT.lt_trans;
          apply ltb_lt; eauto.
      - (* neither z < y nor y < z: the keys are equal *)
        unfold String.ltb in Hy, Hlt.
        destruct (String.compare (Report.sort_key identifier_versions z)
                                 (Report.sort_key identifier_versions y))
          eqn:Hc; try discriminate.
        + apply String.compare_eq_iff in Hc. now rewrite <- Hc.
        + rewrite String.compare_antisym, Hc in Hlt. discriminate. }
    congruence.
Qed.

Lemma sort_asc_sorted identifier_versions l :
  StronglySorted (fun a b =>
    String.ltb (Report.sort_key identifier_versions b)
               (Report.sort_key identifier_versions a) = false)
    (Report.sort_asc identifier_versions l).
Proof.
  induction l as [|x l IH]; [constructor|]. cbn.
  now apply insert_asc_sorted.
Qed.

Lemma total_perm (column : Report.row -> Q) l l' :
  Permutation l l' -> (Report.total column l == Report.total column l')%Q.
Proof.
  induction 1 as [|x l l' _ IH|x y l|l l' l'' _ IH1 _ IH2]; cbn.
  - reflexivity.
  - fold (Report.total column l) (Report.total column l'). now rewrite IH.
  - ring.
  - now rewrite IH1.
Qed.

Lemma sum_by_keys (d : dict Z) :
  NoDup (keys d) ->
  fold_right Z.add 0
    (map (fun k => match get k d with Some n => n | None => 0 end) (keys d))
  = sum_values d.
Proof.
  induction d as [|[k v] d IH]; intros Hnd; [reflexivity|].
  inversion Hnd as [|? ? Hni Hnd']; subst.
  cbn [keys map fst fold_right get]. rewrite String.eqb_refl.
  rewrite sum_values_cons. f_equal. rewrite <- IH by exact Hnd'.
  f_equal. apply map_ext_in. intros k' Hk'. cbn [get].
  destruct (String.eqb_spec k' k) as [->|Hne]; [contradiction | reflexivity].
Qed.

(** X18. The report of a traffic change.  When the new weights and the deltas
    cover the known identifiers (the new weights with the same keys, each
    once, and at least one of them), [dump_traffic_changes] raises nothing
    and hands the table one row per known identifier: the rows are a
    rearrangement of the known identifiers, in ascending order of their
    version (an unregistered identifier counting as the empty version), each
    row carries the stack name, half its old and half its new weight as
    percentages and the [current] mark exactly on the target, and the
    new-weight column adds up to half the sum of the new weights. *)
Theorem report_rows stack_name target identifier_versions
    (known new compensations deltas : dict Z) :
  keys new = keys known ->
  NoDup (keys new) ->
  known <> [] ->
  (forall k, In k (keys known) -> In k (keys deltas)) ->
  exists rows,
    Report.dump_traffic_changes stack_name target identifier_versions
      known new compensations deltas = inr rows /\
    Permutation (map Report.identifier rows) (keys known) /\
    StronglySorted (fun a b =>
      String.ltb (Report.sort_key identifier_versions b)
                 (Report.sort_key identifier_versions a) = false) rows /\
    (forall r, In r rows ->
       Report.stack_name r = stack_name /\
       Report.current r = String.eqb target (Report.identifier r) /\
       exists o n, get (Report.identifier r) known = Some o /\
                   get (Report.identifier r) new = Some n /\
                   Report.old_weight r = as_percent o /\
                   Report.new_weight r = as_percent n) /\
    (Report.total Report.new_weight rows == as_percent (sum_values new))%Q.
Proof.
  intros Hkeys Hnd Hne Hdeltas. unfold Report.dump_traffic_changes.
  destruct (raw_rows_total identifier_versions known new compensations deltas
              (keys known) Hdeltas) as (raws & -> & Hids & Hcells).
  assert (Hfs : exists fs, Report.full_switch new = inr fs).
  { unfold Report.full_switch. destruct new as [|[k v] new].
    - destruct known; [congruence | discriminate].
    - cbn. eauto. }
  destruct Hfs as [fs ->].
  destruct (finish_rows_total stack_name target fs known new raws Hcells)
    as (rows & -> & Hrows_ids & Hrows & Htotal).
  { intros k Hk. rewrite Hids in Hk. split; [exact Hk | now rewrite Hkeys]. }
  exists (Report.sort_asc identifier_versions rows).
  split; [reflexivity|]. split.
  { rewrite <- Hids, <- Hrows_ids. apply Permutation_map, sort_asc_perm. }
  split; [apply sort_asc_sorted|]. split.
  { intros r Hr. apply Hrows.
    exact (Permutation_in _ (sort_asc_perm identifier_versions rows) Hr). }
  rewrite (total_perm _ _ _ (sort_asc_perm identifier_versions rows)).
  rewrite Htotal, Hids, <- Hkeys, sum_by_keys by exact Hnd. reflexivity.
Qed.

Lemma report_rows_witness :
  keys new_weights3 = keys weights3 /\
  NoDup (keys new_weights3) /\
  weights3 <> [] /\
  (forall k, In k (keys weights3) -> In k (keys deltas3)) /\
  exists rows,
    Report.dump_traffic_changes "app" "app-3" versions4
      weights3 new_weights3 [] deltas3 = inr rows /\
    Permutation (map Report.identifier rows) (keys weights3) /\
    StronglySorted (fun a b =>
      String.ltb (Report.sort_key versions4 b)
                 (Report.sort_key versions4 a) = false) rows /\
    (forall r, In r rows ->
       Report.stack_name r = "app"%string /\
       Report.current r = String.eqb "app-3" (Report.identifier r) /\
       exists o n, get (Report.identifier r) weights3 = Some o /\
                   get (Report.identifier r) new_weights3 = Some n /\
                   Report.old_weight r = as_percent o /\
                   Report.new_weight r = as_percent n) /\
    (Report.total Report.new_weight rows == as_percent (sum_values new_weights3))%Q.
Proof.
  assert (H1 : keys new_weights3 = keys weights3) by reflexivity.
  assert (H2 : NoDup (keys new_weights3)).
  { repeat constructor; simpl; intros H;
      repeat (destruct H as [H|H]; [discriminate|]); exact H. }
  assert (H3 : weights3 <> []) by discriminate.
  assert (H4 : forall k, In k (keys weights3) -> In k (keys deltas3))
    by (intros k H; exact H).
  split; [exact H1|]. split; [exact H2|]. split; [exact H3|].
  split; [exact H4|].
  exact (report_rows "app" "app-3" versions4 weights3 new_weights3 [] deltas3
           H1 H2 H3 H4).
Defined.

(** What a successful calculation hands to the report. *)
Lemma calculate_outcome identifier_versions identifier known partial_count
    partial_sum percentage percentage' new calc printed :
  NoDup (keys known) -> In identifier (keys known) ->
  calculate identifier_versions identifier known partial_count partial_sum
    percentage = inr (percentage', new, calc, printed) ->
  keys new = keys known /\ keys (deltas calc) = keys known /\
  sum_values new = FULL_PERCENTAGE.
Proof.
  intros Hnd Hin Hrun. unfold calculate in Hrun.
  destruct (if negb (partial_count =? 0) then _ else _)
    as [[dl comp] pct] in Hrun.
  rewrite calculate_new_weights_map in Hrun by exact Hnd.
  set (alloc := map _ known) in Hrun.
  set (dls := map _ known) in Hrun.
  assert (Halloc : keys alloc = keys known) by apply keys_map_values.
  assert (Hdls : keys dls = keys known) by apply keys_map_values.
  destruct (negb (FULL_PERCENTAGE - sum_values alloc =? 0)
            && (FULL_PERCENTAGE - sum_values alloc <? FULL_PERCENTAGE)).
  - destruct (compensate _ _ _ _ _ _ _) as [?|[[[p1 w1] c1] pr1]] eqn:Hcomp;
      [discriminate|].
    cbn [bind] in Hrun.
    destruct (Z.eqb_spec (sum_values w1) FULL_PERCENTAGE) as [Hsum|];
      [|discriminate].
    cbn [assert bind ret] in Hrun. injection Hrun as <- <- <- <-.
    split; [|split; [exact Hdls | exact Hsum]].
    apply (compensate_preserves (fun w => keys w = keys known) _ _ _ _ _ _ _
             _ _ _ _) with (3 := Hcomp); [| |exact Halloc].
    + intros w i x Hw _ Hget _. rewrite set_present; [exact Hw|].
      exact (get_keys _ _ _ Hget).
    + intros w v Hw. rewrite set_present; [exact Hw | now rewrite Hw].
  - cbn [bind ret] in Hrun.
    destruct (Z.eqb_spec (sum_values alloc) FULL_PERCENTAGE) as [Hsum|];
      [|discriminate].
    cbn [assert bind ret] in Hrun. injection Hrun as <- <- <- <-.
    auto.
Qed.

(** X19. A calculation that succeeds can always be reported.  When the known
    weights hold each identifier once and the target among them (as
    [get_weights] returns them), whatever [calculate] returns -- new weights,
    deltas and compensations -- makes [dump_traffic_changes] return a table
    without raising; the table has one row per known identifier, and its
    new-weight column adds up to exactly 100 percent. *)
Theorem calculated_change_is_reported stack_name identifier_versions
    identifier known partial_count partial_sum percentage percentage' new
    calc printed :
  NoDup (keys known) -> In identifier (keys known) ->
  calculate identifier_versions identifier known partial_count partial_sum
    percentage = inr (percentage', new, calc, printed) ->
  exists rows,
    Report.dump_traffic_changes stack_name identifier identifier_versions
      known new (compensations calc) (deltas calc) = inr rows /\
    Permutation (map Report.identifier rows) (keys known) /\
    (Report.total Report.new_weight rows == 100)%Q.
Proof.
  intros Hnd Hin Hrun.
  destruct (calculate_outcome _ _ _ _ _ _ _ _ _ _ Hnd Hin Hrun)
    as (Hkeys & Hdls & Hsum).
  assert (Hdeltas : forall k, In k (keys known) -> In k (keys (deltas calc)))
    by (intros k Hk; now rewrite Hdls).
  unfold Report.dump_traffic_changes.
  destruct (raw_rows_total identifier_versions known new (compensations calc)
              (deltas calc) (keys known) Hdeltas) as (raws & -> & Hids & Hcells).
  (* [max()] has a value to look at: the target's *)
  assert (Hfs : exists fs, Report.full_switch new = inr fs).
  { unfold Report.full_switch. destruct new as [|[k v] new'].
    - rewrite <- Hkeys in Hin. destruct Hin.
    - cbn. eauto. }
  destruct Hfs as [fs ->].
  destruct (finish_rows_total stack_name identifier fs known new raws Hcells)
    as (rows & -> & Hrows_ids & _ & Htotal).
  { intros k Hk. rewrite Hids in Hk. split; [exact Hk | now rewrite Hkeys]. }
  exists (Report.sort_asc identifier_versions rows).
  split; [reflexivity|]. split.
  { rewrite <- Hids, <- Hrows_ids. apply Permutation_map, sort_asc_perm. }
  rewrite (total_perm _ _ _ (sort_asc_perm identifier_versions rows)).
  rewrite Htotal, Hids, <- Hkeys, sum_by_keys by (now rewrite Hkeys).
  rewrite Hsum. reflexivity.
Qed.

Lemma calculated_change_is_reported_witness :
  NoDup (keys weights3) /\
  In "app-3"%string (keys weights3) /\
  calculate versions4 "app-3" weights3 2 150 101
  = inr (101, [("app-1", 75); ("app-2", 24); ("app-3", 101)]%string,
         mkCalculation (-25)
           [("app-1", -25); ("app-2", -25); ("app-3", 51)]%string
           [("app-2"%string, -1)],
         []) /\
  exists rows,
    Report.dump_traffic_changes "app" "app-3" versions4 weights3
      [("app-1", 75); ("app-2", 24); ("app-3", 101)]%string
      [("app-2"%string, -1)]
      [("app-1", -25); ("app-2", -25); ("app-3", 51)]%string = inr rows /\
    Permutation (map Report.identifier rows) (keys weights3) /\
    (Report.total Report.new_weight rows == 100)%Q.
Proof.
  assert (H1 : NoDup (keys weights3)).
  { repeat constructor; simpl; intros H;
      repeat (destruct H as [H|H]; [discriminate|]); exact H. }
  assert (H2 : In "app-3"%string (keys weights3))
    by (simpl; right; right; left; reflexivity).
  assert (H3 : calculate versions4 "app-3" weights3 2 150 101
               = inr (101, [("app-1", 75); ("app-2", 24); ("app-3", 101)]%string,
                      mkCalculation (-25)
                        [("app-1", -25); ("app-2", -25); ("app-3", 51)]%string
                        [("app-2"%string, -1)],
                      [])) by reflexivity.
  split; [exact H1|]. split; [exact H2|]. split; [exact H3|].
  exact (calculated_change_is_reported "app" versions4 "app-3" weights3 2 150
           101 _ _ _ _ H1 H2 H3).
Defined.
